(** * Multi-variation streaming orchestration: a shallow embedding

    The development follows the TypeScript sources of the LINE content
    generator.  Definitions come first:

    - [JS]         strings as sequences of UTF-16 code units, [trim],
                   truthiness, number formatting, completions of calls that
                   may throw;
    - [Markdown]   [formatAsMarkdown] (ContentStreamingDisplay.tsx) and
                   [_formatAsMarkdown] (content-generator.ts);
    - [Scraper]    [BlogScraper._extractTitle] and [BlogScraper.scrape];
    - [Wire]       the events and frames of the event stream;
    - [Generator]  [ContentGenerator.generateLineContent] (the three-variation
                   loop) and [generateLineContentStream];
    - [Relay]      the handler of /api/generate-line-content-stream;
    - [Client]     the ContentStreamingDisplay component: its functions and
                   handlers, and the component as a transition system;
    - [RelayProps], [ClientProps]  the vocabulary of the properties;
    - [GeneratorMore]  the Chat Completions revision of the loop,
                   [generateAllVariationsWithStreaming] and the text taken
                   from a response;
    - [WebSearch]  the web search client and the prompt's web search section;
    - [PostHandler], [ScrapeApi]  the handlers of /api/generate-line-content
                   and /api/scrape;
    - [ApiClient]  the retry interceptor of the API client;
    - [ScraperImages]  [BlogScraper._extractImages], both revisions;
    - [ClientMore] the client on the relay's channel.

    The properties follow, component by component.

    The collaborators (HTTP fetch and DOM queries, JSON parsing, the web
    search, the generation backend) are not computed: their outcomes are
    inputs, a value or a thrown error, and the handlers are functions of
    them. *)

From Stdlib Require Import ZArith NArith QArith Qminmax Lia List String Ascii Bool.
From stdpp Require Import base list.
Import ListNotations.

(* ===================================================================== *)
(** * JavaScript values *)
(* ===================================================================== *)

Module JS.

(** A JavaScript string is a sequence of UTF-16 code units; [length] is the
    number of code units, as [String.prototype.length] has it. *)
Abbreviation JSString := (list N) (only parsing).

(** String literals of the sources are written here as Rocq strings, which
    hold the UTF-8 bytes of the text; [utf8_decode] recovers the code points
    and [utf16_units] the code units the JavaScript engine stores. *)
Fixpoint utf8_decode (bs : list N) : list N :=
  match bs with
  | [] => []
  | b0 :: r =>
    if (b0 <? 128)%N then b0 :: utf8_decode r
    else if (b0 <? 224)%N then
      match r with
      | b1 :: r1 =>
        N.lor (N.shiftl (N.land b0 31) 6) (N.land b1 63) :: utf8_decode r1
      | _ => []
      end
    else if (b0 <? 240)%N then
      match r with
      | b1 :: b2 :: r2 =>
        N.lor (N.shiftl (N.land b0 15) 12)
          (N.lor (N.shiftl (N.land b1 63) 6) (N.land b2 63)) :: utf8_decode r2
      | _ => []
      end
    else
      match r with
      | b1 :: b2 :: b3 :: r3 =>
        N.lor (N.shiftl (N.land b0 7) 18)
          (N.lor (N.shiftl (N.land b1 63) 12)
             (N.lor (N.shiftl (N.land b2 63) 6) (N.land b3 63))) :: utf8_decode r3
      | _ => []
      end
  end.

Definition utf16_units (cp : N) : list N :=
  if (cp <? 65536)%N then [cp]
  else
    let v := (cp - 65536)%N in
    [(55296 + N.shiftr v 10)%N; (56320 + N.land v 1023)%N].

Definition lit (s : string) : JSString :=
  flat_map utf16_units (utf8_decode (map N_of_ascii (list_ascii_of_string s))).

(** The line feed of the template literals ("\n"). *)
Definition LF : JSString := [10%N].

(** [ToBoolean] on a string: only the empty string is falsy. *)
Definition truthy (s : JSString) : bool :=
  match s with [] => false | _ :: _ => true end.

(** [a || b] on strings. *)
Definition or_else (a b : JSString) : JSString := if truthy a then a else b.

(** [a || b] when [a] may be [undefined]. *)
Definition or_default (a : option JSString) (b : JSString) : JSString :=
  match a with
  | Some s => or_else s b
  | None => b
  end.

(** WhiteSpace and LineTerminator code units, the ones [trim] strips. *)
Definition isWhiteSpace (c : N) : bool :=
  ((9 <=? c) && (c <=? 13) || (c =? 32) || (c =? 160) || (c =? 5760)
   || (8192 <=? c) && (c <=? 8202) || (c =? 8232) || (c =? 8233)
   || (c =? 8239) || (c =? 8287) || (c =? 12288) || (c =? 65279))%N.

Fixpoint trimStart (s : JSString) : JSString :=
  match s with
  | [] => []
  | c :: r => if isWhiteSpace c then trimStart r else s
  end.

Definition trimEnd (s : JSString) : JSString := rev (trimStart (rev s)).

Definition trim (s : JSString) : JSString := trimEnd (trimStart s).

(** Decimal rendering of a non-negative integer, as a template literal
    does it. *)
Fixpoint uint_units (u : Decimal.uint) : JSString :=
  match u with
  | Decimal.Nil => []
  | Decimal.D0 u => 48%N :: uint_units u
  | Decimal.D1 u => 49%N :: uint_units u
  | Decimal.D2 u => 50%N :: uint_units u
  | Decimal.D3 u => 51%N :: uint_units u
  | Decimal.D4 u => 52%N :: uint_units u
  | Decimal.D5 u => 53%N :: uint_units u
  | Decimal.D6 u => 54%N :: uint_units u
  | Decimal.D7 u => 55%N :: uint_units u
  | Decimal.D8 u => 56%N :: uint_units u
  | Decimal.D9 u => 57%N :: uint_units u
  end.

Definition Number_toString (n : nat) : JSString := uint_units (Nat.to_uint n).

(** [s.split('/').pop()]: the part of [s] after its last slash. *)
Fixpoint split_slash_pop (s acc : JSString) : JSString :=
  match s with
  | [] => acc
  | c :: r => if (c =? 47)%N then split_slash_pop r [] else split_slash_pop r (acc ++ [c])
  end.

(** The outcome of a call that may throw; a thrown [Error] is kept by its
    message. *)
Inductive Completion (A : Type) : Type :=
| Normal (value : A)
| Thrown (message : JSString).
Arguments Normal {A} value.
Arguments Thrown {A} message.

(** [t] occurs in [s] as a contiguous substring. *)
Definition contains (s t : JSString) : Prop :=
  exists pre post, s = pre ++ t ++ post.

End JS.
Import JS.
Arguments lit : simpl never.

(* ===================================================================== *)
(** * Markdown formatting *)
(* ===================================================================== *)

Module Markdown.

(** The text appended for the image at loop index [i]. *)
Definition image_reference (i : nat) (image : JSString) : JSString :=
  LF ++ LF ++ lit "![記事画像 " ++ Number_toString (i + 1) ++ lit "](" ++ image ++ lit ")".

(** The text appended for the blog URL. *)
Definition source_link (url : JSString) : JSString :=
  LF ++ LF ++ lit "[詳細を見る](" ++ url ++ lit ")".

(** The [for] loop over the images, from index [i] on, with the [markdown]
    accumulated so far. *)
Fixpoint append_images (images : list JSString) (i : nat) (markdown : JSString) : JSString :=
  match images with
  | [] => markdown
  | image :: rest => append_images rest (S i) (markdown ++ image_reference i image)
  end.

(** [formatAsMarkdown] of ContentStreamingDisplay.tsx.  [images] defaults to
    the empty array when it is [undefined]; [blogUrl] is optional and only a
    truthy (non-empty) URL is appended. *)
Definition formatAsMarkdown (content : JSString) (images : option (list JSString))
    (blogUrl : option JSString) : JSString :=
  let images := default [] images in
  let markdown := content in
  let markdown := append_images images 0 markdown in
  match blogUrl with
  | Some url => if truthy url then markdown ++ source_link url else markdown
  | None => markdown
  end.

(** [ContentGenerator._formatAsMarkdown] of content-generator.ts: the same
    statements under the server's names. *)
Definition _formatAsMarkdown (content : JSString) (selected_images : option (list JSString))
    (blog_url : option JSString) : JSString :=
  let selected_images := default [] selected_images in
  let markdown := content in
  let markdown := append_images selected_images 0 markdown in
  match blog_url with
  | Some url => if truthy url then markdown ++ source_link url else markdown
  | None => markdown
  end.

(** C9 as the specification words it: whenever a source URL is given, the
    markdown is the content, the image references in selection order and
    the link to that URL. *)
Definition link_whenever_provided : Prop :=
  forall (c : JSString) (imgs : list JSString) (u : JSString),
    formatAsMarkdown c (Some imgs) (Some u)
    = c ++ concat (imap (fun i img =>
                           LF ++ LF ++ lit "![記事画像 " ++ Number_toString (i + 1)
                              ++ lit "](" ++ img ++ lit ")") imgs)
        ++ LF ++ LF ++ lit "[詳細を見る](" ++ u ++ lit ")".

End Markdown.

(* ===================================================================== *)
(** * The scraper's title extraction *)
(* ===================================================================== *)

Module Scraper.

(** The loaded document, seen through the queries the scraper makes.  The
    text of an empty selection is the empty string. *)
Record CheerioAPI := {
  h1_first_text : JSString;            (* $('h1').first().text() *)
  title_class_first_text : JSString;   (* $('.article-title, .entry-title, .post-title').first().text() *)
  title_tag_text : JSString;           (* $('title').text() *)
  extracted_content : JSString;        (* this._extractContent($) *)
  extracted_images : list JSString     (* this._extractImages($) *)
}.

Record ScrapedContent := {
  title : JSString;
  content : JSString;
  images : list JSString
}.

Definition unknown_title : JSString := lit "タイトル不明".

(** [BlogScraper._extractTitle]; both revisions of the scraper have the same
    body. *)
Definition _extractTitle (doc : CheerioAPI) : JSString :=
  let h1 := trim (h1_first_text doc) in
  if truthy h1 then h1
  else
    let articleTitle := trim (title_class_first_text doc) in
    if truthy articleTitle then articleTitle
    else
      let titleTag := trim (title_tag_text doc) in
      if truthy titleTag then titleTag
      else unknown_title.

(** The outcome of [axios.get]. *)
Inductive Fetch :=
| Fetched (doc : CheerioAPI)
| Failed (message : JSString).

(** What [scrape] builds from a fetched page. *)
Definition scraped_of (doc : CheerioAPI) : ScrapedContent :=
  let title := _extractTitle doc in
  let content := extracted_content doc in
  let images := extracted_images doc in
  {| title := title; content := content; images := images |}.

(** [BlogScraper.scrape], first revision: one request. *)
Definition scrape_v1 (get : Fetch) : Completion ScrapedContent :=
  match get with
  | Fetched doc => Normal (scraped_of doc)
  | Failed errorMessage =>
    Thrown (lit "記事のスクレイピングに失敗しました: " ++ errorMessage)
  end.

(** [BlogScraper.scrape], second revision: a request without headers and, when
    it fails, one with headers.  [on_failure] stands for the [catch] block
    (the 403 fallback or the rethrow), which no property below depends on. *)
Definition scrape (get_plain get_with_headers : Fetch)
    (on_failure : Completion ScrapedContent) : Completion ScrapedContent :=
  match get_plain with
  | Fetched doc => Normal (scraped_of doc)
  | Failed _ =>
    match get_with_headers with
    | Fetched doc => Normal (scraped_of doc)
    | Failed _ => on_failure
    end
  end.

(** The first non-empty of the trimmed candidates, in the order tried. *)
Definition first_nonempty (candidates : list JSString) (fallback : JSString) : JSString :=
  match filter (fun s => truthy s = true) (map trim candidates) with
  | s :: _ => s
  | [] => fallback
  end.

End Scraper.

(* ===================================================================== *)
(** * Events on the wire *)
(* ===================================================================== *)

Module Wire.

(** Events of the generation backend's stream, by the [type] the client
    dispatches on: the five types of that stream the client has a branch
    for, and [response_other] for an event of any type the client has no
    branch for.  The backend is not bound to these types: an event of its
    stream whose type is another one the client knows (['error'],
    ['variation_complete'], ['process_start'], ...) is, on the wire and for
    the client, the event of that type in [Event] below. *)
Inductive BackendEvent :=
| response_created
| response_in_progress
| web_search_call
| response_output_text_delta (delta : JSString)
| response_output_text_done
| response_other.

(** The [{type: ..., ...}] objects on the channel, by their [type], whoever
    made them: the relay, the generator, or the backend, whose events the
    relay passes on unchanged.  The client reads [type] and nothing else to
    choose its branch.  A text field holds what the client's template or
    [||] makes of the property: [error] is the text rendered for
    [data.error] (['undefined'] when the object has no such property). *)
Inductive Event :=
| process_start (message : JSString)
| scraped_content (title : JSString) (contentLength imageCount : nat)
| scraping_warning (warning : JSString)
| variation_info (index total : nat) (message : JSString)
| generation_starting (message : JSString)
| web_search_complete (message : JSString)
| web_search_error (error : JSString)
| backend (e : BackendEvent)
| variation_complete (index : nat) (message : JSString)
| error (error : JSString).

(** One [res.write]: either [data: <JSON of an event>] or the sentinel line
    [data: [DONE]], each followed by a blank line.  The JSON text of an event
    object starts with a brace, so only [DONE] is the sentinel line. *)
Inductive Frame :=
| data (e : Event)
| DONE.

Definition is_DONE (f : Frame) : bool :=
  match f with DONE => true | data _ => false end.

Definition is_scraping_warning (f : Frame) : bool :=
  match f with data (scraping_warning _) => true | _ => false end.

Definition is_scraped_content (f : Frame) : bool :=
  match f with data (scraped_content _ _ _) => true | _ => false end.

(** How often the sentinel line occurs among the frames written. *)
Definition count_DONE (frames : list Frame) : nat :=
  length (List.filter is_DONE frames).

End Wire.

(* ===================================================================== *)
(** * The content generator *)
(* ===================================================================== *)

Module Generator.
Import Wire Markdown.

Record GeneratedContent := {
  content : JSString;
  markdown : JSString
}.

(** The part of a Responses API result that [generateLineContent] reads. *)
Inductive Role := assistant | other_role.

Inductive ContentPart :=
| output_text (text : JSString)
| other_part.

Inductive OutputItem :=
| item_message (role : Role) (parts : list ContentPart)
| item_other.

Record Response := { output : list OutputItem }.

(** The inner [for] over [item.content]: the first [output_text] part sets
    [content] and breaks. *)
Fixpoint first_output_text (parts : list ContentPart) (content : JSString) : JSString :=
  match parts with
  | [] => content
  | output_text text :: _ => text
  | other_part :: rest => first_output_text rest content
  end.

(** The outer [for] over [response.output]; the [break] leaves only the inner
    loop, so a later assistant message overwrites [content]. *)
Fixpoint extract_content (items : list OutputItem) (content : JSString) : JSString :=
  match items with
  | [] => content
  | item_message assistant parts :: rest => extract_content rest (first_output_text parts content)
  | _ :: rest => extract_content rest content
  end.

(** The result of running a loop for a bounded number of iterations. *)
Inductive Run (A : Type) :=
| Returned (value : A)
| Rejected (message : JSString)
| OutOfFuel.
Arguments Returned {A} value.
Arguments Rejected {A} message.
Arguments OutOfFuel {A}.

(** The backend as the loop sees it: the answer to the [n]-th call of
    [openai.responses.create] (counted from 0), made for loop index [i]. *)
Definition Backend := nat -> nat -> Completion Response.

(** The body of [for (let i = 0; i < 3; i++)], run for at most [fuel]
    iterations.  [calls] counts the requests made so far.  On empty content
    the body does [i--; continue], so the increment puts [i] back and the
    same index is tried again. *)
Fixpoint variations_loop (fuel : nat) (create : Backend)
    (selected_images : list JSString) (blog_url : option JSString)
    (calls i : nat) (variations : list GeneratedContent)
  : Run (list GeneratedContent) :=
  match fuel with
  | O => OutOfFuel
  | S fuel' =>
    if (3 <=? i)%nat then Returned variations
    else
      match create calls i with
      | Thrown message =>
        Rejected (lit "OpenAI APIでのコンテンツ生成に失敗しました: " ++ message)
      | Normal response =>
        let content := extract_content (output response) [] in
        if (length (trim content) =? 0)%nat then
          variations_loop fuel' create selected_images blog_url (S calls) i variations
        else
          let markdown := _formatAsMarkdown content (Some selected_images) blog_url in
          variations_loop fuel' create selected_images blog_url (S calls) (S i)
            (variations ++ [{| content := content; markdown := markdown |}])
      end
  end.

(** [ContentGenerator.generateLineContent] (the Responses API revision).  The
    web search result only enters the prompt, and the prompt only reaches the
    backend, whose answers [create] gives; a failed web search is caught and
    ignored. *)
Definition generateLineContent (fuel : nat) (create : Backend)
    (selected_images : list JSString) (blog_url : option JSString)
  : Run (list GeneratedContent) :=
  variations_loop fuel create selected_images blog_url 0 0 [].

(** A backend whose every answer is a completed response without text. *)
Definition always_empty : Backend :=
  fun _ _ => Normal {| output := [item_message assistant []] |}.

(** A backend that answers every call with the same text. *)
Definition always_text (text : JSString) : Backend :=
  fun _ _ => Normal {| output := [item_message assistant [output_text text]] |}.

(** The backend stream of [openai.responses.create({stream: true})]: the
    events it delivers, as they read on the wire, and, when the iteration
    fails midway, the error.  The events are any events: nothing in the
    generator or the relay looks at them. *)
Record BackendStream := {
  events : list Event;
  failure : option JSString
}.

(** The value of [selected_images] after the destructuring default
    ([selected_images = []], which replaces [undefined] only): JSON [null],
    or an array.  The request type declares [string[]]; a value of another
    JSON type is outside the embedding (reading its [length] does not throw:
    the handlers go the way they go for an array). *)
Inductive SelectedImages :=
| images_null
| images_array (l : list JSString).

(** The message of the [TypeError] that reading [.length] of [null]
    raises (the wording of V8). *)
Definition length_of_null : JSString :=
  lit "Cannot read properties of null (reading 'length')".

(** What an async generator did: the values it yielded, in order, and the
    error it threw, if any. *)
Record Yields := {
  yielded : list Event;
  thrown : option JSString
}.

Definition streaming_failed (message : JSString) : JSString :=
  lit "OpenAI APIでのストリーミング生成に失敗しました: " ++ message.

(** [ContentGenerator.generateLineContentStream].  [_buildPrompt] reads
    [selected_images.length] after the web search and before the [try]
    block, so for [null] the generator throws the [TypeError] as it is, not
    wrapped. *)
Definition generateLineContentStream
    (enhanceContentWithWebSearch : JSString -> Completion unit)
    (responses_create : nat -> Completion BackendStream)
    (scraped_title : JSString) (selected_images : SelectedImages)
    (use_web_search : bool) (variationIndex : nat) : Yields :=
  let web_search :=
    if use_web_search then
      match enhanceContentWithWebSearch scraped_title with
      | Normal _ => [web_search_complete (lit "Web検索が完了しました")]
      | Thrown message => [web_search_error message]
      end
    else [] in
  match selected_images with
  | images_null => {| yielded := web_search; thrown := Some length_of_null |}
  | images_array _ =>
    let info :=
      variation_info variationIndex 3
        (lit "バリエーション " ++ Number_toString (variationIndex + 1) ++ lit "/3 を生成中...") in
    match responses_create variationIndex with
    | Thrown message =>
      {| yielded := web_search ++ [info]; thrown := Some (streaming_failed message) |}
    | Normal response =>
      match failure response with
      | Some message =>
        {| yielded := web_search ++ [info] ++ events response;
           thrown := Some (streaming_failed message) |}
      | None =>
        {| yielded := web_search ++ [info] ++ events response
                      ++ [variation_complete variationIndex
                            (lit "バリエーション " ++ Number_toString (variationIndex + 1)
                             ++ lit " の生成が完了しました")];
           thrown := None |}
      end
    end
  end.

End Generator.

(* ===================================================================== *)
(** * The stream relay: /api/generate-line-content-stream *)
(* ===================================================================== *)

Module Relay.
Import Wire Scraper Generator.

Inductive Method := GET | POST | OTHER.

(** A query parameter as Next.js hands it over. *)
Inductive QueryValue :=
| q_undefined
| q_string (s : JSString)
| q_array (l : list JSString).

(** The object that [JSON.parse(requestData)] yields, by the fields the
    handler touches; a field is [None] when the object lacks it
    ([undefined]).  [selected_images] may also be JSON [null], which the
    destructuring default does not replace.  [use_web_search] is only ever
    tested for truthiness: [Some b] is a value that is present, with
    truthiness [b] ([null] is [Some false]).  [blog_url] is a string or
    missing; a [blog_url] that is [null] or of another JSON type is outside
    the embedding (the handler treats it like a missing one, up to the
    wording of the texts built from it).
    [scraped_content] is the pre-scraped article that the POST endpoint and
    the client put into the request; the handler's destructuring leaves it
    inside [lineRequest]. *)
Record ParsedData := {
  blog_url : option JSString;
  selected_images : option SelectedImages;
  use_web_search : option bool;
  scraped_content_field : option ScrapedContent
}.

Record Request := {
  method : Method;
  query_requestData : QueryValue;
  query_variationIndex : option nat     (* parseInt(variationIndex, 10) *)
}.

(** Everything outside the handler.  [JSON_parse] throws for text that is
    not JSON (and stands for the destructuring as well, which throws for
    [null]); [OPENAI_API_KEY] is the environment variable; the scraper, the
    web search and the backend answer or throw. *)
Record World := {
  JSON_parse : JSString -> Completion ParsedData;
  OPENAI_API_KEY : option JSString;
  BlogScraper_scrape : option JSString -> Completion ScrapedContent;
  enhanceContentWithWebSearch : JSString -> Completion unit;
  responses_create : nat -> Completion BackendStream
}.

(** One call of [generateLineContentStream], by its arguments. *)
Record GeneratorCall := {
  gc_scraped_content : ScrapedContent;
  gc_selected_images : SelectedImages;
  gc_use_web_search : bool;
  gc_variationIndex : nat
}.

(** The response object together with a log of the collaborator calls. *)
Record Channel := {
  statusCode : nat;
  frames : list Frame;                       (* res.write, oldest first *)
  ended : bool;                              (* res.end() / res.json() *)
  scrape_calls : list (option JSString);     (* URLs given to new BlogScraper(..).scrape() *)
  generator_calls : list GeneratorCall
}.

Definition writeHead (code : nat) : Channel :=
  {| statusCode := code; frames := []; ended := false;
     scrape_calls := []; generator_calls := [] |}.

Definition write (f : Frame) (ch : Channel) : Channel :=
  {| statusCode := statusCode ch; frames := frames ch ++ [f]; ended := ended ch;
     scrape_calls := scrape_calls ch; generator_calls := generator_calls ch |}.

Definition end_ (ch : Channel) : Channel :=
  {| statusCode := statusCode ch; frames := frames ch; ended := true;
     scrape_calls := scrape_calls ch; generator_calls := generator_calls ch |}.

Definition called_scrape (url : option JSString) (ch : Channel) : Channel :=
  {| statusCode := statusCode ch; frames := frames ch; ended := ended ch;
     scrape_calls := scrape_calls ch ++ [url]; generator_calls := generator_calls ch |}.

Definition called_generator (c : GeneratorCall) (ch : Channel) : Channel :=
  {| statusCode := statusCode ch; frames := frames ch; ended := ended ch;
     scrape_calls := scrape_calls ch; generator_calls := generator_calls ch ++ [c] |}.

(** [res.status(405).json(...)]: no event-stream head, no frame. *)
Definition method_not_allowed : Channel :=
  {| statusCode := 405; frames := []; ended := true;
     scrape_calls := []; generator_calls := [] |}.

(** The outer [catch]: an [error] event, then [res.end()]. *)
Definition outer_catch (errorMessage : JSString) (ch : Channel) : Channel :=
  end_ (write (data (error (lit "ストリーミングエラー: " ++ errorMessage))) ch).

(** [`${url}`] of a possibly missing URL. *)
Definition url_text (url : option JSString) : JSString :=
  match url with
  | Some u => u
  | None => lit "undefined"
  end.

Definition minimum_content_length : nat := 50.

(** The check after a successful scrape: content that is empty or shorter
    than 50 code units is replaced by a default sentence (when empty) and
    extended by a sentence naming the blog URL. *)
Definition ensure_enough_content (url : option JSString) (sc : ScrapedContent) : ScrapedContent :=
  if negb (truthy (Scraper.content sc))
     || (length (Scraper.content sc) <? minimum_content_length)%nat
  then
    {| title := title sc;
       Scraper.content := or_else (Scraper.content sc) (lit "記事の内容が十分に取得できませんでした。")
                  ++ LF ++ LF ++ url_text url
                  ++ lit " の記事を基に、LINE配信記事を作成します。";
       images := images sc |}
  else sc.

(** The dummy article of the scrape [catch] block. *)
Definition placeholder_content (url : JSString) (selected_images : list JSString)
  : ScrapedContent :=
  {| title := or_else (split_slash_pop url []) (lit "記事タイトル");
     Scraper.content := lit "記事の内容を解析できませんでした。OpenAIのWeb検索機能を使用して、関連情報を検索します。";
     images := if (0 <? length selected_images)%nat then selected_images else [] |}.

Definition scraping_warning_text (errorMessage : JSString) : JSString :=
  lit "記事の詳細なスクレイピングに失敗しましたが、基本情報で処理を続行します: " ++ errorMessage.

(** The message of the [TypeError] raised by [lineRequest.blog_url.split]
    when the request has no [blog_url]. *)
Definition split_of_undefined : JSString :=
  lit "Cannot read properties of undefined (reading 'split')".

(** From [variation_info] to the end of the handler: the two announcements,
    the generator's chunks relayed one by one, an [error] event when the
    generator throws, then the sentinel and [res.end()]. *)
Definition generate_and_finish (w : World) (sc : ScrapedContent)
    (selected_images : SelectedImages) (use_web_search : bool) (varIndex : nat)
    (ch : Channel) : Channel :=
  let ch := write (data (variation_info varIndex 3
              (lit "バリエーション " ++ Number_toString (varIndex + 1)
               ++ lit "/3 の生成を開始します"))) ch in
  let ch := write (data (generation_starting
              (lit "OpenAIを使用してコンテンツの生成を開始します"))) ch in
  let ch := called_generator
              {| gc_scraped_content := sc; gc_selected_images := selected_images;
                 gc_use_web_search := use_web_search; gc_variationIndex := varIndex |} ch in
  let streamGenerator :=
    generateLineContentStream (enhanceContentWithWebSearch w) (responses_create w)
      (title sc) selected_images use_web_search varIndex in
  let ch := fold_left (fun ch chunk => write (data chunk) ch) (yielded streamGenerator) ch in
  let ch :=
    match thrown streamGenerator with
    | Some errorMessage =>
      write (data (error (lit "コンテンツ生成中にエラーが発生しました: " ++ errorMessage))) ch
    | None => ch
    end in
  end_ (write DONE ch).

(** The handler from the [process_start] event on: the part of the [try]
    block behind the two guards.  In the scrape [catch] block the placeholder
    is built first: [blog_url.split] throws for a request without blog URL
    and [selected_images.length] throws for [null]; either error leaves the
    block for the outer [catch], before the warning is written. *)
Definition scrape_and_generate (w : World) (parsedData : ParsedData)
    (variationIndex : option nat) (ch : Channel) : Channel :=
  let selected_images := default (images_array []) (selected_images parsedData) in
  let use_web_search := default true (use_web_search parsedData) in
  let varIndex := default 0%nat variationIndex in
  let ch := write (data (process_start
              (lit "ブログ記事のスクレイピングを開始します"))) ch in
  let ch := called_scrape (blog_url parsedData) ch in
  match BlogScraper_scrape w (blog_url parsedData) with
  | Normal scraped =>
    let scraped := ensure_enough_content (blog_url parsedData) scraped in
    let ch := write (data (scraped_content (title scraped)
                (length (Scraper.content scraped)) (length (images scraped)))) ch in
    generate_and_finish w scraped selected_images use_web_search varIndex ch
  | Thrown errorMessage =>
    match blog_url parsedData with
    | Some url =>
      match selected_images with
      | images_array images =>
        let scraped := placeholder_content url images in
        let ch := write (data (scraping_warning
                    (scraping_warning_text errorMessage))) ch in
        generate_and_finish w scraped selected_images use_web_search varIndex ch
      | images_null => outer_catch length_of_null ch
      end
    | None => outer_catch split_of_undefined ch
    end
  end.

(** The two guards: an [error] event and [return res.end()]. *)
Definition request_data_missing (ch : Channel) : Channel :=
  end_ (write (data (error (lit "リクエストデータが見つかりません"))) ch).

Definition api_key_missing (ch : Channel) : Channel :=
  end_ (write (data (error (lit "OPENAI_API_KEYが設定されていません"))) ch).

(** The handler of the streaming endpoint. *)
Definition handler (w : World) (req : Request) : Channel :=
  match method req with
  | GET =>
    let ch := writeHead 200 in
    match query_requestData req with
    | q_string requestData =>
      if truthy requestData then
        match JSON_parse w requestData with
        | Thrown errorMessage => outer_catch errorMessage ch
        | Normal parsedData =>
          match OPENAI_API_KEY w with
          | Some openaiApiKey =>
            if truthy openaiApiKey
            then scrape_and_generate w parsedData (query_variationIndex req) ch
            else api_key_missing ch
          | None => api_key_missing ch
          end
        end
      else request_data_missing ch
    | _ => request_data_missing ch
    end
  | _ => method_not_allowed
  end.

End Relay.
(* ===================================================================== *)
(** * The client orchestrator: ContentStreamingDisplay *)
(* ===================================================================== *)

Module Client.
Import Markdown.
Export Generator (GeneratedContent).

(** ** Data *)

Inductive Status := Pending | Loading | Complete | Error.

(** One entry of [variationStates].  [progress] is a JavaScript number; the
    values the component computes are rationals ([60 + length / 15]), kept
    here exactly. *)
Record VariationState := {
  status : Status;
  progress : Q
}.

(** An entry of [eventSourceRefs.current]: [null], or an [EventSource] that is
    connected or has been closed. *)
Inductive EventSourceRef := es_null | es_open | es_closed.

Definition close (es : EventSourceRef) : EventSourceRef :=
  match es with
  | es_null => es_null
  | _ => es_closed
  end.

(** [event.data] of a message: the sentinel text, the JSON text of an event,
    or text that [JSON.parse] rejects or that has no [type] the handler knows
    (the handler's [catch] logs it and nothing else happens). *)
Inductive MessageData :=
| msg_DONE
| msg_event (e : Wire.Event)
| msg_malformed.

(** The props of the component that the handlers read. *)
Record Props := {
  scrapedContent_title : option JSString;   (* scrapedContent?.title *)
  selectedImages : list JSString;
  apiRequest_blog_url : option JSString     (* apiRequest?.blog_url *)
}.

(** Calls of the parent's callbacks. *)
Inductive Callback :=
| onStreamComplete (variations : list GeneratedContent)
| onStreamError (message : JSString).

(** The component between two events.

    - [streamedContents] .. [variationStates] are the React state (the values
      the next render sees); [progressText], [progressStage] and
      [currentVariation] only feed the rendering and are left out.
    - [eventSourceRefs] is the ref.
    - [closure_streamedContents] and [closure_completedVariations] are the
      constants [streamedContents] and [completedVariations] of the render
      whose effect started the run.  [generateVariation], the handlers it
      installs and the timeout callbacks all belong to that render, so the
      arrays they spread ([[...streamedContents]], [[...completedVariations]])
      and the array [finishAllVariations] maps over are these constants.
      [setVariationStates] is called with an updater function and so works on
      the current state.
    - [accumulatedText] holds the local [let accumulatedText] of the call
      [generateVariation(index)], per index.
    - [timeouts] are the pending [setTimeout] callbacks, each a call
      [generateVariation(k)], by their [k].
    - [callbacks] logs the calls of [onStreamComplete] and [onStreamError]
      since the effect ran, oldest first. *)
Record Component := {
  streamedContents : list JSString;
  isLoading : bool;
  error : option JSString;
  warning : option JSString;
  completedVariations : list bool;
  variationStates : list VariationState;
  eventSourceRefs : list EventSourceRef;
  closure_streamedContents : list JSString;
  closure_completedVariations : list bool;
  accumulatedText : list JSString;
  timeouts : list nat;
  callbacks : list Callback
}.

Definition setStreamedContents (v : list JSString) (c : Component) : Component :=
  {| streamedContents := v; isLoading := isLoading c; error := error c;
     warning := warning c; completedVariations := completedVariations c;
     variationStates := variationStates c; eventSourceRefs := eventSourceRefs c;
     closure_streamedContents := closure_streamedContents c;
     closure_completedVariations := closure_completedVariations c;
     accumulatedText := accumulatedText c; timeouts := timeouts c;
     callbacks := callbacks c |}.

Definition setIsLoading (v : bool) (c : Component) : Component :=
  {| streamedContents := streamedContents c; isLoading := v; error := error c;
     warning := warning c; completedVariations := completedVariations c;
     variationStates := variationStates c; eventSourceRefs := eventSourceRefs c;
     closure_streamedContents := closure_streamedContents c;
     closure_completedVariations := closure_completedVariations c;
     accumulatedText := accumulatedText c; timeouts := timeouts c;
     callbacks := callbacks c |}.

Definition setError (v : option JSString) (c : Component) : Component :=
  {| streamedContents := streamedContents c; isLoading := isLoading c; error := v;
     warning := warning c; completedVariations := completedVariations c;
     variationStates := variationStates c; eventSourceRefs := eventSourceRefs c;
     closure_streamedContents := closure_streamedContents c;
     closure_completedVariations := closure_completedVariations c;
     accumulatedText := accumulatedText c; timeouts := timeouts c;
     callbacks := callbacks c |}.

Definition setWarning (v : option JSString) (c : Component) : Component :=
  {| streamedContents := streamedContents c; isLoading := isLoading c; error := error c;
     warning := v; completedVariations := completedVariations c;
     variationStates := variationStates c; eventSourceRefs := eventSourceRefs c;
     closure_streamedContents := closure_streamedContents c;
     closure_completedVariations := closure_completedVariations c;
     accumulatedText := accumulatedText c; timeouts := timeouts c;
     callbacks := callbacks c |}.

Definition setCompletedVariations (v : list bool) (c : Component) : Component :=
  {| streamedContents := streamedContents c; isLoading := isLoading c; error := error c;
     warning := warning c; completedVariations := v;
     variationStates := variationStates c; eventSourceRefs := eventSourceRefs c;
     closure_streamedContents := closure_streamedContents c;
     closure_completedVariations := closure_completedVariations c;
     accumulatedText := accumulatedText c; timeouts := timeouts c;
     callbacks := callbacks c |}.

(** [setVariationStates(prev => f(prev))]. *)
Definition setVariationStates (f : list VariationState -> list VariationState)
    (c : Component) : Component :=
  {| streamedContents := streamedContents c; isLoading := isLoading c; error := error c;
     warning := warning c; completedVariations := completedVariations c;
     variationStates := f (variationStates c); eventSourceRefs := eventSourceRefs c;
     closure_streamedContents := closure_streamedContents c;
     closure_completedVariations := closure_completedVariations c;
     accumulatedText := accumulatedText c; timeouts := timeouts c;
     callbacks := callbacks c |}.

Definition with_eventSourceRefs (v : list EventSourceRef) (c : Component) : Component :=
  {| streamedContents := streamedContents c; isLoading := isLoading c; error := error c;
     warning := warning c; completedVariations := completedVariations c;
     variationStates := variationStates c; eventSourceRefs := v;
     closure_streamedContents := closure_streamedContents c;
     closure_completedVariations := closure_completedVariations c;
     accumulatedText := accumulatedText c; timeouts := timeouts c;
     callbacks := callbacks c |}.

Definition with_closure (contents : list JSString) (completed : list bool)
    (c : Component) : Component :=
  {| streamedContents := streamedContents c; isLoading := isLoading c; error := error c;
     warning := warning c; completedVariations := completedVariations c;
     variationStates := variationStates c; eventSourceRefs := eventSourceRefs c;
     closure_streamedContents := contents;
     closure_completedVariations := completed;
     accumulatedText := accumulatedText c; timeouts := timeouts c;
     callbacks := callbacks c |}.

Definition with_accumulatedText (v : list JSString) (c : Component) : Component :=
  {| streamedContents := streamedContents c; isLoading := isLoading c; error := error c;
     warning := warning c; completedVariations := completedVariations c;
     variationStates := variationStates c; eventSourceRefs := eventSourceRefs c;
     closure_streamedContents := closure_streamedContents c;
     closure_completedVariations := closure_completedVariations c;
     accumulatedText := v; timeouts := timeouts c;
     callbacks := callbacks c |}.

Definition with_timeouts (v : list nat) (c : Component) : Component :=
  {| streamedContents := streamedContents c; isLoading := isLoading c; error := error c;
     warning := warning c; completedVariations := completedVariations c;
     variationStates := variationStates c; eventSourceRefs := eventSourceRefs c;
     closure_streamedContents := closure_streamedContents c;
     closure_completedVariations := closure_completedVariations c;
     accumulatedText := accumulatedText c; timeouts := v;
     callbacks := callbacks c |}.

Definition with_callbacks (v : list Callback) (c : Component) : Component :=
  {| streamedContents := streamedContents c; isLoading := isLoading c; error := error c;
     warning := warning c; completedVariations := completedVariations c;
     variationStates := variationStates c; eventSourceRefs := eventSourceRefs c;
     closure_streamedContents := closure_streamedContents c;
     closure_completedVariations := closure_completedVariations c;
     accumulatedText := accumulatedText c; timeouts := timeouts c;
     callbacks := v |}.

(** [setTimeout(() => generateVariation(k), 500)]. *)
Definition setTimeout (k : nat) (c : Component) : Component :=
  with_timeouts (timeouts c ++ [k]) c.

(** The values of [useState] and [useRef] at the first render. *)
Definition mount : Component :=
  {| streamedContents := [[]; []; []];
     isLoading := false;
     error := None;
     warning := None;
     completedVariations := [false; false; false];
     variationStates :=
       [ {| status := Pending; progress := 0 |};
         {| status := Pending; progress := 0 |};
         {| status := Pending; progress := 0 |} ];
     eventSourceRefs := [es_null; es_null; es_null];
     closure_streamedContents := [[]; []; []];
     closure_completedVariations := [false; false; false];
     accumulatedText := [[]; []; []];
     timeouts := [];
     callbacks := [] |}.

(** ** The functions of the component

    Array writes [a[index] = v] are list inserts.  They are in range in every
    call: [generateVariation] returns before any write when [index >= 3], and
    the handlers are installed for the index it was called with. *)

Section WithProps.
Variable props : Props.

(** [updateVariationProgress]: the spread keeps the entry's other field and
    [progress] is overwritten with the argument. *)
Definition updateVariationProgress (index : nat) (p : Q) (c : Component) : Component :=
  setVariationStates
    (alter (fun s => {| status := status s; progress := p |}) index) c.

(** The array [finishAllVariations] builds from [streamedContents]. *)
Definition generatedContents (contents : list JSString) : list GeneratedContent :=
  map (fun content =>
         {| Generator.content := content;
            Generator.markdown :=
              formatAsMarkdown content (Some (selectedImages props))
                (apiRequest_blog_url props) |})
      contents.

(** [finishAllVariations]; its [streamedContents] is the constant of the
    render the function belongs to. *)
Definition finishAllVariations (c : Component) : Component :=
  let c := setIsLoading false c in
  with_callbacks
    (callbacks c ++ [onStreamComplete (generatedContents (closure_streamedContents c))]) c.

(** [generateVariation]. *)
Definition generateVariation (index : nat) (c : Component) : Component :=
  if (3 <=? index)%nat then finishAllVariations c
  else
    let c := setVariationStates
               (fun prev => <[index := {| status := Loading; progress := 5 |}]> prev) c in
    let c := with_eventSourceRefs (<[index := es_open]> (eventSourceRefs c)) c in
    with_accumulatedText (<[index := []]> (accumulatedText c)) c.

Definition fallbackContent (index : nat) : JSString :=
  lit "バリエーション " ++ Number_toString (index + 1) ++ lit " の生成に失敗しました。"
  ++ LF ++ LF ++ or_default (scrapedContent_title props) (lit "この記事")
  ++ lit "についての情報は元の記事をご覧ください。".

(** [handleVariationError]. *)
Definition handleVariationError (index : nat) (errorMessage : JSString)
    (c : Component) : Component :=
  let c := setVariationStates
             (fun prev => <[index := {| status := Error; progress := 0 |}]> prev) c in
  let c := setError
             (Some (lit "バリエーション " ++ Number_toString (index + 1)
                    ++ lit " の生成中にエラーが発生しました: " ++ errorMessage)) c in
  let c := with_eventSourceRefs (alter close index (eventSourceRefs c)) c in
  let newContents := <[index := fallbackContent index]> (closure_streamedContents c) in
  let c := setStreamedContents newContents c in
  let newCompleted := <[index := true]> (closure_completedVariations c) in
  let c := setCompletedVariations newCompleted c in
  setTimeout (index + 1) c.

(** The progress a text delta assigns:
    [Math.min(60 + (accumulatedText.length / 15), 95)]. *)
Definition delta_progress (accumulated : JSString) : Q :=
  Qmin (60 + (Z.of_nat (length accumulated) # 15)) 95.

(** [eventSource.onmessage] of the call [generateVariation(index)].  The
    branch is chosen by the event's [type] alone, whoever wrote the event to
    the channel: an [error] event that the backend's stream delivered is
    handled like one of the relay.  An event of a type without a branch
    changes nothing. *)
Definition onmessage (index : nat) (d : MessageData) (c : Component) : Component :=
  match d with
  | msg_DONE =>
    let c := with_eventSourceRefs (alter close index (eventSourceRefs c)) c in
    let newCompleted := <[index := true]> (closure_completedVariations c) in
    let c := setCompletedVariations newCompleted c in
    let c := setVariationStates
               (fun prev => <[index := {| status := Complete; progress := 100 |}]> prev) c in
    setTimeout (index + 1) c
  | msg_malformed => c
  | msg_event e =>
    match e with
    | Wire.process_start _ => updateVariationProgress index 10 c
    | Wire.scraped_content _ _ _ => updateVariationProgress index 20 c
    | Wire.scraping_warning w =>
      let c := setWarning
                 (Some (or_else w
                    (lit "スクレイピング中に問題が発生しましたが、処理を続行します"))) c in
      updateVariationProgress index 25 c
    | Wire.variation_info _ _ _ => updateVariationProgress index 30 c
    | Wire.generation_starting _ => updateVariationProgress index 35 c
    | Wire.backend Wire.response_created => updateVariationProgress index 40 c
    | Wire.backend Wire.response_in_progress => updateVariationProgress index 50 c
    | Wire.backend Wire.web_search_call => updateVariationProgress index 60 c
    | Wire.backend (Wire.response_output_text_delta delta) =>
      let accumulated := default [] (accumulatedText c !! index) ++ delta in
      let c := with_accumulatedText (<[index := accumulated]> (accumulatedText c)) c in
      let newContents := <[index := accumulated]> (closure_streamedContents c) in
      let c := setStreamedContents newContents c in
      updateVariationProgress index (delta_progress accumulated) c
    | Wire.backend Wire.response_output_text_done => updateVariationProgress index 98 c
    | Wire.variation_complete _ _ => updateVariationProgress index 100 c
    | Wire.error errorMessage => handleVariationError index errorMessage c
    | Wire.web_search_complete _ => c
    | Wire.web_search_error _ => c
    | Wire.backend Wire.response_other => c
    end
  end.

(** [eventSource.onerror] of the call [generateVariation(index)]. *)
Definition onerror (index : nat) (c : Component) : Component :=
  handleVariationError index (lit "ストリーミング中にエラーが発生しました") c.

Definition cancelled : JSString := lit "ストリーミングがキャンセルされました".

(** [handleCancelStream]. *)
Definition handleCancelStream (c : Component) : Component :=
  let c := with_eventSourceRefs (map close (eventSourceRefs c)) c in
  let c := setIsLoading false c in
  with_callbacks (callbacks c ++ [onStreamError cancelled]) c.

(** The body of the effect, run when [isStreaming], [apiRequest] and
    [scrapedContent] are all set.  What the handlers close over is fixed
    first; then the state is reset and the first variation started. *)
Definition effect (c : Component) : Component :=
  let c := with_closure (streamedContents c) (completedVariations c) c in
  let c := with_callbacks [] c in
  let c := setIsLoading true c in
  let c := setStreamedContents [[]; []; []] c in
  let c := setError None c in
  let c := setWarning None c in
  let c := setCompletedVariations [false; false; false] c in
  let c := setVariationStates
             (fun _ => [ {| status := Pending; progress := 0 |};
                         {| status := Pending; progress := 0 |};
                         {| status := Pending; progress := 0 |} ]) c in
  generateVariation 0 c.

(** ** The component as a transition system *)

(** What can happen to a running component. *)
Inductive Input :=
| Message (index : nat) (d : MessageData)   (* a message on the channel of [index] *)
| SourceError (index : nat)                 (* the channel of [index] fails *)
| TimeoutFires                              (* the oldest pending timeout runs *)
| CancelClick.                              (* the button, rendered while [isLoading] *)

Definition is_open (c : Component) (index : nat) : bool :=
  match eventSourceRefs c !! index with
  | Some es_open => true
  | _ => false
  end.

(** A closed [EventSource] dispatches nothing, and the cancel button exists
    only while [isLoading]. *)
Definition step (c : Component) (i : Input) : Component :=
  match i with
  | Message index d => if is_open c index then onmessage index d c else c
  | SourceError index => if is_open c index then onerror index c else c
  | TimeoutFires =>
    match timeouts c with
    | k :: rest => generateVariation k (with_timeouts rest c)
    | [] => c
    end
  | CancelClick => if isLoading c then handleCancelStream c else c
  end.

Definition run (c : Component) (trace : list Input) : Component :=
  fold_left step trace c.

(** The states recorded along a run, the start included. *)
Fixpoint history (c : Component) (trace : list Input) : list Component :=
  match trace with
  | [] => [c]
  | i :: rest => c :: history (step c i) rest
  end.

End WithProps.

(** ** Observations *)

Definition progress_of (c : Component) (index : nat) : Q :=
  match variationStates c !! index with
  | Some s => progress s
  | None => 0
  end.

Definition status_of (c : Component) (index : nat) : option Status :=
  status <$> variationStates c !! index.

Definition terminal (s : Status) : bool :=
  match s with
  | Complete | Error => true
  | Pending | Loading => false
  end.

Definition no_open (c : Component) : Prop :=
  forall index, is_open c index = false.

(** Nothing is in flight: no channel is open and no timeout is pending. *)
Definition quiescent (c : Component) : Prop :=
  no_open c /\ timeouts c = [].

(** The states in which the effect may run: the arrays have their three
    entries and nothing of an earlier run is in flight. *)
Definition ready (c : Component) : Prop :=
  length (streamedContents c) = 3%nat
  /\ length (completedVariations c) = 3%nat
  /\ length (variationStates c) = 3%nat
  /\ length (eventSourceRefs c) = 3%nat
  /\ length (accumulatedText c) = 3%nat
  /\ quiescent c.

Definition is_cancel (i : Input) : bool :=
  match i with CancelClick => true | _ => false end.

Definition no_cancel (trace : list Input) : Prop :=
  forallb (fun i => negb (is_cancel i)) trace = true.

Definition is_complete_call (cb : Callback) : bool :=
  match cb with onStreamComplete _ => true | onStreamError _ => false end.

(** What a channel delivers ends the session: the sentinel or an [error]
    event. *)
Definition ends_session (d : MessageData) : bool :=
  match d with
  | msg_DONE => true
  | msg_event (Wire.error _) => true
  | _ => false
  end.

(** The progress value an event assigns, if it assigns one; [accumulated] is
    the text of the session so far. *)
Definition assigned_progress (accumulated : JSString) (d : MessageData) : option Q :=
  match d with
  | msg_DONE => Some 100%Q
  | msg_malformed => None
  | msg_event e =>
    match e with
    | Wire.process_start _ => Some 10%Q
    | Wire.scraped_content _ _ _ => Some 20%Q
    | Wire.scraping_warning _ => Some 25%Q
    | Wire.variation_info _ _ _ => Some 30%Q
    | Wire.generation_starting _ => Some 35%Q
    | Wire.backend Wire.response_created => Some 40%Q
    | Wire.backend Wire.response_in_progress => Some 50%Q
    | Wire.backend Wire.web_search_call => Some 60%Q
    | Wire.backend (Wire.response_output_text_delta delta) =>
      Some (delta_progress (accumulated ++ delta))
    | Wire.backend Wire.response_output_text_done => Some 98%Q
    | Wire.variation_complete _ _ => Some 100%Q
    | Wire.error _ => Some 0%Q
    | _ => None
    end
  end.

End Client.
(* ===================================================================== *)
(** * Vocabulary of the properties *)
(* ===================================================================== *)

Module RelayProps.
Import Wire Scraper Generator Relay.

(** The frame of the generator's error, if it threw. *)
Definition generation_error_frames (y : Yields) : list Frame :=
  match thrown y with
  | Some errorMessage =>
    [data (error (lit "コンテンツ生成中にエラーが発生しました: " ++ errorMessage))]
  | None => []
  end.

(** The frames from [variation_info] up to, and without, the sentinel. *)
Definition generation_frames (w : World) (sc : ScrapedContent)
    (selected_images : SelectedImages) (use_web_search : bool) (varIndex : nat)
  : list Frame :=
  let y := generateLineContentStream (enhanceContentWithWebSearch w) (responses_create w)
             (title sc) selected_images use_web_search varIndex in
  [data (variation_info varIndex 3
           (lit "バリエーション " ++ Number_toString (varIndex + 1) ++ lit "/3 の生成を開始します"));
   data (generation_starting (lit "OpenAIを使用してコンテンツの生成を開始します"))]
  ++ map data (yielded y) ++ generation_error_frames y.

(** The request passes both guards: the request data is a non-empty string
    that parses to [parsedData], and the API key is set. *)
Definition passes_guards (w : World) (req : Request) (parsedData : ParsedData) : Prop :=
  exists requestData key,
    query_requestData req = q_string requestData
    /\ requestData <> []
    /\ JSON_parse w requestData = Normal parsedData
    /\ OPENAI_API_KEY w = Some key
    /\ key <> [].

(** The request is one the handler takes to the generation step: it passes
    the guards, and scraping returns or, when scraping throws, the
    placeholder article can be built: the request names its blog URL and its
    [selected_images] is not [null]. *)
Definition reaches_generation (w : World) (req : Request) : Prop :=
  exists parsedData,
    passes_guards w req parsedData
    /\ ((exists scraped, BlogScraper_scrape w (blog_url parsedData) = Normal scraped)
        \/ ((exists url, blog_url parsedData = Some url)
            /\ selected_images parsedData <> Some images_null)).

(** The request passes the guards, scraping throws, and building the
    placeholder article throws as well: the request has no blog URL, or its
    [selected_images] is [null]. *)
Definition scrape_catch_throws (w : World) (req : Request) : Prop :=
  exists parsedData errorMessage,
    passes_guards w req parsedData
    /\ BlogScraper_scrape w (blog_url parsedData) = Thrown errorMessage
    /\ (blog_url parsedData = None \/ selected_images parsedData = Some images_null).

(** The article the handler generates from, for request data that took it
    to the generation step: what scraping returned, extended when it is
    short, or the placeholder of the scrape [catch] block. *)
Definition generates_from (w : World) (parsedData : ParsedData) (sc : ScrapedContent) : Prop :=
  (exists scraped,
      BlogScraper_scrape w (blog_url parsedData) = Normal scraped
      /\ sc = ensure_enough_content (blog_url parsedData) scraped)
  \/ (exists errorMessage url images,
        BlogScraper_scrape w (blog_url parsedData) = Thrown errorMessage
        /\ blog_url parsedData = Some url
        /\ default (images_array []) (selected_images parsedData) = images_array images
        /\ sc = placeholder_content url images).

(** The request is turned away by a guard or by the parser, before
    [process_start]. *)
Definition turned_away (w : World) (req : Request) : Prop :=
  (forall s, query_requestData req = q_string s -> s = [])
  \/ (exists requestData message,
        query_requestData req = q_string requestData /\ requestData <> []
        /\ JSON_parse w requestData = Thrown message)
  \/ (exists requestData parsedData,
        query_requestData req = q_string requestData /\ requestData <> []
        /\ JSON_parse w requestData = Normal parsedData
        /\ (OPENAI_API_KEY w = None \/ OPENAI_API_KEY w = Some [])).

(** C1 as the specification words it, for the requests the endpoint accepts
    by method. *)
Definition sentinel_on_every_path : Prop :=
  forall w req, method req = GET -> count_DONE (frames (handler w req)) = 1%nat.

(** C7 as the specification words it, for scraped content below the
    threshold. *)
Definition short_content_warns : Prop :=
  forall w req parsedData scraped,
    method req = GET ->
    passes_guards w req parsedData ->
    BlogScraper_scrape w (blog_url parsedData) = Normal scraped ->
    (length (Scraper.content scraped) < minimum_content_length)%nat ->
    existsb is_scraping_warning (frames (handler w req)) = true
    /\ existsb is_scraped_content (frames (handler w req)) = false.

(** C8 as the specification words it. *)
Definition prescraped_not_scraped_again : Prop :=
  forall w req parsedData prescraped,
    method req = GET ->
    passes_guards w req parsedData ->
    scraped_content_field parsedData = Some prescraped ->
    Scraper.content prescraped <> [] ->
    scrape_calls (handler w req) = [].

(** A world in which nothing works: parsing, scraping, the web search and the
    backend all throw, and no API key is set. *)
Definition broken_world : World :=
  {| JSON_parse := fun _ => Thrown (lit "Unexpected token");
     OPENAI_API_KEY := None;
     BlogScraper_scrape := fun _ => Thrown (lit "timeout");
     enhanceContentWithWebSearch := fun _ => Thrown (lit "no search");
     responses_create := fun _ => Thrown (lit "Connection error.") |}.

(** A world with a key and a parser that reads every request as [parsed], in
    which scraping gives [scraped] and the web search and the backend
    connection fail. *)
Definition world_with (parsed : ParsedData) (scraped : Completion ScrapedContent) : World :=
  {| JSON_parse := fun _ => Normal parsed;
     OPENAI_API_KEY := Some (lit "sk-test");
     BlogScraper_scrape := fun _ => scraped;
     enhanceContentWithWebSearch := fun _ => Thrown (lit "no search");
     responses_create := fun _ => Thrown (lit "Connection error.") |}.

Definition example_request : ParsedData :=
  {| blog_url := Some (lit "https://example.com/blog/example-post");
     selected_images := Some (images_array [lit "https://example.com/a.png"]);
     use_web_search := Some false;
     scraped_content_field := None |}.

(** The same request with [selected_images: null]. *)
Definition null_images_request : ParsedData :=
  {| blog_url := Some (lit "https://example.com/blog/example-post");
     selected_images := Some images_null;
     use_web_search := Some false;
     scraped_content_field := None |}.

Definition example_article : ScrapedContent :=
  {| title := lit "Example Post";
     Scraper.content :=
       lit "This article is long enough: it has more than fifty characters of text.";
     images := [lit "https://example.com/a.png"] |}.

Definition short_article : ScrapedContent :=
  {| title := lit "Example Post"; Scraper.content := lit "too short"; images := [] |}.

Definition prescraped_request : ParsedData :=
  {| blog_url := Some (lit "https://example.com/blog/example-post");
     selected_images := Some (images_array []);
     use_web_search := Some false;
     scraped_content_field := Some example_article |}.

Definition get_request (index : nat) : Request :=
  {| method := GET; query_requestData := q_string (lit "{...}");
     query_variationIndex := Some index |}.

Definition get_without_data : Request :=
  {| method := GET; query_requestData := q_undefined; query_variationIndex := Some 0%nat |}.

End RelayProps.

Module ClientProps.
Import Client.

(** The arrays of the component keep their three entries. *)
Definition shape (c : Component) : Prop :=
  length (streamedContents c) = 3%nat
  /\ length (completedVariations c) = 3%nat
  /\ length (variationStates c) = 3%nat
  /\ length (eventSourceRefs c) = 3%nat
  /\ length (accumulatedText c) = 3%nat
  /\ length (closure_streamedContents c) = 3%nat
  /\ length (closure_completedVariations c) = 3%nat.

(** Every stored progress value lies between 0 and 100. *)
Definition bounded (c : Component) : Prop :=
  Forall (fun s => (0 <= progress s)%Q /\ (progress s <= 100)%Q) (variationStates c).

(** The channel of [index], and no other, is open, and no timeout is
    pending. *)
Definition streaming (index : nat) (c : Component) : Prop :=
  (index < 3)%nat
  /\ (forall j, is_open c j = true <-> j = index)
  /\ timeouts c = [].

(** No channel is open and the timeout that runs [generateVariation(k)] is
    pending. *)
Definition settling (k : nat) (c : Component) : Prop :=
  (k <= 3)%nat /\ no_open c /\ timeouts c = [k].

(** The run is over and has delivered one array, built from the array the
    closures hold. *)
Definition delivered (props : Props) (c : Component) : Prop :=
  quiescent c
  /\ isLoading c = false
  /\ callbacks c
     = [onStreamComplete (generatedContents props (closure_streamedContents c))].

(** Where a run without cancellation can be. *)
Definition run_invariant (props : Props) (c : Component) : Prop :=
  shape c
  /\ ((exists index, streaming index c /\ isLoading c = true /\ callbacks c = [])
      \/ (exists k, settling k c /\ isLoading c = true /\ callbacks c = [])
      \/ delivered props c).

(** A channel's messages include one that ends the session. *)
Definition terminating (feed : list MessageData) : Prop :=
  existsb ends_session feed = true.

(** The inputs of the sessions [k], [k+1], ... in turn: the settle timeout
    fires, then the channel delivers its messages. *)
Fixpoint sessions (k : nat) (feeds : list (list MessageData)) : list Input :=
  match feeds with
  | [] => []
  | feed :: rest => TimeoutFires :: map (Message k) feed ++ sessions (S k) rest
  end.

(** A whole request: the first channel's messages, the sessions 1 and 2, and
    the last settle timeout. *)
Definition request_trace (feed0 feed1 feed2 : list MessageData) : list Input :=
  map (Message 0) feed0 ++ sessions 1 [feed1; feed2] ++ [TimeoutFires].

(** C3 as the specification words it: no input lowers a stored progress
    value. *)
Definition progress_never_lowered : Prop :=
  forall (props : Props) (c0 : Component) (trace : list Input) (input : Input)
         (index : nat),
    ready c0 ->
    (progress_of (run props (effect props c0) trace) index
     <= progress_of (step props (run props (effect props c0) trace) input) index)%Q.

Definition example_props : Props :=
  {| scrapedContent_title := Some (lit "Example Post");
     selectedImages := [lit "https://example.com/a.png"];
     apiRequest_blog_url := Some (lit "https://example.com/blog/example-post") |}.

Definition ev_generation_starting : MessageData :=
  msg_event (Wire.generation_starting (lit "OpenAIを使用してコンテンツの生成を開始します")).

Definition ev_variation_info : MessageData :=
  msg_event (Wire.variation_info 0 3 (lit "バリエーション 1/3 を生成中...")).

Definition ev_delta (text : string) : MessageData :=
  msg_event (Wire.backend (Wire.response_output_text_delta (lit text))).

Definition ev_error : MessageData :=
  msg_event (Wire.error (lit "コンテンツ生成中にエラーが発生しました: Connection error.")).

End ClientProps.

(* ===================================================================== *)
(** * More of the content generator *)
(* ===================================================================== *)

Module GeneratorMore.
Import Wire Markdown Generator.

(** ** generateLineContent, Chat Completions revision (content-generator.ts) *)

(** The backend as that loop sees it: for loop index [i], the
    [choices[0].message.content] of the answer ([None] for [null]), or the
    error thrown. *)
Definition ChatBackend := nat -> Completion (option JSString).

Definition generation_failed (message : JSString) : JSString :=
  lit "OpenAI APIでのコンテンツ生成に失敗しました: " ++ message.

(** The loop [for (let i = 0; i < 3; i++)] with [todo] iterations left; the
    body never changes [i]. *)
Fixpoint chat_variations (todo : nat) (create : ChatBackend)
    (selected_images : list JSString) (blog_url : option JSString)
    (i : nat) (variations : list GeneratedContent)
  : Completion (list GeneratedContent) :=
  match todo with
  | O => Normal variations
  | S todo' =>
    match create i with
    | Thrown message => Thrown (generation_failed message)
    | Normal answer =>
      let content := or_default answer [] in
      let markdown := _formatAsMarkdown content (Some selected_images) blog_url in
      chat_variations todo' create selected_images blog_url (S i)
        (variations ++ [{| content := content; markdown := markdown |}])
    end
  end.

Definition generateLineContent_chat (create : ChatBackend)
    (selected_images : list JSString) (blog_url : option JSString)
  : Completion (list GeneratedContent) :=
  chat_variations 3 create selected_images blog_url 0 [].

(** ** generateAllVariationsWithStreaming *)






(** ** Vocabulary *)


(** The text is not blank: something is left after trimming. *)
Definition nonblank (s : JSString) : Prop := trim s <> [].




(** A backend that answers blank to the calls before [e] and [text] from
    call [e] on. *)
Definition blank_then_text (e : nat) (text : JSString) : Backend :=
  fun calls _ =>
    if (calls <? e)%nat then Normal {| output := [item_message assistant []] |}
    else Normal {| output := [item_message assistant [output_text text]] |}.

(** ** The text of a response *)

(** The text of the first [output_text] part, if there is one. *)
Fixpoint first_text (parts : list ContentPart) : option JSString :=
  match parts with
  | [] => None
  | output_text text :: _ => Some text
  | other_part :: rest => first_text rest
  end.

(** For each assistant message that has an [output_text] part, the text of
    its first such part, in the order of [response.output]. *)
Definition assistant_texts (items : list OutputItem) : list JSString :=
  omap (fun item =>
          match item with
          | item_message assistant parts => first_text parts
          | _ => None
          end)
       items.

End GeneratorMore.

(* ===================================================================== *)
(** * The web search client and the prompt's web search section *)
(* ===================================================================== *)

Module WebSearch.

(** The object [{summary, citations}]. *)
Record Summary := {
  summary : JSString;
  citations : list JSString
}.

(** What [searchRelatedInfo] returns: [{search_results: {summary, citations}}]
    when the call went through, [{error, summary, citations}] from its
    [catch]. *)
Inductive SearchResult :=
| found (search_results : Summary)
| failed (error : JSString) (summary : JSString) (citations : list JSString).

(** [WebSearchClient.searchRelatedInfo]; [create] is the outcome of the chat
    completion call, by its [choices[0].message.content]. *)
Definition searchRelatedInfo (create : Completion (option JSString)) : SearchResult :=
  match create with
  | Normal content =>
    found {| summary := or_default content []; citations := [] |}
  | Thrown message => failed message [] []
  end.

(** The object [{topic, search_results}]. *)
Record WebSearchInfo := {
  topic : JSString;
  info_search_results : SearchResult
}.

(** [WebSearchClient.enhanceContentWithWebSearch]; [create] answers the
    search query. *)
Definition enhanceContentWithWebSearch (create : JSString -> Completion (option JSString))
    (company_name topic : JSString) : WebSearchInfo :=
  let searchQuery := company_name ++ lit " " ++ topic in
  let searchResults := searchRelatedInfo (create searchQuery) in
  {| topic := topic; info_search_results := searchResults |}.

(** The property [summary] of a search result object: [undefined] on the
    object that nests its summary under [search_results]. *)
Definition get_summary (r : SearchResult) : option JSString :=
  match r with
  | found _ => None
  | failed _ s _ => Some s
  end.

Definition web_search_section_text (s : JSString) : JSString :=
  LF ++ lit "      # Web検索で収集した追加情報" ++ LF
  ++ lit "      " ++ LF
  ++ lit "      " ++ s ++ LF
  ++ lit "      " ++ LF
  ++ lit "      この情報を適切に利用して、記事の内容を充実させてください。ただし、過度に専門的になりすぎず、LINE配信の読みやすさを保ってください。" ++ LF
  ++ lit "      ".

(** The [web_search_section] of [ContentGenerator._buildPrompt];
    [web_search_info] is [None] for the empty object the callers start
    with. *)
Definition web_search_section (web_search_info : option WebSearchInfo) : JSString :=
  match web_search_info with
  | Some info =>
    match get_summary (info_search_results info) with
    | Some s => if truthy s then web_search_section_text s else []
    | None => []
    end
  | None => []
  end.

(** The [web_search_info] that [generateLineContent] and
    [generateLineContentStream] hand to [_buildPrompt]. *)
Definition web_search_info_for_prompt (use_web_search : bool)
    (create : JSString -> Completion (option JSString))
    (company_name scraped_title : JSString) : option WebSearchInfo :=
  if use_web_search
  then Some (enhanceContentWithWebSearch create company_name scraped_title)
  else None.

End WebSearch.

(* ===================================================================== *)
(** * The POST endpoint /api/generate-line-content *)
(* ===================================================================== *)

Module PostHandler.
Import Scraper Generator.

(** The article a request body may carry in [scraped_content].  [title] and
    [content] are strings, the empty string standing for a missing one, which
    is as falsy; [images] is [None] when the object lacks the property, and
    otherwise [null] or an array; [_originalUrl] is there when the article
    is one that this endpoint returned earlier.  The handler passes the
    object on as it is.  Values of other JSON types are outside the
    embedding. *)
Record GivenArticle := {
  given_title : JSString;
  given_content : JSString;
  given_images : option SelectedImages;
  given_originalUrl : option JSString
}.

(** [req.body], by the fields the handler touches; a field is [None] when
    the body lacks it.  [selected_images] may be [null], which the
    destructuring default does not replace; [use_web_search] and [stream]
    are [Some b] for a value that is present, with truthiness [b]. *)
Record Body := {
  blog_url : option JSString;
  selected_images : option SelectedImages;
  use_web_search : option bool;
  stream : option bool;
  scraped_content : option GivenArticle
}.

(** [req.body] as the body parser leaves it: an object, or JSON [null],
    which the destructuring pattern cannot take.  A body of another kind (a
    string, a number) destructures to fields that are all [undefined]: it is
    the object whose fields are all [None]. *)
Inductive RequestBody :=
| body_null
| body_object (fields : Body).

(** Everything outside the handler: the environment variable, the scraper,
    [ContentGenerator.generateLineContent] by its outcome, and the message
    of the [TypeError] with which the engine refuses to destructure [null]
    (its wording depends on the engine and on the compiled pattern). *)
Record World := {
  OPENAI_API_KEY : option JSString;
  BlogScraper_scrape : option JSString -> Completion ScrapedContent;
  generateLineContent :
    ScrapedContent -> list JSString -> bool -> Completion (list GeneratedContent);
  destructuring_null : JSString
}.

(** The article the handler goes on with and its [_originalUrl]: the one a
    given article came with, or the one the handler sets on a freshly
    scraped article, which is the request's [blog_url], be it [undefined]. *)
Record Article := {
  article : ScrapedContent;
  _originalUrl : option (option JSString)
}.

(** The query of the redirect to the streaming endpoint:
    [{...lineRequest, selected_images, use_web_search, scraped_content}]. *)
Record RedirectData := {
  rd_blog_url : option JSString;
  rd_selected_images : list JSString;
  rd_use_web_search : bool;
  rd_scraped_content : Article
}.

Inductive Reply :=
| method_not_allowed                                        (* 405 {error} *)
| detail (status : nat) (message : JSString)                (* status, {detail} *)
| response (scraped : Article) (generated_options : list GeneratedContent)  (* 200 *)
| redirect (requestData : RedirectData).

(** One call of [generateLineContent], by its arguments. *)
Record GenerateCall := {
  g_scraped_content : ScrapedContent;
  g_selected_images : list JSString;
  g_use_web_search : bool
}.

Record Outcome := {
  reply : Reply;
  scrape_calls : list (option JSString);
  generate_calls : list GenerateCall
}.

(** The message of the [TypeError] that reading [.length] of [undefined]
    raises (the wording of V8). *)
Definition length_of_undefined : JSString :=
  lit "Cannot read properties of undefined (reading 'length')".

(** The reply of the outer [catch]. *)
Definition generation_failed (errorMessage : JSString) : Reply :=
  detail 500 (lit "LINE配信コンテンツの生成に失敗しました: " ++ errorMessage).

(** [existing && existing.title && existing.content]. *)
Definition usable (existing : option GivenArticle) : option GivenArticle :=
  match existing with
  | Some e => if truthy (given_title e) && truthy (given_content e) then Some e else None
  | None => None
  end.

(** [scraped_content.images.length] in the log line behind the scraping
    step, for an article that came with the request. *)
Definition images_length (e : GivenArticle) : Completion (list JSString) :=
  match given_images e with
  | Some (images_array images) => Normal images
  | Some images_null => Thrown length_of_null
  | None => Thrown length_of_undefined
  end.

(** A given article with its images array, as the handler goes on with
    it. *)
Definition given (existing : GivenArticle) (images : list JSString) : Article :=
  {| article := {| title := given_title existing;
                   Scraper.content := given_content existing;
                   images := images |};
     _originalUrl := Some <$> given_originalUrl existing |}.

(** The handler from the point where the article is known and the log line
    has been written. *)
Definition respond (w : World) (body : Body) (selected_images : list JSString)
    (scraped : Article) (scrape_calls : list (option JSString)) : Outcome :=
  let use_web_search := default true (use_web_search body) in
  let stream := default false (stream body) in
  if stream then
    {| reply := redirect {| rd_blog_url := blog_url body;
                            rd_selected_images := selected_images;
                            rd_use_web_search := use_web_search;
                            rd_scraped_content := scraped |};
       scrape_calls := scrape_calls;
       generate_calls := [] |}
  else
    let call := {| g_scraped_content := article scraped;
                   g_selected_images := selected_images;
                   g_use_web_search := use_web_search |} in
    match generateLineContent w (article scraped) selected_images use_web_search with
    | Normal generated_options =>
      {| reply := response scraped generated_options;
         scrape_calls := scrape_calls; generate_calls := [call] |}
    | Thrown errorMessage =>
      {| reply := generation_failed errorMessage;
         scrape_calls := scrape_calls; generate_calls := [call] |}
    end.

(** The handler of /api/generate-line-content (the revision with [stream]
    and [scraped_content]).  The destructuring of the body, the first log
    line, which reads [selected_images.length], and the one behind the
    scraping step, which reads [scraped_content.images.length], may each
    raise a [TypeError], which goes to the outer [catch]. *)
Definition handler (w : World) (method : Relay.Method) (requestData : RequestBody)
  : Outcome :=
  match method with
  | Relay.POST =>
    if truthy (default [] (OPENAI_API_KEY w)) then
      match requestData with
      | body_null =>
        {| reply := generation_failed (destructuring_null w);
           scrape_calls := []; generate_calls := [] |}
      | body_object body =>
        match default (images_array []) (selected_images body) with
        | images_null =>
          {| reply := generation_failed length_of_null;
             scrape_calls := []; generate_calls := [] |}
        | images_array selected_images =>
          match usable (scraped_content body) with
          | Some existing =>
            match images_length existing with
            | Normal images =>
              respond w body selected_images (given existing images) []
            | Thrown errorMessage =>
              {| reply := generation_failed errorMessage;
                 scrape_calls := []; generate_calls := [] |}
            end
          | None =>
            match BlogScraper_scrape w (blog_url body) with
            | Normal scraped =>
              respond w body selected_images
                {| article := scraped; _originalUrl := Some (blog_url body) |}
                [blog_url body]
            | Thrown errorMessage =>
              {| reply := detail 500
                            (lit "記事のスクレイピングに失敗しました: " ++ errorMessage);
                 scrape_calls := [blog_url body]; generate_calls := [] |}
            end
          end
        end
      end
    else
      {| reply := detail 500
                    (lit "OPENAI_API_KEYが設定されていません。環境変数を確認してください。");
         scrape_calls := []; generate_calls := [] |}
  | _ => {| reply := method_not_allowed; scrape_calls := []; generate_calls := [] |}
  end.

(** The request with the body object [body] is served: a POST with the API
    key set and [selected_images] not [null]. *)
Definition served (w : World) (method : Relay.Method) (body : Body) : Prop :=
  method = Relay.POST
  /\ truthy (default [] (OPENAI_API_KEY w)) = true
  /\ selected_images body <> Some images_null.

(** The article the handler works with, if it gets one: the usable article
    of the request, which must hold an images array, or else what scraping
    the request's URL returns. *)
Definition working_article (w : World) (body : Body) (a : Article) : Prop :=
  (exists existing images,
      usable (scraped_content body) = Some existing
      /\ given_images existing = Some (images_array images)
      /\ a = given existing images)
  \/ (usable (scraped_content body) = None
      /\ exists scraped,
           BlogScraper_scrape w (blog_url body) = Normal scraped
           /\ a = {| article := scraped; _originalUrl := Some (blog_url body) |}).

(** The array [selected_images] of a request that is served. *)
Definition selected_list (body : Body) : list JSString :=
  match default (images_array []) (selected_images body) with
  | images_array selected_images => selected_images
  | images_null => []
  end.

End PostHandler.

(* ===================================================================== *)
(** * The endpoint /api/scrape *)
(* ===================================================================== *)

Module ScrapeApi.
Import Scraper.

(** [req.body] as the body parser leaves it: JSON [null], which
    [const { url } = req.body] cannot take, or an object, by its [url]
    ([None] when it has none; a body of another kind has none either). *)
Inductive RequestBody :=
| body_null
| body_object (url : option JSString).

(** [new URL(url)] accepts the text, what the scraper does with it, and the
    message of the [TypeError] with which the engine refuses to destructure
    [null]. *)
Record World := {
  URL_valid : JSString -> bool;
  BlogScraper_scrape : JSString -> Completion ScrapedContent;
  destructuring_null : JSString
}.

Inductive Reply :=
| method_not_allowed                              (* 405 {error} *)
| detail (status : nat) (message : JSString)      (* status, {detail} *)
| scraped (content : ScrapedContent).             (* 200 *)

Record Outcome := {
  reply : Reply;
  scrape_calls : list JSString
}.

(** The reply of the outer [catch]. *)
Definition scraping_failed (errorMessage : JSString) : Reply :=
  detail 500 (lit "ブログ記事のスクレイピングに失敗しました: " ++ errorMessage).

(** The handler.  The destructuring is inside the [try] block, so the
    [TypeError] for a [null] body is answered by the outer [catch]. *)
Definition handler (w : World) (method : Relay.Method) (body : RequestBody) : Outcome :=
  match method with
  | Relay.POST =>
    match body with
    | body_null =>
      {| reply := scraping_failed (destructuring_null w); scrape_calls := [] |}
    | body_object (Some ((_ :: _) as url)) =>
      if URL_valid w url then
        match BlogScraper_scrape w url with
        | Normal content => {| reply := scraped content; scrape_calls := [url] |}
        | Thrown errorMessage =>
          {| reply := scraping_failed errorMessage; scrape_calls := [url] |}
        end
      else {| reply := detail 422 (lit "有効なURLを入力してください"); scrape_calls := [] |}
    | body_object _ =>
      {| reply := detail 400 (lit "URLが指定されていません"); scrape_calls := [] |}
    end
  | _ => {| reply := method_not_allowed; scrape_calls := [] |}
  end.

End ScrapeApi.

(* ===================================================================== *)
(** * The API client's retry interceptor *)
(* ===================================================================== *)

Module ApiClient.

Definition MAX_RETRIES : nat := 2.
Definition RETRY_DELAY : nat := 1000.

(** An [AxiosError], by what the interceptor reads: its message and code, the
    status of the response if one came, and whether it carries the request's
    config. *)
Record AxiosError := {
  message : JSString;
  code : option JSString;
  response_status : option nat;
  has_config : bool
}.

(** What the transport does with one sending of the request. *)
Inductive Answer :=
| Fulfilled (status : nat)
| Failed (e : AxiosError).

Definition shouldRetry (e : AxiosError) : bool :=
  bool_decide (message e = lit "Network Error")
  || bool_decide (code e = Some (lit "ECONNABORTED"))
  || match response_status e with
     | Some status => (500 <=? status)%nat && (status <? 600)%nat
     | None => false
     end.

(** How a request ends: the promise's result, the number of sendings and the
    delays waited in between, in milliseconds. *)
Inductive Settled :=
| Resolved (status : nat)
| Rejected (e : AxiosError).

Record Outcome := {
  settled : Settled;
  sendings : nat;
  delays : list nat
}.

(** A request under the response interceptor.  [answer n] is what the
    transport does with sending number [n]; [_retry] is the counter the
    interceptor keeps on the request's config, which travels with every
    re-sending; [fuel] bounds the number of sendings looked at. *)
Fixpoint send (fuel : nat) (answer : nat -> Answer) (n _retry : nat)
    (waited : list nat) : option Outcome :=
  match fuel with
  | O => None
  | S fuel' =>
    match answer n with
    | Fulfilled status =>
      Some {| settled := Resolved status; sendings := S n; delays := waited |}
    | Failed e =>
      if negb (has_config e) then
        Some {| settled := Rejected e; sendings := S n; delays := waited |}
      else if shouldRetry e && (_retry <? MAX_RETRIES)%nat then
        let _retry := S _retry in
        let delay := (RETRY_DELAY * _retry)%nat in
        send fuel' answer (S n) _retry (waited ++ [delay])
      else
        Some {| settled := Rejected e; sendings := S n; delays := waited |}
    end
  end.

(** A request from its first sending. *)
Definition request (fuel : nat) (answer : nat -> Answer) : option Outcome :=
  send fuel answer 0 0 [].

End ApiClient.

(* ===================================================================== *)
(** * The scraper's image extraction *)
(* ===================================================================== *)

Module ScraperImages.

(** An [img] element, by the attributes the scraper reads. *)
Record Img := {
  src : option JSString;
  data_src : option JSString;
  data_lazy_src : option JSString
}.

(** [a || b] on attribute values. *)
Definition attr_or (a b : option JSString) : option JSString :=
  match a with
  | Some s => if truthy s then Some s else b
  | None => b
  end.

(** [images.indexOf(url)], from position [i] on; [None] is -1. *)
Fixpoint indexOf_from (images : list JSString) (url : JSString) (i : nat) : option nat :=
  match images with
  | [] => None
  | u :: rest => if decide (u = url) then Some i else indexOf_from rest url (S i)
  end.

Definition indexOf (images : list JSString) (url : JSString) : option nat :=
  indexOf_from images url 0.

(** [Array.prototype.filter] with the callback's index argument. *)
Fixpoint filter_index (keep : JSString -> nat -> bool) (l : list JSString) (index : nat)
  : list JSString :=
  match l with
  | [] => []
  | x :: rest =>
    if keep x index then x :: filter_index keep rest (S index)
    else filter_index keep rest (S index)
  end.

(** [images.filter((url, index) => images.indexOf(url) === index)]. *)
Definition unique (images : list JSString) : list JSString :=
  filter_index (fun url index => bool_decide (indexOf images url = Some index)) images 0.

(** ASCII lower case, the case folding of the [i] flag on these letters. *)
Definition lower (c : N) : N :=
  if ((65 <=? c) && (c <=? 90))%N then (c + 32)%N else c.

(** [s] starts with [p], letters compared without case. *)
Fixpoint starts_with_ci (p s : JSString) : option JSString :=
  match p, s with
  | [], _ => Some s
  | _ :: _, [] => None
  | a :: p', b :: s' => if (lower a =? lower b)%N then starts_with_ci p' s' else None
  end.

(** After the extension comes the end of the text or a question mark. *)
Definition end_or_query (s : JSString) : bool :=
  match s with
  | [] => true
  | c :: _ => (c =? 63)%N
  end.

Definition extension_here (s : JSString) : bool :=
  existsb (fun ext => match starts_with_ci ext s with
                      | Some rest => end_or_query rest
                      | None => false
                      end)
          [lit ".jpg"; lit ".jpeg"; lit ".png"; lit ".webp"].

(** [fullUrl.match(/\.(jpe?g|png|webp)($|\?)/i)] finds a match. *)
Fixpoint matches_image_extension (s : JSString) : bool :=
  extension_here s
  || match s with
     | [] => false
     | _ :: rest => matches_image_extension rest
     end.

Definition startsWith (s p : JSString) : bool :=
  bool_decide (take (length p) s = p).

(** The test of the second revision before [images.push(fullUrl)]. *)
Definition accepted (fullUrl : JSString) : bool :=
  matches_image_extension fullUrl && negb (startsWith fullUrl (lit "data:")).

Section WithResolver.
(** [new URL(src, this.url).href], [None] when the constructor throws. *)
Variable resolve : JSString -> option JSString.

(** One pass of [.each] over [img] elements, second revision. *)
Fixpoint collect (imgs : list Img) (images : list JSString) : list JSString :=
  match imgs with
  | [] => images
  | img :: rest =>
    match attr_or (src img) (attr_or (data_src img) (data_lazy_src img)) with
    | Some s =>
      if truthy s then
        match resolve s with
        | Some fullUrl =>
          if accepted fullUrl then collect rest (images ++ [fullUrl])
          else collect rest images
        | None => collect rest images
        end
      else collect rest images
    | None => collect rest images
    end
  end.

(** [BlogScraper._extractImages], second revision: the images of the content
    element, those of the whole page when there is none, duplicates
    removed. *)
Definition _extractImages (content_imgs page_imgs : list Img) : list JSString :=
  let images := collect content_imgs [] in
  let images := if (length images =? 0)%nat then collect page_imgs images else images in
  unique images.

(** One pass of [.each], first revision: [src || data-src], every resolved
    URL is taken. *)
Fixpoint collect_v1 (imgs : list Img) (images : list JSString) : list JSString :=
  match imgs with
  | [] => images
  | img :: rest =>
    match attr_or (src img) (data_src img) with
    | Some s =>
      if truthy s then
        match resolve s with
        | Some fullUrl => collect_v1 rest (images ++ [fullUrl])
        | None => collect_v1 rest images
        end
      else collect_v1 rest images
    | None => collect_v1 rest images
    end
  end.

Definition _extractImages_v1 (content_imgs page_imgs : list Img) : list JSString :=
  let images := collect_v1 content_imgs [] in
  let images := if (length images =? 0)%nat then collect_v1 page_imgs images else images in
  unique images.

(** The URLs one pass of the second revision can contribute: the resolved
    non-empty sources, in order. *)
Definition sources_of (imgs : list Img) : list JSString :=
  omap (fun img =>
          s ← attr_or (src img) (attr_or (data_src img) (data_lazy_src img));
          if truthy s then resolve s else None)
       imgs.

(** The same for the first revision, which reads [src] and [data-src]. *)
Definition sources_of_v1 (imgs : list Img) : list JSString :=
  omap (fun img =>
          s ← attr_or (src img) (data_src img);
          if truthy s then resolve s else None)
       imgs.

End WithResolver.

(** The elements of [suf] not seen in [pre] or earlier in [suf], in order. *)
Fixpoint first_occurrences (pre suf : list JSString) : list JSString :=
  match suf with
  | [] => []
  | x :: rest =>
    if decide (x ∈ pre) then first_occurrences (pre ++ [x]) rest
    else x :: first_occurrences (pre ++ [x]) rest
  end.

End ScraperImages.

(* ===================================================================== *)
(** * More vocabulary for the client and its channel *)
(* ===================================================================== *)

Module ClientMore.
Import Client ClientProps.

(** [event.data] of a frame the relay wrote, as the client's
    [onmessage] reads it: the sentinel line, or the JSON text of the event,
    which [JSON.parse] gives back. *)
Definition message_of_frame (f : Wire.Frame) : MessageData :=
  match f with
  | Wire.data e => msg_event e
  | Wire.DONE => msg_DONE
  end.

Definition is_error_frame (f : Wire.Frame) : bool :=
  match f with Wire.data (Wire.error _) => true | _ => false end.

(** What the channel of one relay invocation delivers. *)
Definition relay_feed (w : Relay.World) (req : Relay.Request) : list MessageData :=
  map message_of_frame (Relay.frames (Relay.handler w req)).



(** [const allCompleted = completedVariations.every(Boolean)]. *)
Definition allCompleted (c : Component) : bool :=
  forallb id (completedVariations c).

(** An entry of [variationStates] as a finished session leaves it, and as
    the effect sets it. *)
Definition settled_entry (s : VariationState) : Prop :=
  s = {| status := Complete; progress := 100 |}
  \/ s = {| status := Error; progress := 0 |}.

Definition pending_entry (s : VariationState) : Prop :=
  s = {| status := Pending; progress := 0 |}.

(** The entries before [k] are settled and those after [k] have not been
    started; the entry [k] itself is being loaded, or has not been started
    either. *)
Definition ordered (k : nat) (loading : bool) (c : Component) : Prop :=
  forall j s,
    variationStates c !! j = Some s ->
    ((j < k)%nat -> settled_entry s)
    /\ (j = k -> if loading then status s = Loading else pending_entry s)
    /\ ((k < j)%nat -> pending_entry s).

(** Where a run is, with the state of the entries: a session is open, or the
    next one is about to start, or all is over. *)
Definition in_order (c : Component) : Prop :=
  (exists index, streaming index c /\ ordered index true c)
  \/ (exists k, settling k c /\ ordered k false c)
  \/ (quiescent c /\ ordered 3 false c).

(** At most one entry of the array is [true]. *)
Definition at_most_one_completed (completed : list bool) : Prop :=
  (length (List.filter id completed) <= 1)%nat.

Definition is_variation_complete (f : Wire.Frame) : bool :=
  match f with Wire.data (Wire.variation_complete _ _) => true | _ => false end.

(** A relay invocation in which the article is scraped and the backend
    streams a short text. *)
Definition backend_up : Relay.World :=
  {| Relay.JSON_parse := fun _ => Normal RelayProps.example_request;
     Relay.OPENAI_API_KEY := Some (lit "sk-test");
     Relay.BlogScraper_scrape := fun _ => Normal RelayProps.example_article;
     Relay.enhanceContentWithWebSearch := fun _ => Normal tt;
     Relay.responses_create := fun _ =>
       Normal {| Generator.events :=
                   [Wire.backend Wire.response_created;
                    Wire.backend (Wire.response_output_text_delta (lit "Hello"));
                    Wire.backend Wire.response_output_text_done];
                 Generator.failure := None |} |}.

(** A relay invocation in which the article is scraped and the connection
    to the backend fails. *)
Definition backend_down : Relay.World :=
  RelayProps.world_with RelayProps.example_request (Normal RelayProps.example_article).

(** A relay invocation in which the backend's stream itself delivers an
    event of type ['error'] after the first text. *)
Definition backend_reports_error : Relay.World :=
  {| Relay.JSON_parse := fun _ => Normal RelayProps.example_request;
     Relay.OPENAI_API_KEY := Some (lit "sk-test");
     Relay.BlogScraper_scrape := fun _ => Normal RelayProps.example_article;
     Relay.enhanceContentWithWebSearch := fun _ => Normal tt;
     Relay.responses_create := fun _ =>
       Normal {| Generator.events :=
                   [Wire.backend Wire.response_created;
                    Wire.backend (Wire.response_output_text_delta (lit "Hel"));
                    Wire.error (lit "rate limit exceeded")];
                 Generator.failure := None |} |}.

End ClientMore.
(* ===================================================================== *)
(** * Sanity checks of the string layer *)
(* ===================================================================== *)

Example lit_unknown_title :
  lit "タイトル不明" = [12479; 12452; 12488; 12523; 19981; 26126]%N.
Proof. reflexivity. Qed.

Example trim_example : trim (lit "  a b ") = lit "a b".
Proof. reflexivity. Qed.

Example Number_toString_12 : Number_toString 12 = lit "12".
Proof. reflexivity. Qed.

Example split_slash_pop_example :
  split_slash_pop (lit "https://example.com/blog/post-1") [] = lit "post-1".
Proof. reflexivity. Qed.

(* ===================================================================== *)
(** * Properties of the formatting and of the title extraction *)
(* ===================================================================== *)

Section MarkdownFacts.
Import Markdown.

Lemma append_images_spec (images : list JSString) :
  forall i markdown,
    append_images images i markdown
    = markdown ++ concat (imap (fun k => image_reference (i + k)) images).
Proof.
  induction images as [|image rest IH]; intros i markdown.
  - cbn [append_images imap concat]. by rewrite app_nil_r.
  - cbn [append_images]. rewrite IH, <- app_assoc. f_equal.
    rewrite imap_cons. cbn [concat]. rewrite Nat.add_0_r. f_equal. f_equal.
    apply imap_ext. intros k x _. cbn [compose]. f_equal. lia.
Qed.

(** Counterexample to C9 as stated: the empty string given as source URL is
    falsy, and both formatters leave the link out. *)
Lemma formatAsMarkdown_empty_url_no_link :
  formatAsMarkdown (lit "Hello") (Some []) (Some []) = lit "Hello"
  /\ _formatAsMarkdown (lit "Hello") (Some []) (Some []) = lit "Hello"
  /\ formatAsMarkdown (lit "Hello") (Some []) (Some [])
     <> lit "Hello" ++ LF ++ LF ++ lit "[詳細を見る](" ++ [] ++ lit ")"
  /\ ~ link_whenever_provided.
Proof.
  split; [reflexivity|]. split; [reflexivity|]. split; [by vm_compute|].
  intros H. specialize (H (lit "Hello") [] []). by vm_compute in H.
Qed.

(** C9 (amended). For every content [c], selected images [imgs] and optional
    source URL [u], both formatters return [c], followed by one image
    reference per element of [imgs] in selection order, numbered from 1,
    followed by the link to [u] when [u] is given and is not the empty
    string.  With an absent or empty [u] nothing follows the references, and
    with no image and such a [u] the markdown is [c] itself; absent images
    count as none. *)
Theorem formatAsMarkdown_content_images_link (c : JSString) (imgs : list JSString)
    (u : option JSString) :
  let references :=
    concat (imap (fun i img =>
                    LF ++ LF ++ lit "![記事画像 " ++ Number_toString (i + 1)
                       ++ lit "](" ++ img ++ lit ")") imgs) in
  let link :=
    match u with
    | Some (k :: url) => LF ++ LF ++ lit "[詳細を見る](" ++ (k :: url) ++ lit ")"
    | Some [] | None => []
    end in
  formatAsMarkdown c (Some imgs) u = c ++ references ++ link
  /\ _formatAsMarkdown c (Some imgs) u = c ++ references ++ link
  /\ (forall url, url <> [] ->
        formatAsMarkdown c (Some imgs) (Some url)
        = c ++ references ++ LF ++ LF ++ lit "[詳細を見る](" ++ url ++ lit ")")
  /\ (forall url, url <> [] ->
        _formatAsMarkdown c (Some imgs) (Some url)
        = c ++ references ++ LF ++ LF ++ lit "[詳細を見る](" ++ url ++ lit ")")
  /\ formatAsMarkdown c (Some imgs) (Some []) = c ++ references
  /\ formatAsMarkdown c (Some imgs) None = c ++ references
  /\ formatAsMarkdown c None u = c ++ link
  /\ _formatAsMarkdown c None u = c ++ link
  /\ formatAsMarkdown c (Some []) None = c
  /\ formatAsMarkdown c (Some []) (Some []) = c
  /\ formatAsMarkdown c None None = c
  /\ _formatAsMarkdown c (Some []) None = c
  /\ _formatAsMarkdown c (Some []) (Some []) = c.
Proof.
  cbn zeta.
  assert (Hmain : forall images v,
            formatAsMarkdown c images v
            = c ++ concat (imap (fun i img =>
                                   LF ++ LF ++ lit "![記事画像 " ++ Number_toString (i + 1)
                                      ++ lit "](" ++ img ++ lit ")") (default [] images))
                ++ match v with
                   | Some (k :: url) =>
                     LF ++ LF ++ lit "[詳細を見る](" ++ (k :: url) ++ lit ")"
                   | Some [] | None => []
                   end).
  { intros images v. unfold formatAsMarkdown. rewrite append_images_spec.
    cbn [Nat.add]. unfold image_reference, source_link.
    destruct v as [[|k url]|]; cbn [truthy].
    - by rewrite app_nil_r.
    - by rewrite <- app_assoc.
    - by rewrite app_nil_r. }
  change _formatAsMarkdown with formatAsMarkdown.
  split_and!; try apply Hmain.
  - intros url Hne. rewrite Hmain. cbn [from_option id]. by destruct url.
  - intros url Hne. rewrite Hmain. cbn [from_option id]. by destruct url.
  - rewrite Hmain. cbn [from_option id]. by rewrite app_nil_r.
  - rewrite Hmain. cbn [from_option id]. by rewrite app_nil_r.
  - rewrite Hmain. cbn [from_option id imap concat]. by rewrite app_nil_r.
  - rewrite Hmain. cbn [from_option id imap concat]. by rewrite app_nil_r.
  - rewrite Hmain. cbn [from_option id imap concat]. by rewrite app_nil_r.
  - rewrite Hmain. cbn [from_option id imap concat]. by rewrite app_nil_r.
  - rewrite Hmain. cbn [from_option id imap concat]. by rewrite app_nil_r.
Qed.

Example formatAsMarkdown_two_images :
  formatAsMarkdown (lit "Hello") (Some [lit "a.png"; lit "b.png"]) (Some (lit "https://x.jp/p"))
  = lit "Hello" ++ LF ++ LF ++ lit "![記事画像 1](a.png)"
    ++ LF ++ LF ++ lit "![記事画像 2](b.png)"
    ++ LF ++ LF ++ lit "[詳細を見る](https://x.jp/p)".
Proof. vm_compute. reflexivity. Qed.

(** C9 (amended) at one image and a source URL. *)
Lemma formatAsMarkdown_content_images_link_witness :
  lit "https://x.jp/p" <> []
  /\ formatAsMarkdown (lit "Hello") (Some [lit "a.png"]) (Some (lit "https://x.jp/p"))
     = lit "Hello"
       ++ concat (imap (fun i img =>
                          LF ++ LF ++ lit "![記事画像 " ++ Number_toString (i + 1)
                             ++ lit "](" ++ img ++ lit ")") [lit "a.png"])
       ++ LF ++ LF ++ lit "[詳細を見る](" ++ lit "https://x.jp/p" ++ lit ")".
Proof.
  split; [discriminate|].
  refine (proj1 (proj2 (proj2
            (formatAsMarkdown_content_images_link (lit "Hello") [lit "a.png"] None)))
            (lit "https://x.jp/p") _).
  discriminate.
Defined.

End MarkdownFacts.

Section ScraperFacts.
Import Scraper.

Lemma truthy_nonempty (s : JSString) : truthy s = true <-> s <> [].
Proof. destruct s; simpl; split; congruence. Qed.

Lemma unknown_title_nonempty : unknown_title <> [].
Proof. discriminate. Qed.

Lemma _extractTitle_first_nonempty (doc : CheerioAPI) :
  _extractTitle doc
  = first_nonempty [h1_first_text doc; title_class_first_text doc; title_tag_text doc]
      unknown_title.
Proof.
  unfold _extractTitle, first_nonempty. simpl map.
  rewrite !filter_cons, filter_nil.
  destruct (truthy (trim (h1_first_text doc))) eqn:E1;
    destruct (truthy (trim (title_class_first_text doc))) eqn:E2;
    destruct (truthy (trim (title_tag_text doc))) eqn:E3;
    repeat (case_decide; try congruence); reflexivity.
Qed.

Lemma _extractTitle_nonempty (doc : CheerioAPI) : _extractTitle doc <> [].
Proof.
  unfold _extractTitle.
  destruct (truthy (trim (h1_first_text doc))) eqn:E1; [by apply truthy_nonempty|].
  destruct (truthy (trim (title_class_first_text doc))) eqn:E2; [by apply truthy_nonempty|].
  destruct (truthy (trim (title_tag_text doc))) eqn:E3; [by apply truthy_nonempty|].
  apply unknown_title_nonempty.
Qed.

(** C10. The title extraction returns a non-empty string: the first non-empty
    of the trimmed h1 text, title-class text and <title> text, and otherwise
    the literal fallback; so every article that [scrape] builds from a fetched
    page, in either revision, has a non-empty title. *)
Theorem extractTitle_nonempty_first_candidate (doc : CheerioAPI) :
  _extractTitle doc <> []
  /\ (0 < length (_extractTitle doc))%nat
  /\ _extractTitle doc
     = first_nonempty [h1_first_text doc; title_class_first_text doc; title_tag_text doc]
         (lit "タイトル不明")
  /\ (trim (h1_first_text doc) <> [] -> _extractTitle doc = trim (h1_first_text doc))
  /\ (trim (h1_first_text doc) = [] -> trim (title_class_first_text doc) <> [] ->
        _extractTitle doc = trim (title_class_first_text doc))
  /\ (trim (h1_first_text doc) = [] -> trim (title_class_first_text doc) = [] ->
        trim (title_tag_text doc) <> [] -> _extractTitle doc = trim (title_tag_text doc))
  /\ (trim (h1_first_text doc) = [] -> trim (title_class_first_text doc) = [] ->
        trim (title_tag_text doc) = [] -> _extractTitle doc = lit "タイトル不明")
  /\ scrape_v1 (Fetched doc) = Normal (scraped_of doc)
  /\ (forall second on_failure, scrape (Fetched doc) second on_failure = Normal (scraped_of doc))
  /\ (forall msg on_failure,
        scrape (Failed msg) (Fetched doc) on_failure = Normal (scraped_of doc))
  /\ title (scraped_of doc) <> [].
Proof.
  pose proof (_extractTitle_nonempty doc) as Hne.
  repeat split; try done.
  - destruct (_extractTitle doc); [done | simpl; lia].
  - apply _extractTitle_first_nonempty.
  - intros H1. unfold _extractTitle.
    apply truthy_nonempty in H1. by rewrite H1.
  - intros H1 H2. unfold _extractTitle. rewrite H1. simpl.
    apply truthy_nonempty in H2. by rewrite H2.
  - intros H1 H2 H3. unfold _extractTitle. rewrite H1, H2. simpl.
    apply truthy_nonempty in H3. by rewrite H3.
  - intros H1 H2 H3. unfold _extractTitle. by rewrite H1, H2, H3.
Qed.

Example _extractTitle_entry_title :
  _extractTitle {| h1_first_text := lit "   ";
                   title_class_first_text := lit " Entry title ";
                   title_tag_text := lit "Site";
                   extracted_content := [];
                   extracted_images := [] |}
  = lit "Entry title".
Proof. reflexivity. Qed.

(** C10 at a page whose h1 is blank and whose entry title is set. *)
Lemma extractTitle_nonempty_first_candidate_witness :
  _extractTitle {| h1_first_text := lit "   ";
                   title_class_first_text := lit " Entry title ";
                   title_tag_text := lit "Site";
                   extracted_content := [];
                   extracted_images := [] |}
  = trim (lit " Entry title ").
Proof.
  refine (proj1 (proj2 (proj2 (proj2 (proj2
            (extractTitle_nonempty_first_candidate
               {| h1_first_text := lit "   ";
                  title_class_first_text := lit " Entry title ";
                  title_tag_text := lit "Site";
                  extracted_content := [];
                  extracted_images := [] |}))))) eq_refl _).
  discriminate.
Defined.

End ScraperFacts.

(* ===================================================================== *)
(** * The three-variation loop of generateLineContent *)
(* ===================================================================== *)

Section GeneratorFacts.
Import Generator.

Example extract_content_last_message :
  extract_content
    [item_message assistant [other_part; output_text (lit "a"); output_text (lit "b")];
     item_other;
     item_message other_role [output_text (lit "c")];
     item_message assistant [output_text (lit "d")]] []
  = lit "d".
Proof. reflexivity. Qed.

Example generateLineContent_three_texts :
  exists v1 v2 v3,
    generateLineContent 4 (always_text (lit "hello")) [] None = Returned [v1; v2; v3]
    /\ content v1 = lit "hello".
Proof. eexists _, _, _. split; reflexivity. Qed.

(** A response whose text trims to nothing sends the loop back to the same
    index with one more call made. *)
Lemma variations_loop_retry fuel create imgs url calls i vs response :
  (i < 3)%nat ->
  create calls i = Normal response ->
  trim (extract_content (output response) []) = [] ->
  variations_loop (S fuel) create imgs url calls i vs
  = variations_loop fuel create imgs url (S calls) i vs.
Proof.
  intros Hi Hc He. cbn [variations_loop].
  destruct (3 <=? i)%nat eqn:E; [apply Nat.leb_le in E; lia|].
  by rewrite Hc, He.
Qed.

Lemma variations_loop_always_empty fuel imgs url :
  forall calls vs,
    variations_loop fuel always_empty imgs url calls 0 vs = OutOfFuel.
Proof.
  induction fuel as [|fuel IH]; intros calls vs; [reflexivity|].
  rewrite (variations_loop_retry fuel always_empty imgs url calls 0 vs
             {| output := [item_message assistant []] |}); try done.
  lia.
Qed.

(** C5. The empty-content retry has no attempt bound: against a backend whose
    every answer is a completed response without text, no number of loop
    iterations lets [generateLineContent] return or fail; it is still
    retrying index 0 after any number of calls. *)
Theorem generateLineContent_empty_retry_unbounded :
  forall (fuel : nat) (selected_images : list JSString) (blog_url : option JSString),
    generateLineContent fuel always_empty selected_images blog_url = OutOfFuel
    /\ (forall calls, variations_loop (S fuel) always_empty selected_images blog_url calls 0 []
                      = variations_loop fuel always_empty selected_images blog_url (S calls) 0 []).
Proof.
  intros fuel imgs url. split.
  - apply variations_loop_always_empty.
  - intros calls. by rewrite !variations_loop_always_empty.
Qed.

End GeneratorFacts.

(* ===================================================================== *)
(** * The stream relay *)
(* ===================================================================== *)

Section RelayFacts.
Import Wire Scraper Generator Relay RelayProps.

Lemma frames_fold_write (chunks : list Event) :
  forall ch,
    frames (fold_left (fun ch chunk => write (data chunk) ch) chunks ch)
    = frames ch ++ map data chunks.
Proof.
  induction chunks as [|e chunks IH]; intros ch; cbn [fold_left map].
  - by rewrite app_nil_r.
  - rewrite IH. cbn [write frames]. by rewrite <- app_assoc.
Qed.

Lemma scrape_calls_fold_write (chunks : list Event) :
  forall ch,
    scrape_calls (fold_left (fun ch chunk => write (data chunk) ch) chunks ch)
    = scrape_calls ch.
Proof. induction chunks as [|e chunks IH]; intros ch; cbn [fold_left]; [done | by rewrite IH]. Qed.

Lemma generator_calls_fold_write (chunks : list Event) :
  forall ch,
    generator_calls (fold_left (fun ch chunk => write (data chunk) ch) chunks ch)
    = generator_calls ch.
Proof. induction chunks as [|e chunks IH]; intros ch; cbn [fold_left]; [done | by rewrite IH]. Qed.

Lemma generate_and_finish_frames w sc imgs ws k ch :
  frames (generate_and_finish w sc imgs ws k ch)
  = frames ch ++ generation_frames w sc imgs ws k ++ [DONE].
Proof.
  unfold generate_and_finish, generation_frames, generation_error_frames.
  cbn [end_ write frames].
  destruct (thrown _) eqn:E; cbn [write frames];
    rewrite frames_fold_write; cbn [called_generator write frames];
    rewrite <- ?app_assoc; cbn [app]; by rewrite ?app_nil_r.
Qed.

Lemma generate_and_finish_ended w sc imgs ws k ch :
  ended (generate_and_finish w sc imgs ws k ch) = true.
Proof. reflexivity. Qed.

Lemma generate_and_finish_scrape_calls w sc imgs ws k ch :
  scrape_calls (generate_and_finish w sc imgs ws k ch) = scrape_calls ch.
Proof.
  unfold generate_and_finish. cbn [end_ write scrape_calls].
  destruct (thrown _); cbn [write scrape_calls]; by rewrite scrape_calls_fold_write.
Qed.

Lemma generate_and_finish_generator_calls w sc imgs ws k ch :
  generator_calls (generate_and_finish w sc imgs ws k ch)
  = generator_calls ch
    ++ [{| gc_scraped_content := sc; gc_selected_images := imgs;
           gc_use_web_search := ws; gc_variationIndex := k |}].
Proof.
  unfold generate_and_finish. cbn [end_ write generator_calls].
  destruct (thrown _); cbn [write generator_calls]; by rewrite generator_calls_fold_write.
Qed.

Lemma count_DONE_app (l k : list Frame) :
  count_DONE (l ++ k) = (count_DONE l + count_DONE k)%nat.
Proof. unfold count_DONE. by rewrite List.filter_app, length_app. Qed.

(** An event is written as its JSON text, which is never the sentinel line,
    whatever the event. *)
Lemma count_DONE_data (events : list Event) : count_DONE (map data events) = 0%nat.
Proof. unfold count_DONE. by induction events. Qed.

Lemma count_DONE_generation_frames w sc imgs ws k :
  count_DONE (generation_frames w sc imgs ws k) = 0%nat.
Proof.
  unfold generation_frames, generation_error_frames. cbn zeta.
  rewrite !count_DONE_app, count_DONE_data.
  destruct (thrown _); reflexivity.
Qed.


Lemma handler_passes_guards w req parsedData :
  method req = GET -> passes_guards w req parsedData ->
  handler w req = scrape_and_generate w parsedData (query_variationIndex req) (writeHead 200).
Proof.
  intros Hm (requestData & key & Hq & Hne & Hp & Hk & Hkne).
  unfold handler. rewrite Hm, Hq.
  apply truthy_nonempty in Hne. apply truthy_nonempty in Hkne.
  by rewrite Hne, Hp, Hk, Hkne.
Qed.

Lemma handler_turned_away w req :
  method req = GET -> turned_away w req ->
  exists message,
    handler w req = end_ (write (data (error message)) (writeHead 200)).
Proof.
  intros Hm Haway. unfold handler. rewrite Hm.
  destruct Haway as [Hmiss | [(rd & msg & Hq & Hne & Hp) | (rd & pd & Hq & Hne & Hp & Hk)]].
  - destruct (query_requestData req) as [|s|l]; try by eexists.
    rewrite (Hmiss s eq_refl). by eexists.
  - apply truthy_nonempty in Hne. rewrite Hq, Hne, Hp. by eexists.
  - apply truthy_nonempty in Hne. rewrite Hq, Hne, Hp.
    destruct Hk as [Hk|Hk]; rewrite Hk; by eexists.
Qed.

(** Behind the guards the sentinel is written at most once, and then last;
    it is missing exactly when scraping throws and the [catch] block throws
    as well. *)
Lemma scrape_and_generate_sentinel w parsedData variationIndex :
  let out := scrape_and_generate w parsedData variationIndex (writeHead 200) in
  ended out = true
  /\ (count_DONE (frames out) <= 1)%nat
  /\ ((exists scraped, BlogScraper_scrape w (blog_url parsedData) = Normal scraped)
      \/ ((exists url, blog_url parsedData = Some url)
          /\ selected_images parsedData <> Some images_null) ->
        count_DONE (frames out) = 1%nat /\ last (frames out) = Some DONE)
  /\ (forall errorMessage,
        BlogScraper_scrape w (blog_url parsedData) = Thrown errorMessage ->
        blog_url parsedData = None \/ selected_images parsedData = Some images_null ->
        count_DONE (frames out) = 0%nat
        /\ exists message,
             frames out
             = [data (process_start (lit "ブログ記事のスクレイピングを開始します"));
                data (error message)]).
Proof.
  unfold scrape_and_generate.
  destruct (BlogScraper_scrape w (blog_url parsedData)) as [scraped|msg]; cbn zeta.
  - rewrite generate_and_finish_frames, generate_and_finish_ended.
    rewrite !count_DONE_app, !count_DONE_generation_frames.
    rewrite !app_assoc, last_snoc.
    split; [reflexivity|]. split; [cbn; lia|]. split; [|done].
    intros _. split; [cbn; lia | reflexivity].
  - destruct (blog_url parsedData) as [url|];
      [destruct (selected_images parsedData) as [[|images]|]|]; cbn [default from_option id].
    + split; [reflexivity|]. split; [cbn; lia|]. split.
      * intros [[? ?]|[_ Hn]]; done.
      * intros m _ _. split; [reflexivity | by eexists].
    + rewrite generate_and_finish_frames, generate_and_finish_ended.
      rewrite !count_DONE_app, !count_DONE_generation_frames.
      rewrite !app_assoc, last_snoc.
      split; [reflexivity|]. split; [cbn; lia|]. split.
      * intros _. split; [cbn; lia | reflexivity].
      * intros m _ [?|?]; done.
    + rewrite generate_and_finish_frames, generate_and_finish_ended.
      rewrite !count_DONE_app, !count_DONE_generation_frames.
      rewrite !app_assoc, last_snoc.
      split; [reflexivity|]. split; [cbn; lia|]. split.
      * intros _. split; [cbn; lia | reflexivity].
      * intros m _ [?|?]; done.
    + split; [reflexivity|]. split; [cbn; lia|]. split.
      * intros [[? ?]|[[? ?] _]]; done.
      * intros m _ _. split; [reflexivity | by eexists].
Qed.

(** A GET request is turned away, or passes the guards. *)
Lemma turned_away_or_passes w req :
  turned_away w req \/ exists parsedData, passes_guards w req parsedData.
Proof.
  unfold turned_away, passes_guards.
  destruct (query_requestData req) as [|s|l] eqn:Hq; [by left; left | | by left; left].
  destruct s as [|c0 r]; [left; left; congruence|].
  destruct (JSON_parse w (c0 :: r)) as [pd|msg] eqn:Hp;
    [|left; right; left; by exists (c0 :: r), msg].
  destruct (OPENAI_API_KEY w) as [[|k0 kr]|] eqn:Hk.
  - left; right; right. exists (c0 :: r), pd. repeat split; auto.
  - right. exists pd, (c0 :: r), (k0 :: kr). repeat split; auto.
  - left; right; right. exists (c0 :: r), pd. repeat split; auto.
Qed.

(** Counterexample to C1 as stated: a GET request without [requestData] gets
    one [error] event and the end of the response, and no sentinel. *)
Lemma relay_missing_request_data_no_sentinel :
  frames (handler broken_world get_without_data)
    = [data (error (lit "リクエストデータが見つかりません"))]
  /\ ended (handler broken_world get_without_data) = true
  /\ count_DONE (frames (handler broken_world get_without_data)) = 0%nat
  /\ ~ sentinel_on_every_path.
Proof.
  repeat split; try reflexivity.
  intros H. specialize (H broken_world get_without_data eq_refl).
  discriminate H.
Qed.

(** C1 (amended). Every GET invocation ends the response and writes the
    sentinel at most once.  It writes it exactly once, as the last frame,
    whenever the handler gets past the scraping step: the request data is a
    string that parses, the API key is set, and scraping returns or, when it
    throws, the placeholder article can be built (the request names its blog
    URL and [selected_images] is not [null]); this is so whether or not the
    generation stream throws.  On every other path the channel is closed
    without sentinel, its last frame an [error] event: alone, when the
    request data is missing or unparseable or the API key is absent; after
    [process_start], when scraping throws and the [catch] block throws too
    (no blog URL, or [selected_images] is [null]). *)
Theorem relay_sentinel_after_generation (w : World) (req : Request) :
  method req = GET ->
  ended (handler w req) = true
  /\ (count_DONE (frames (handler w req)) <= 1)%nat
  /\ (turned_away w req \/ scrape_catch_throws w req \/ reaches_generation w req)
  /\ (reaches_generation w req ->
        count_DONE (frames (handler w req)) = 1%nat
        /\ last (frames (handler w req)) = Some DONE)
  /\ (turned_away w req ->
        count_DONE (frames (handler w req)) = 0%nat
        /\ exists message, frames (handler w req) = [data (error message)])
  /\ (scrape_catch_throws w req ->
        count_DONE (frames (handler w req)) = 0%nat
        /\ exists message,
             frames (handler w req)
             = [data (process_start (lit "ブログ記事のスクレイピングを開始します"));
                data (error message)]).
Proof.
  intros Hm.
  assert (Haway : turned_away w req ->
            ended (handler w req) = true
            /\ count_DONE (frames (handler w req)) = 0%nat
            /\ exists message, frames (handler w req) = [data (error message)]).
  { intros Ha. destruct (handler_turned_away w req Hm Ha) as [message ->].
    repeat split. by exists message. }
  pose proof (turned_away_or_passes w req) as Hcases.
  split; [|split; [|split; [|split; [|split]]]].
  - destruct Hcases as [Ha | [pd Hp]]; [by apply Haway|].
    rewrite (handler_passes_guards w req pd Hm Hp).
    apply scrape_and_generate_sentinel.
  - destruct Hcases as [Ha | [pd Hp]].
    + destruct (Haway Ha) as (_ & -> & _). lia.
    + rewrite (handler_passes_guards w req pd Hm Hp).
      apply scrape_and_generate_sentinel.
  - destruct Hcases as [Ha | [pd Hp]]; [by left|]. right.
    destruct (BlogScraper_scrape w (blog_url pd)) as [scraped|msg] eqn:Hs.
    + right. exists pd. split; [done|]. left. by exists scraped.
    + destruct (blog_url pd) as [url|] eqn:Hu.
      * destruct (selected_images pd) as [[|images]|] eqn:Hi.
        -- left. exists pd, msg. rewrite Hu, Hi. split; [done|]. split; [done | by right].
        -- right. exists pd. split; [done|]. right. rewrite Hu, Hi.
           split; [by eexists | done].
        -- right. exists pd. split; [done|]. right. rewrite Hu, Hi.
           split; [by eexists | done].
      * left. exists pd, msg. rewrite Hu. split; [done|]. split; [done | by left].
  - intros (pd & Hp & Hgen).
    rewrite (handler_passes_guards w req pd Hm Hp).
    by apply scrape_and_generate_sentinel.
  - intros Ha. destruct (Haway Ha) as (_ & H0 & Hf). by split.
  - intros (pd & msg & Hp & Hs & Hbad).
    rewrite (handler_passes_guards w req pd Hm Hp).
    by apply (scrape_and_generate_sentinel w pd (query_variationIndex req)) with msg.
Qed.

(** C1 (amended) at a request whose scraping and backend connection both
    fail: one sentinel, written last. *)
Lemma relay_sentinel_after_generation_witness :
  count_DONE (frames (handler (world_with example_request (Thrown (lit "timeout")))
                        (get_request 1))) = 1%nat
  /\ last (frames (handler (world_with example_request (Thrown (lit "timeout")))
                     (get_request 1))) = Some DONE.
Proof.
  refine (proj1 (proj2 (proj2 (proj2
            (relay_sentinel_after_generation
               (world_with example_request (Thrown (lit "timeout")))
               (get_request 1) eq_refl)))) _).
  exists example_request.
  split.
  - exists (lit "{...}"), (lit "sk-test").
    repeat split; try reflexivity; discriminate.
  - right. split; [by eexists | discriminate].
Defined.

(** With [selected_images: null] and a scraper that throws, the [catch]
    block throws at [selected_images.length]: the channel carries
    [process_start] and one [error] event, and no sentinel. *)
Example relay_null_images_failed_scrape_no_sentinel :
  frames (handler (world_with null_images_request (Thrown (lit "timeout"))) (get_request 0))
  = [data (process_start (lit "ブログ記事のスクレイピングを開始します"));
     data (error (lit "ストリーミングエラー: " ++ length_of_null))].
Proof. vm_compute. reflexivity. Qed.

(** Counterexample to C7 as stated: scraped content of nine characters is
    reported with [scraped_content], and no [scraping_warning] is sent. *)
Lemma relay_short_content_reported_as_scraped :
  let out := handler (world_with example_request (Normal short_article)) (get_request 0) in
  length (Scraper.content short_article) = 9%nat
  /\ existsb is_scraped_content (frames out) = true
  /\ existsb is_scraping_warning (frames out) = false
  /\ ~ short_content_warns.
Proof.
  repeat split; try reflexivity.
  intros H.
  destruct (H (world_with example_request (Normal short_article)) (get_request 0)
              example_request short_article) as [Hw _].
  - reflexivity.
  - exists (lit "{...}"), (lit "sk-test"). repeat split; try reflexivity; discriminate.
  - reflexivity.
  - apply Nat.ltb_lt. reflexivity.
  - discriminate Hw.
Qed.

(** C7 (amended). For a request that passes the guards and whose
    [selected_images] is absent or an array: when the scrape call throws and
    the request names its blog URL, the relay substitutes the placeholder
    article built from the URL and the selected images, writes
    [scraping_warning] with the failure detail where [scraped_content] would
    have been, and goes on to generate from the placeholder.  With
    [selected_images] [null] the [catch] block itself throws: the channel
    carries [process_start] and one [error] event, and nothing is generated.
    When scraping returns content shorter than 50 characters, the relay
    extends the content with a sentence naming the request's URL (a default
    sentence first standing in for empty content), writes [scraped_content]
    with the length of the extended content, no [scraping_warning] of its
    own, and goes on to generate from the extended article.  Where it
    generates, the stream ends with the sentinel. *)
Theorem relay_scrape_failure_or_short_content (w : World) (req : Request)
    (parsedData : ParsedData) :
  method req = GET ->
  passes_guards w req parsedData ->
  let out := handler w req in
  let selected := default (images_array []) (selected_images parsedData) in
  let search := default true (use_web_search parsedData) in
  let index := default 0%nat (query_variationIndex req) in
  (forall errorMessage url images,
      BlogScraper_scrape w (blog_url parsedData) = Thrown errorMessage ->
      blog_url parsedData = Some url ->
      selected = images_array images ->
      let dummy :=
        {| title := or_else (split_slash_pop url []) (lit "記事タイトル");
           Scraper.content :=
             lit "記事の内容を解析できませんでした。OpenAIのWeb検索機能を使用して、関連情報を検索します。";
           images := images |} in
      frames out
      = [data (process_start (lit "ブログ記事のスクレイピングを開始します"));
         data (scraping_warning
                 (lit "記事の詳細なスクレイピングに失敗しましたが、基本情報で処理を続行します: "
                  ++ errorMessage))]
        ++ generation_frames w dummy selected search index ++ [DONE]
      /\ generator_calls out
         = [{| gc_scraped_content := dummy; gc_selected_images := selected;
               gc_use_web_search := search; gc_variationIndex := index |}]
      /\ ended out = true)
  /\ (forall errorMessage url,
      BlogScraper_scrape w (blog_url parsedData) = Thrown errorMessage ->
      blog_url parsedData = Some url ->
      selected = images_null ->
      frames out
      = [data (process_start (lit "ブログ記事のスクレイピングを開始します"));
         data (error (lit "ストリーミングエラー: " ++ length_of_null))]
      /\ generator_calls out = []
      /\ ended out = true)
  /\ (forall scraped,
      BlogScraper_scrape w (blog_url parsedData) = Normal scraped ->
      (length (Scraper.content scraped) < 50)%nat ->
      let extended := ensure_enough_content (blog_url parsedData) scraped in
      Scraper.content extended
      = or_else (Scraper.content scraped) (lit "記事の内容が十分に取得できませんでした。")
        ++ LF ++ LF ++ url_text (blog_url parsedData)
        ++ lit " の記事を基に、LINE配信記事を作成します。"
      /\ title extended = title scraped
      /\ images extended = images scraped
      /\ frames out
         = [data (process_start (lit "ブログ記事のスクレイピングを開始します"));
            data (scraped_content (title scraped) (length (Scraper.content extended))
                    (length (images scraped)))]
           ++ generation_frames w extended selected search index ++ [DONE]
      /\ generator_calls out
         = [{| gc_scraped_content := extended; gc_selected_images := selected;
               gc_use_web_search := search; gc_variationIndex := index |}]
      /\ ended out = true).
Proof.
  intros Hm Hp. cbn zeta. rewrite (handler_passes_guards w req parsedData Hm Hp).
  unfold scrape_and_generate. split; [|split].
  - intros errorMessage url images Hs Hu Hi. rewrite Hs, Hu, Hi. cbn zeta.
    assert (Hd : placeholder_content url images
                 = {| title := or_else (split_slash_pop url []) (lit "記事タイトル");
                      Scraper.content :=
                        lit "記事の内容を解析できませんでした。OpenAIのWeb検索機能を使用して、関連情報を検索します。";
                      images := images |})
      by (unfold placeholder_content; by destruct images).
    rewrite Hd.
    by rewrite generate_and_finish_frames, generate_and_finish_generator_calls.
  - intros errorMessage url Hs Hu Hi. by rewrite Hs, Hu, Hi.
  - intros scraped Hs Hlen. rewrite Hs. cbn zeta.
    rewrite generate_and_finish_frames, generate_and_finish_generator_calls.
    assert (He : ensure_enough_content (blog_url parsedData) scraped
                 = {| title := title scraped;
                      Scraper.content :=
                        or_else (Scraper.content scraped)
                          (lit "記事の内容が十分に取得できませんでした。")
                        ++ LF ++ LF ++ url_text (blog_url parsedData)
                        ++ lit " の記事を基に、LINE配信記事を作成します。";
                      images := images scraped |}).
    { unfold ensure_enough_content, minimum_content_length.
      apply Nat.ltb_lt in Hlen. rewrite Hlen. by rewrite orb_true_r. }
    repeat split; try (rewrite He; reflexivity).
Qed.

(** C7 (amended) at a scrape that times out and at one that returns nine
    characters: the second frame is the warning in the one and the scrape
    report in the other. *)
Lemma relay_scrape_failure_or_short_content_witness :
  frames (handler (world_with example_request (Thrown (lit "timeout"))) (get_request 0))
    !! 1%nat
  = Some (data (scraping_warning
                  (lit "記事の詳細なスクレイピングに失敗しましたが、基本情報で処理を続行します: "
                   ++ lit "timeout")))
  /\ frames (handler (world_with example_request (Normal short_article)) (get_request 0))
       !! 1%nat
     = Some (data (scraped_content (lit "Example Post") 71 0)).
Proof.
  assert (Hg : forall s, passes_guards (world_with example_request s) (get_request 0)
                           example_request).
  { intros s. exists (lit "{...}"), (lit "sk-test").
    repeat split; try reflexivity; discriminate. }
  split.
  - rewrite (proj1 (proj1
              (relay_scrape_failure_or_short_content
                 (world_with example_request (Thrown (lit "timeout"))) (get_request 0)
                 example_request eq_refl (Hg _))
              (lit "timeout") (lit "https://example.com/blog/example-post")
              [lit "https://example.com/a.png"] eq_refl eq_refl eq_refl)).
    reflexivity.
  - rewrite (proj1 (proj2 (proj2 (proj2
              (proj2 (proj2
                 (relay_scrape_failure_or_short_content
                    (world_with example_request (Normal short_article)) (get_request 0)
                    example_request eq_refl (Hg _)))
                 short_article eq_refl ltac:(apply Nat.ltb_lt; reflexivity)))))).
    vm_compute. reflexivity.
Defined.

(** Behind the guards the relay calls the scraper, once, whatever the request
    carries as pre-scraped content. *)
Lemma handler_always_scrapes w req parsedData :
  method req = GET -> passes_guards w req parsedData ->
  scrape_calls (handler w req) = [blog_url parsedData].
Proof.
  intros Hm Hp. rewrite (handler_passes_guards w req parsedData Hm Hp).
  unfold scrape_and_generate.
  destruct (BlogScraper_scrape w (blog_url parsedData)) as [scraped|msg];
    [|destruct (blog_url parsedData);
      [destruct (default (images_array []) (selected_images parsedData))|]]; cbn zeta;
    rewrite ?generate_and_finish_scrape_calls; reflexivity.
Qed.

(** C8. The relay does not use pre-scraped content: for a request that carries
    a complete pre-scraped article it still calls the scraper, and it
    generates from what that call returned. *)
Theorem relay_scrapes_despite_prescraped_content :
  let w := world_with prescraped_request (Normal short_article) in
  let out := handler w (get_request 0) in
  scraped_content_field prescraped_request = Some example_article
  /\ scrape_calls out = [Some (lit "https://example.com/blog/example-post")]
  /\ map gc_scraped_content (generator_calls out)
     = [ensure_enough_content (blog_url prescraped_request) short_article]
  /\ ~ prescraped_not_scraped_again.
Proof.
  cbn zeta.
  assert (Hg : passes_guards (world_with prescraped_request (Normal short_article))
                 (get_request 0) prescraped_request).
  { exists (lit "{...}"), (lit "sk-test").
    repeat split; try reflexivity; discriminate. }
  pose proof (handler_always_scrapes
                (world_with prescraped_request (Normal short_article))
                (get_request 0) prescraped_request eq_refl Hg) as Hcalls.
  split; [reflexivity|]. split; [exact Hcalls|]. split; [reflexivity|].
  intros H.
  specialize (H (world_with prescraped_request (Normal short_article))
                (get_request 0) prescraped_request example_article eq_refl Hg eq_refl).
  rewrite Hcalls in H.
  assert (Hc : Scraper.content example_article <> []) by discriminate.
  specialize (H Hc). discriminate H.
Qed.

End RelayFacts.

(* ===================================================================== *)
(** * The client orchestrator *)
(* ===================================================================== *)

Section ClientFacts.
Import Client ClientProps.
Variable props : Props.

(** ** Open channels *)

Lemma is_open_lt c j : is_open c j = true -> (j < length (eventSourceRefs c))%nat.
Proof.
  unfold is_open. destruct (eventSourceRefs c !! j) eqn:E; [|done].
  intros _. by apply lookup_lt_Some in E.
Qed.

Lemma is_open_insert_open c v j k :
  eventSourceRefs v = <[k := es_open]> (eventSourceRefs c) ->
  (k < length (eventSourceRefs c))%nat ->
  is_open v j = if decide (j = k) then true else is_open c j.
Proof.
  intros Hv Hk. unfold is_open. rewrite Hv.
  case_decide as E.
  - subst j. by rewrite list_lookup_insert_eq.
  - by rewrite list_lookup_insert_ne.
Qed.

Lemma is_open_alter_close c v j k :
  eventSourceRefs v = alter close k (eventSourceRefs c) ->
  is_open v j = if decide (j = k) then false else is_open c j.
Proof.
  intros Hv. unfold is_open. rewrite Hv.
  case_decide as E.
  - subst j. rewrite list_lookup_alter_eq.
    destruct (eventSourceRefs c !! k) as [[]|]; reflexivity.
  - by rewrite list_lookup_alter_ne.
Qed.

Lemma is_open_map_close c v j :
  eventSourceRefs v = map close (eventSourceRefs c) -> is_open v j = false.
Proof.
  intros Hv. unfold is_open. rewrite Hv.
  change (map close (eventSourceRefs c)) with (close <$> eventSourceRefs c).
  rewrite list_lookup_fmap.
  destruct (eventSourceRefs c !! j) as [[]|]; reflexivity.
Qed.

Lemma is_open_same_refs c v j :
  eventSourceRefs v = eventSourceRefs c -> is_open v j = is_open c j.
Proof. intros Hv. unfold is_open. by rewrite Hv. Qed.

(** ** What the handlers leave alone *)

(** A message that does not end the session changes neither the channels nor
    the timeouts nor what the closures hold, and calls nothing back. *)
Lemma onmessage_frame index d c :
  ends_session d = false ->
  let v := onmessage props index d c in
  eventSourceRefs v = eventSourceRefs c
  /\ closure_streamedContents v = closure_streamedContents c
  /\ closure_completedVariations v = closure_completedVariations c
  /\ timeouts v = timeouts c
  /\ callbacks v = callbacks c
  /\ isLoading v = isLoading c.
Proof.
  destruct d as [|e|]; [done| |done].
  destruct e as [| | | | | | |b| |]; try done.
  destruct b; done.
Qed.

Lemma onmessage_shape index d c : shape c -> shape (onmessage props index d c).
Proof.
  intros (H1 & H2 & H3 & H4 & H5 & H6 & H7).
  destruct d as [|e|]; [| |done].
  - unfold onmessage, shape. cbn.
    rewrite !length_insert, length_alter. done.
  - destruct e as [| | | | | | |b| |]; try (unfold shape; cbn; rewrite ?length_alter; done).
    + destruct b; try (unfold shape; cbn; rewrite ?length_alter; done).
      unfold shape. cbn. rewrite !length_insert, length_alter. done.
    + unfold shape. cbn. rewrite !length_insert, length_alter. done.
Qed.

Lemma generateVariation_shape k c : shape c -> shape (generateVariation props k c).
Proof.
  intros (H1 & H2 & H3 & H4 & H5 & H6 & H7). unfold generateVariation.
  destruct (3 <=? k)%nat; unfold shape; cbn; rewrite ?length_insert; done.
Qed.

Lemma step_shape c i : shape c -> shape (step props c i).
Proof.
  intros Hs. destruct i as [index d|index| |]; cbn [step].
  - destruct (is_open c index); [by apply onmessage_shape | done].
  - destruct (is_open c index); [|done].
    apply (onmessage_shape index (msg_event (Wire.error (lit "x"))) c) in Hs as Hs'.
    destruct Hs as (H1 & H2 & H3 & H4 & H5 & H6 & H7).
    unfold onerror, handleVariationError, shape. cbn.
    rewrite !length_insert, length_alter. done.
  - destruct (timeouts c) as [|k rest]; [done|].
    apply generateVariation_shape.
    destruct Hs as (H1 & H2 & H3 & H4 & H5 & H6 & H7). done.
  - destruct (isLoading c); [|done].
    destruct Hs as (H1 & H2 & H3 & H4 & H5 & H6 & H7).
    unfold handleCancelStream, shape. cbn. rewrite length_map. done.
Qed.

Lemma effect_shape c : ready c -> shape (effect props c).
Proof.
  intros (H1 & H2 & H3 & H4 & H5 & _). unfold effect.
  apply generateVariation_shape. unfold shape. cbn. done.
Qed.

Lemma run_app c t1 t2 : run props c (t1 ++ t2) = run props (run props c t1) t2.
Proof. unfold run. by rewrite fold_left_app. Qed.

Lemma run_shape c trace : shape c -> shape (run props c trace).
Proof.
  revert c. induction trace as [|i trace IH]; intros c Hs; [done|].
  cbn [run fold_left]. apply IH. by apply step_shape.
Qed.

(** ** The phases of a run *)

(** A message that ends the session closes its channel and sets the settle
    timeout for the next index. *)
Lemma onmessage_ends index d c :
  ends_session d = true ->
  let v := onmessage props index d c in
  eventSourceRefs v = alter close index (eventSourceRefs c)
  /\ timeouts v = timeouts c ++ [(index + 1)%nat]
  /\ callbacks v = callbacks c
  /\ isLoading v = isLoading c
  /\ closure_streamedContents v = closure_streamedContents c.
Proof.
  destruct d as [|e|]; [done| |done].
  destruct e as [| | | | | | |b| |]; try done.
Qed.

Lemma onerror_ends index c :
  let v := onerror props index c in
  eventSourceRefs v = alter close index (eventSourceRefs c)
  /\ timeouts v = timeouts c ++ [(index + 1)%nat]
  /\ callbacks v = callbacks c
  /\ isLoading v = isLoading c
  /\ closure_streamedContents v = closure_streamedContents c.
Proof. done. Qed.

Lemma streaming_closed_settling index c v :
  streaming index c ->
  eventSourceRefs v = alter close index (eventSourceRefs c) ->
  timeouts v = timeouts c ++ [(index + 1)%nat] ->
  settling (index + 1) v.
Proof.
  intros (Hi & Hopen & Ht) Hrefs Htv. unfold settling. repeat split.
  - lia.
  - intros j. rewrite (is_open_alter_close c v j index Hrefs).
    case_decide as E; [done|].
    destruct (is_open c j) eqn:Ej; [|done]. by apply Hopen in Ej.
  - by rewrite Htv, Ht.
Qed.

Lemma streaming_open_unique index c j :
  streaming index c -> is_open c j = true -> j = index.
Proof. intros (_ & Hopen & _) Hj. by apply Hopen. Qed.

Lemma no_open_not_open c j : no_open c -> is_open c j = true -> False.
Proof. intros Hn Hj. by rewrite Hn in Hj. Qed.

Lemma streaming_same index c v :
  streaming index c ->
  eventSourceRefs v = eventSourceRefs c -> timeouts v = timeouts c ->
  streaming index v.
Proof.
  intros (Hi & Hopen & Ht) Hrefs Htv. repeat split; try done.
  - rewrite (is_open_same_refs c v j Hrefs). apply Hopen.
  - rewrite (is_open_same_refs c v j Hrefs). apply Hopen.
  - by rewrite Htv.
Qed.

Lemma generateVariation_starts k c :
  (k < 3)%nat -> shape c -> no_open c ->
  let v := generateVariation props k c in
  (forall j, is_open v j = true <-> j = k)
  /\ timeouts v = timeouts c
  /\ callbacks v = callbacks c
  /\ isLoading v = isLoading c
  /\ status_of v k = Some Loading.
Proof.
  intros Hk (H1 & H2 & H3 & H4 & H5 & H6 & H7) Hn. unfold generateVariation.
  destruct (3 <=? k)%nat eqn:E; [apply Nat.leb_le in E; lia|].
  cbn zeta.
  match goal with |- context [is_open ?v _] => set (v0 := v) end.
  assert (Hv : eventSourceRefs v0 = <[k := es_open]> (eventSourceRefs c)) by reflexivity.
  repeat split; try done.
  - rewrite (is_open_insert_open c v0 j k Hv) by lia.
    case_decide; [done|]. by rewrite Hn.
  - intros ->. rewrite (is_open_insert_open c v0 k k Hv) by lia.
    by case_decide.
  - unfold status_of. cbn. rewrite list_lookup_insert_eq by lia. done.
Qed.

Lemma generateVariation_finishes c :
  shape c -> no_open c -> timeouts c = [] -> callbacks c = [] ->
  delivered props (generateVariation props 3 c).
Proof.
  intros _ Hn Ht Hc.
  unfold generateVariation, finishAllVariations, delivered, quiescent. cbn.
  split; [by split|]. split; [done|]. by rewrite Hc.
Qed.

Lemma effect_run_invariant c : ready c -> run_invariant props (effect props c).
Proof.
  intros Hr. split; [by apply effect_shape|].
  left. exists 0%nat.
  destruct Hr as (H1 & H2 & H3 & H4 & H5 & Hn & Ht).
  unfold effect.
  match goal with
  | |- context [generateVariation props 0 ?c0] =>
    destruct (generateVariation_starts 0 c0) as (Ho & Htv & Hcb & Hl & _)
  end.
  - lia.
  - unfold shape. cbn. done.
  - intros j. apply Hn.
  - repeat split; try done; try apply Ho; lia.
Qed.

Lemma step_run_invariant c i :
  is_cancel i = false -> run_invariant props c -> run_invariant props (step props c i).
Proof.
  intros Hi (Hs & Hphase).
  split; [by apply step_shape|].
  destruct i as [index d|index| |]; cbn [step]; [| | |done].
  - destruct (is_open c index) eqn:Ho; [|exact Hphase].
    destruct Hphase as [(i0 & Hst & Hl & Hc) | [(k & (_ & Hn & _) & _) | ((Hn & _) & _)]];
      [|by destruct (no_open_not_open c index Hn Ho)..].
    assert (index = i0) as -> by (by apply (streaming_open_unique i0 c)).
    destruct (ends_session d) eqn:Hd.
    + destruct (onmessage_ends i0 d c Hd) as (Hr & Ht & Hcb & Hll & _).
      right; left. exists (i0 + 1)%nat.
      split; [by apply (streaming_closed_settling i0 c)|].
      split; [by rewrite Hll | by rewrite Hcb].
    + destruct (onmessage_frame i0 d c Hd) as (Hr & _ & _ & Ht & Hcb & Hll).
      left. exists i0.
      split; [by apply (streaming_same i0 c)|].
      split; [by rewrite Hll | by rewrite Hcb].
  - destruct (is_open c index) eqn:Ho; [|exact Hphase].
    destruct Hphase as [(i0 & Hst & Hl & Hc) | [(k & (_ & Hn & _) & _) | ((Hn & _) & _)]];
      [|by destruct (no_open_not_open c index Hn Ho)..].
    assert (index = i0) as -> by (by apply (streaming_open_unique i0 c)).
    destruct (onerror_ends i0 c) as (Hr & Ht & Hcb & Hll & _).
    right; left. exists (i0 + 1)%nat.
    split; [by apply (streaming_closed_settling i0 c)|].
    split; [by rewrite Hll | by rewrite Hcb].
  - destruct Hphase as [(i0 & Hst & Hl & Hc) | [(k & (Hk & Hn & Ht) & Hl & Hc) | Hd]].
    + pose proof Hst as (_ & _ & Ht). rewrite Ht. left. exists i0. done.
    + rewrite Ht.
      destruct (decide (k = 3)) as [->|Hk3].
      * right; right. by apply generateVariation_finishes.
      * destruct (generateVariation_starts k (with_timeouts [] c))
          as (Hopen & Htv & Hcb & Hll & _); [lia|done|done|].
        left. exists k.
        split; [|split; [by rewrite Hll | by rewrite Hcb]].
        split; [lia|]. split; [exact Hopen | by rewrite Htv].
    + pose proof Hd as ((Hn & Ht) & Hrest). rewrite Ht. right; right. done.
Qed.

Lemma run_run_invariant trace :
  forall c, no_cancel trace -> run_invariant props c -> run_invariant props (run props c trace).
Proof.
  induction trace as [|i trace IH]; intros c Hnc Hinv; [done|].
  unfold no_cancel in Hnc. cbn [forallb] in Hnc.
  apply andb_true_iff in Hnc as [Hi Hrest].
  cbn [run fold_left]. apply IH; [exact Hrest|].
  apply step_run_invariant; [|exact Hinv]. by destruct (is_cancel i).
Qed.

(** In a run without cancellation the three phases exclude one another. *)
Lemma run_invariant_quiescent c :
  run_invariant props c -> quiescent c -> delivered props c.
Proof.
  intros (_ & [(i0 & (Hi & Hopen & _) & _) | [(k & (_ & _ & Ht) & _) | Hd]]) (Hn & Htq).
  - assert (is_open c i0 = true) as Ho by (by apply Hopen). by rewrite Hn in Ho.
  - by rewrite Htq in Ht.
  - exact Hd.
Qed.


(** ** Sessions run one after the other *)

Lemma run_cons c i trace : run props c (i :: trace) = run props (step props c i) trace.
Proof. reflexivity. Qed.

(** A channel that is not open delivers nothing. *)
Lemma messages_closed index feed c :
  is_open c index = false -> run props c (map (Message index) feed) = c.
Proof.
  intros Hc. induction feed as [|d feed IH]; [done|].
  cbn [map]. rewrite run_cons. cbn [step]. by rewrite Hc.
Qed.

(** A message only writes the entry of its own index in [variationStates]. *)
Lemma onmessage_other index d c j :
  j <> index ->
  variationStates (onmessage props index d c) !! j = variationStates c !! j.
Proof.
  intros Hj. destruct d as [|e|]; [| |done].
  - cbn. by rewrite list_lookup_insert_ne.
  - destruct e as [| | | | | | |b| |]; try done;
      try (cbn; by rewrite list_lookup_alter_ne).
    + destruct b; try done; cbn; by rewrite list_lookup_alter_ne.
    + cbn. by rewrite list_lookup_insert_ne.
Qed.

Lemma generateVariation_other k c j :
  j <> k ->
  variationStates (generateVariation props k c) !! j = variationStates c !! j.
Proof.
  intros Hj. unfold generateVariation. destruct (3 <=? k)%nat; [done|].
  cbn. by rewrite list_lookup_insert_ne.
Qed.

(** A message that ends the session leaves it [Complete] or [Error]. *)
Lemma onmessage_ends_terminal index d c :
  ends_session d = true -> (index < length (variationStates c))%nat ->
  exists s, status_of (onmessage props index d c) index = Some s /\ terminal s = true.
Proof.
  intros Hd Hi. unfold status_of.
  destruct d as [|e|]; [|destruct e; try done|done].
  - exists Complete. cbn. by rewrite list_lookup_insert_eq.
  - exists Error. cbn. by rewrite list_lookup_insert_eq.
Qed.

(** One session: from the open channel to the settle timeout of the next
    index. *)
Lemma session_run index feed :
  forall c,
    shape c -> streaming index c -> terminating feed ->
    let v := run props c (map (Message index) feed) in
    settling (index + 1) v
    /\ shape v
    /\ callbacks v = callbacks c
    /\ isLoading v = isLoading c
    /\ (exists s, status_of v index = Some s /\ terminal s = true)
    /\ (forall j, j <> index -> status_of v j = status_of c j).
Proof.
  induction feed as [|d feed IH]; intros c Hs Hst Ht; [done|].
  cbn [map]. rewrite run_cons. cbn [step].
  assert (Ho : is_open c index = true) by (by apply Hst).
  rewrite Ho.
  pose proof (onmessage_shape index d c Hs) as Hs1.
  destruct (ends_session d) eqn:Hd.
  - destruct (onmessage_ends index d c Hd) as (Hr & Htm & Hcb & Hll & _).
    pose proof (streaming_closed_settling index c _ Hst Hr Htm) as Hset.
    rewrite messages_closed by (by apply Hset).
    split; [exact Hset|]. split; [exact Hs1|]. split; [exact Hcb|]. split; [exact Hll|].
    split.
    + apply onmessage_ends_terminal; [done|].
      destruct Hs as (_ & _ & -> & _). by destruct Hst.
    + intros j Hj. unfold status_of. by rewrite onmessage_other.
  - destruct (onmessage_frame index d c Hd) as (Hr & _ & _ & Htm & Hcb & Hll).
    pose proof (streaming_same index c _ Hst Hr Htm) as Hst1.
    unfold terminating in Ht. cbn [existsb] in Ht. rewrite Hd in Ht.
    destruct (IH _ Hs1 Hst1 Ht) as (H1 & H2 & H3 & H4 & H5 & H6).
    split; [exact H1|]. split; [exact H2|].
    split; [by rewrite H3|]. split; [by rewrite H4|]. split; [exact H5|].
    intros j Hj. rewrite H6 by done. unfold status_of. by rewrite onmessage_other.
Qed.

(** The sessions [k], [k+1], ...: each is started when its settle timeout
    fires, runs to [Complete] or [Error], and leaves the other entries of
    [variationStates] alone. *)
Lemma sessions_run feeds :
  forall k c,
    shape c -> settling k c -> (k + length feeds <= 3)%nat ->
    Forall terminating feeds ->
    let v := run props c (sessions k feeds) in
    settling (k + length feeds) v
    /\ shape v
    /\ callbacks v = callbacks c
    /\ isLoading v = isLoading c
    /\ (forall j, (k <= j < k + length feeds)%nat ->
          (exists s, status_of v j = Some s /\ terminal s = true)
          /\ exists t1 t2,
               sessions k feeds = t1 ++ t2
               /\ is_open (run props c t1) j = true
               /\ status_of (run props c t1) j = Some Loading)
    /\ (forall j, (j < k)%nat -> status_of v j = status_of c j).
Proof.
  induction feeds as [|feed feeds IH]; intros k c Hs Hset Hlen Hall.
  - cbn [sessions length run fold_left]. rewrite Nat.add_0_r.
    split; [exact Hset|]. split; [exact Hs|]. split; [done|]. split; [done|].
    split; [intros j Hj; lia | done].
  - cbn [length] in Hlen. apply Forall_cons in Hall as [Hfeed Hall].
    cbn [sessions]. rewrite run_cons, run_app.
    destruct Hset as (Hk & Hn & Ht). cbn [step]. rewrite Ht.
    destruct (generateVariation_starts k (with_timeouts [] c))
      as (Hopen & Htv & Hcb & Hll & Hload); [lia|done|done|].
    set (c1 := generateVariation props k (with_timeouts [] c)) in *.
    assert (Hs1 : shape c1) by (by apply generateVariation_shape).
    assert (Hst1 : streaming k c1) by (split; [lia|]; split; [exact Hopen | exact Htv]).
    destruct (session_run k feed c1 Hs1 Hst1 Hfeed) as (G1 & G2 & G3 & G4 & G5 & G6).
    set (c2 := run props c1 (map (Message k) feed)) in *.
    replace (k + 1)%nat with (S k) in G1 by lia.
    destruct (IH (S k) c2 G2 G1 ltac:(lia) Hall) as (I1 & I2 & I3 & I4 & I5 & I6).
    cbn [length].
    replace (k + S (length feeds))%nat with (S k + length feeds)%nat by lia.
    split; [exact I1|]. split; [exact I2|].
    split; [by rewrite I3, G3, Hcb|]. split; [by rewrite I4, G4, Hll|].
    split.
    + intros j Hj. split.
      * destruct (decide (j = k)) as [->|Hjk].
        -- rewrite I6 by lia. exact G5.
        -- apply I5. lia.
      * destruct (decide (j = k)) as [->|Hjk].
        -- exists [TimeoutFires], (map (Message k) feed ++ sessions (S k) feeds).
           split; [reflexivity|]. cbn [run fold_left step]. rewrite Ht. fold c1.
           split; [by apply Hopen | exact Hload].
        -- destruct (I5 j ltac:(lia)) as (_ & t1 & t2 & Heq & Hop & Hld).
           exists (TimeoutFires :: map (Message k) feed ++ t1), t2.
           split; [rewrite Heq; rewrite <- app_comm_cons; by rewrite app_assoc|].
           rewrite run_cons, run_app. cbn [step]. rewrite Ht. fold c1. fold c2. done.
    + intros j Hj. rewrite I6 by lia. rewrite G6 by lia.
      unfold status_of, c1. by rewrite generateVariation_other by lia.
Qed.

(** A request whose three channels each end their session runs to the end. *)
Lemma request_trace_quiescent c0 feed0 feed1 feed2 :
  ready c0 -> terminating feed0 -> terminating feed1 -> terminating feed2 ->
  quiescent (run props (effect props c0) (request_trace feed0 feed1 feed2)).
Proof.
  intros Hr H0 H1 H2. unfold request_trace.
  destruct (effect_run_invariant c0 Hr)
    as (Hs & [(i0 & Hst & Hl & Hc) | [(k & (_ & Hn & _) & _) | ((Hn & _) & _)]]).
  - assert (i0 = 0%nat) as ->.
    { symmetry. apply (streaming_open_unique i0 (effect props c0) 0%nat Hst).
      unfold effect, generateVariation. cbn.
      destruct Hr as (_ & _ & _ & H4 & _).
      unfold is_open. cbn. rewrite list_lookup_insert_eq by lia. done. }
    rewrite run_app.
    destruct (session_run 0 feed0 _ Hs Hst H0) as (G1 & G2 & G3 & G4 & _).
    set (c1 := run props (effect props c0) (map (Message 0) feed0)) in *.
    rewrite run_app.
    destruct (sessions_run [feed1; feed2] 1 c1 G2 G1 ltac:(cbn; lia)
                ltac:(by repeat constructor)) as (I1 & I2 & I3 & I4 & _).
    set (c2 := run props c1 (sessions 1 [feed1; feed2])) in *.
    destruct I1 as (_ & Hn & Ht). cbn [run fold_left step]. rewrite Ht.
    apply generateVariation_finishes; try done.
    change (callbacks c2 = []). by rewrite I3, G3.
  - exfalso. apply (no_open_not_open _ 0%nat Hn).
    destruct Hr as (_ & _ & _ & H4 & _).
    unfold effect, generateVariation, is_open. cbn.
    rewrite list_lookup_insert_eq by lia. done.
  - exfalso. apply (no_open_not_open _ 0%nat Hn).
    destruct Hr as (_ & _ & _ & H4 & _).
    unfold effect, generateVariation, is_open. cbn.
    rewrite list_lookup_insert_eq by lia. done.
Qed.


(** ** What the closures hold *)

(** No handler changes the arrays the closures hold. *)
Lemma step_closure c i :
  closure_streamedContents (step props c i) = closure_streamedContents c.
Proof.
  destruct i as [index d|index| |]; cbn [step].
  - destruct (is_open c index); [|done].
    destruct d as [|e|]; [done| |done].
    destruct e as [| | | | | | |b| |]; try done. by destruct b.
  - by destruct (is_open c index).
  - destruct (timeouts c) as [|k rest]; [done|].
    unfold generateVariation. by destruct (3 <=? k)%nat.
  - by destruct (isLoading c).
Qed.

Lemma run_closure trace :
  forall c, closure_streamedContents (run props c trace) = closure_streamedContents c.
Proof.
  induction trace as [|i trace IH]; intros c; [done|].
  rewrite run_cons, IH. apply step_closure.
Qed.

Lemma effect_closure c : closure_streamedContents (effect props c) = streamedContents c.
Proof. reflexivity. Qed.

(** The array handed to [onStreamComplete] is built from the
    [streamedContents] of the render that started the run, whatever the
    channels delivered. *)
Lemma delivered_contents_are_render_snapshot (c0 : Component) (trace : list Input)
    (variations : list GeneratedContent) :
  ready c0 ->
  no_cancel trace ->
  In (onStreamComplete variations) (callbacks (run props (effect props c0) trace)) ->
  variations = generatedContents props (streamedContents c0).
Proof.
  intros Hr Hnc Hin.
  assert (Hinv : run_invariant props (run props (effect props c0) trace))
    by (apply run_run_invariant; [exact Hnc | by apply effect_run_invariant]).
  destruct Hinv as (_ & [(i0 & _ & _ & Hc) | [(k & _ & _ & Hc) | (_ & _ & Hc)]]);
    rewrite Hc in Hin; try done.
  destruct Hin as [Heq|[]]. inversion Heq; subst.
  by rewrite run_closure, effect_closure.
Qed.

(** ** Progress values *)

Lemma delta_progress_bounds accumulated :
  (60 <= delta_progress accumulated)%Q /\ (delta_progress accumulated <= 95)%Q.
Proof.
  unfold delta_progress. split.
  - apply Q.min_glb; [|done].
    unfold Qle, Qplus. cbn. lia.
  - apply Q.le_min_r.
Qed.

Lemma delta_progress_mono accumulated delta :
  (delta_progress accumulated <= delta_progress (accumulated ++ delta))%Q.
Proof.
  unfold delta_progress. apply Q.min_le_compat_r.
  rewrite length_app, Nat2Z.inj_add.
  unfold Qle, Qplus. cbn. lia.
Qed.

Lemma progress_of_other c v j :
  variationStates v !! j = variationStates c !! j -> progress_of v j = progress_of c j.
Proof. intros H. unfold progress_of. by rewrite H. Qed.

Lemma progress_of_alter c v index p :
  variationStates v
  = alter (fun s => {| status := status s; progress := p |}) index (variationStates c) ->
  (index < length (variationStates c))%nat ->
  progress_of v index = p.
Proof.
  intros Hv Hi. unfold progress_of. rewrite Hv, list_lookup_alter_eq.
  destruct (lookup_lt_is_Some_2 _ _ Hi) as [s ->]. reflexivity.
Qed.

Lemma progress_of_insert c v index s :
  variationStates v = <[index := s]> (variationStates c) ->
  (index < length (variationStates c))%nat ->
  progress_of v index = progress s.
Proof.
  intros Hv Hi. unfold progress_of. by rewrite Hv, list_lookup_insert_eq.
Qed.

(** A message on the channel of [index] sets the progress of [index] to the
    value the event assigns, whatever the stored value was. *)
Lemma onmessage_progress index d c :
  (index < length (variationStates c))%nat ->
  progress_of (onmessage props index d c) index
  = match assigned_progress (default [] (accumulatedText c !! index)) d with
    | Some v => v
    | None => progress_of c index
    end.
Proof.
  intros Hi. destruct d as [|e|]; [| |done].
  - cbn [assigned_progress].
    by apply (progress_of_insert c _ index {| status := Complete; progress := 100 |}).
  - destruct e as [| | | | | | |b| |]; cbn [assigned_progress onmessage]; try done;
      try (by apply (progress_of_alter c)).
    + destruct b; cbn [assigned_progress onmessage]; try done;
        by apply (progress_of_alter c).
    + by apply (progress_of_insert c _ index {| status := Error; progress := 0 |}).
Qed.

Lemma bounded_progress_of c j :
  bounded c -> (0 <= progress_of c j)%Q /\ (progress_of c j <= 100)%Q.
Proof.
  intros Hb. unfold progress_of.
  destruct (variationStates c !! j) as [s|] eqn:E; [|done].
  by apply (Forall_lookup_1 _ _ _ _ Hb E).
Qed.

Lemma bounded_alter c v index p :
  bounded c -> (0 <= p)%Q -> (p <= 100)%Q ->
  variationStates v
  = alter (fun s => {| status := status s; progress := p |}) index (variationStates c) ->
  bounded v.
Proof.
  intros Hb H0 H1 Hv. unfold bounded. rewrite Hv.
  apply Forall_alter; [exact Hb|]. intros s _ _. done.
Qed.

Lemma bounded_insert c v index s :
  bounded c -> (0 <= progress s)%Q -> (progress s <= 100)%Q ->
  variationStates v = <[index := s]> (variationStates c) ->
  bounded v.
Proof.
  intros Hb H0 H1 Hv. unfold bounded. rewrite Hv.
  apply Forall_insert; [exact Hb|]. done.
Qed.

Lemma onmessage_bounded index d c : bounded c -> bounded (onmessage props index d c).
Proof.
  intros Hb. destruct d as [|e|]; [| |done].
  - by apply (bounded_insert c _ index {| status := Complete; progress := 100 |}).
  - destruct e as [| | | | | | |b| |]; try done;
      try (by eapply (bounded_alter c); [done| | |reflexivity]).
    + destruct b; try done;
        try (by eapply (bounded_alter c); [done| | |reflexivity]).
      destruct (delta_progress_bounds (default [] (accumulatedText c !! index) ++ delta))
        as [Hlo Hhi].
      eapply (bounded_alter c); [done| | |reflexivity].
      * by apply Qle_trans with 60%Q.
      * by apply Qle_trans with 95%Q.
    + by apply (bounded_insert c _ index {| status := Error; progress := 0 |}).
Qed.

Lemma generateVariation_bounded k c : bounded c -> bounded (generateVariation props k c).
Proof.
  intros Hb. unfold generateVariation. destruct (3 <=? k)%nat; [done|].
  by apply (bounded_insert c _ k {| status := Loading; progress := 5 |}).
Qed.

Lemma step_bounded c i : bounded c -> bounded (step props c i).
Proof.
  intros Hb. destruct i as [index d|index| |]; cbn [step].
  - destruct (is_open c index); [by apply onmessage_bounded | done].
  - destruct (is_open c index); [|done].
    by apply (bounded_insert c _ index {| status := Error; progress := 0 |}).
  - destruct (timeouts c); [done | by apply generateVariation_bounded].
  - by destruct (isLoading c).
Qed.

Lemma run_bounded trace : forall c, bounded c -> bounded (run props c trace).
Proof.
  induction trace as [|i trace IH]; intros c Hb; [done|].
  rewrite run_cons. apply IH. by apply step_bounded.
Qed.

Lemma effect_bounded c : bounded (effect props c).
Proof.
  unfold effect. apply generateVariation_bounded.
  unfold bounded. cbn. by repeat constructor.
Qed.

(** C3 (amended). Progress is assigned, not maximised: a message on the open
    channel of a session sets that session's stored progress to the value its
    event carries (process_start 10, scraped_content 20, scraping_warning 25,
    variation_info 30, generation_starting 35, response.created 40,
    response.in_progress 50, web_search_call 60, a text delta
    min(60 + length/15, 95), text done 98, variation_complete and the sentinel
    100, error 0), leaves it unchanged when the event carries none, and never
    touches the progress of another session.  Stored values stay within 0 and
    100, so the sentinel and variation_complete never lower the progress, and
    neither does a text delta that follows a text delta. *)
Theorem progress_assigned_by_event (c0 : Component) (trace : list Input)
    (index : nat) (d : MessageData) :
  ready c0 ->
  let c := run props (effect props c0) trace in
  is_open c index = true ->
  let accumulated := default [] (accumulatedText c !! index) in
  (forall j, (0 <= progress_of c j)%Q /\ (progress_of c j <= 100)%Q)
  /\ (forall v, assigned_progress accumulated d = Some v ->
        progress_of (step props c (Message index d)) index = v)
  /\ (assigned_progress accumulated d = None ->
        progress_of (step props c (Message index d)) index = progress_of c index)
  /\ (forall j, j <> index ->
        progress_of (step props c (Message index d)) j = progress_of c j)
  /\ (assigned_progress accumulated d = Some 100%Q ->
        (progress_of c index <= progress_of (step props c (Message index d)) index)%Q)
  /\ (forall delta delta',
        let c1 := step props c
                    (Message index (msg_event (Wire.backend
                       (Wire.response_output_text_delta delta)))) in
        let c2 := step props c1
                    (Message index (msg_event (Wire.backend
                       (Wire.response_output_text_delta delta')))) in
        progress_of c1 index = delta_progress (accumulated ++ delta)
        /\ progress_of c2 index = delta_progress ((accumulated ++ delta) ++ delta')
        /\ (progress_of c1 index <= progress_of c2 index)%Q).
Proof.
  intros Hr c Ho accumulated.
  assert (Hs : shape c) by (apply run_shape; by apply effect_shape).
  assert (Hb : bounded c) by (apply run_bounded, effect_bounded).
  assert (Hi : (index < length (variationStates c))%nat).
  { apply is_open_lt in Ho. destruct Hs as (_ & _ & -> & H4 & _). by rewrite H4 in Ho. }
  assert (Hstep : forall d', step props c (Message index d') = onmessage props index d' c)
    by (intros d'; cbn [step]; by rewrite Ho).
  split; [intros j; by apply bounded_progress_of|].
  split; [|split; [|split; [|split]]].
  - intros v Hv. rewrite Hstep, onmessage_progress by done.
    fold accumulated. by rewrite Hv.
  - intros Hv. rewrite Hstep, onmessage_progress by done.
    fold accumulated. by rewrite Hv.
  - intros j Hj. rewrite Hstep. apply progress_of_other. by apply onmessage_other.
  - intros Hv. rewrite Hstep, onmessage_progress by done.
    fold accumulated. rewrite Hv. by apply bounded_progress_of.
  - intros delta delta'. cbn zeta. rewrite Hstep.
    set (c1 := onmessage props index _ c).
    assert (Ho1 : is_open c1 index = true) by exact Ho.
    assert (Hlen1 : (index < length (variationStates c1))%nat).
    { unfold c1. cbn. by rewrite length_alter. }
    assert (Hacc : accumulatedText c1 !! index = Some (accumulated ++ delta)).
    { unfold c1. cbn. rewrite list_lookup_insert_eq; [done|].
      destruct Hs as (_ & _ & H3 & _ & H5 & _). rewrite H5. by rewrite H3 in Hi. }
    assert (H1 : progress_of c1 index = delta_progress (accumulated ++ delta)).
    { unfold c1. by rewrite onmessage_progress. }
    assert (H2 : progress_of (step props c1 (Message index (msg_event (Wire.backend
                    (Wire.response_output_text_delta delta'))))) index
                 = delta_progress ((accumulated ++ delta) ++ delta')).
    { cbn [step]. rewrite Ho1, onmessage_progress by done. by rewrite Hacc. }
    split; [exact H1|]. split; [exact H2|].
    rewrite H1, H2. apply delta_progress_mono.
Qed.

(** ** Errors and cancellation *)

Lemma contains_middle (a b d : list N) : contains (a ++ b ++ d) b.
Proof. by exists a, d. Qed.

Lemma contains_nil (s : list N) : contains s [].
Proof. by exists [], s. Qed.

Lemma fallbackContent_contains index :
  contains (fallbackContent props index) (Number_toString (index + 1))
  /\ (forall t, scrapedContent_title props = Some t ->
        contains (fallbackContent props index) t).
Proof.
  unfold fallbackContent. split.
  - apply contains_middle.
  - intros t Ht. rewrite Ht. cbn [or_default]. unfold or_else.
    destruct t as [|ch t]; cbn [truthy].
    + apply contains_nil.
    + exists (lit "バリエーション " ++ Number_toString (index + 1)
              ++ lit " の生成に失敗しました。" ++ LF ++ LF),
             (lit "についての情報は元の記事をご覧ください。").
      by rewrite <- !app_assoc.
Qed.

(** What [handleVariationError] does with an [error] event on the open channel
    of session [i], in a run that is not cancelled: the content it stores for
    [i] is the fallback string, which contains the number [i+1] and the
    article title; the session is left in [Error] and the settle timeout for
    [i+1] is set; and when the channels of the sessions after [i] each deliver
    a message that ends the session, each of them is started and ends
    [Complete] or [Error]. *)
Lemma error_event_fallback_and_next_sessions (c0 : Component) (trace : list Input)
    (i : nat) (errorMessage : JSString) :
  ready c0 ->
  no_cancel trace ->
  let c := run props (effect props c0) trace in
  is_open c i = true ->
  let c' := step props c (Message i (msg_event (Wire.error errorMessage))) in
  streamedContents c' !! i = Some (fallbackContent props i)
  /\ fallbackContent props i
     = lit "バリエーション " ++ Number_toString (i + 1) ++ lit " の生成に失敗しました。"
       ++ LF ++ LF ++ or_default (scrapedContent_title props) (lit "この記事")
       ++ lit "についての情報は元の記事をご覧ください。"
  /\ contains (fallbackContent props i) (Number_toString (i + 1))
  /\ (forall t, scrapedContent_title props = Some t -> contains (fallbackContent props i) t)
  /\ status_of c' i = Some Error
  /\ timeouts c' = [(i + 1)%nat]
  /\ (forall feeds,
        length feeds = (2 - i)%nat -> Forall terminating feeds ->
        let c'' := run props c' (sessions (i + 1) feeds) in
        status_of c'' i = Some Error
        /\ forall j, (i < j < 3)%nat ->
             (exists s, status_of c'' j = Some s /\ terminal s = true)
             /\ exists t1 t2,
                  sessions (i + 1) feeds = t1 ++ t2
                  /\ is_open (run props c' t1) j = true
                  /\ status_of (run props c' t1) j = Some Loading).
Proof.
  intros Hr Hnc c Ho c'.
  assert (Hinv : run_invariant props c)
    by (apply run_run_invariant; [exact Hnc | by apply effect_run_invariant]).
  destruct Hinv as (Hs & [(i0 & Hst & Hl & Hc) | [(k & (_ & Hn & _) & _) | ((Hn & _) & _)]]);
    [|by destruct (no_open_not_open c i Hn Ho)..].
  assert (i = i0) as <- by (by apply (streaming_open_unique i0 c)).
  assert (Hi : (i < 3)%nat) by (by destruct Hst).
  assert (Hc' : c' = handleVariationError props i errorMessage c).
  { unfold c'. cbn [step]. by rewrite Ho. }
  pose proof Hs as (H1 & H2 & H3 & H4 & H5 & H6 & H7).
  assert (Hset : settling (i + 1) c').
  { rewrite Hc'. by apply (streaming_closed_settling i c). }
  assert (Hs' : shape c') by (by apply step_shape).
  assert (Hst' : status_of c' i = Some Error).
  { rewrite Hc'. unfold status_of. cbn. by rewrite list_lookup_insert_eq by lia. }
  destruct (fallbackContent_contains i) as [Hnum Htitle].
  split; [rewrite Hc'; cbn; by rewrite list_lookup_insert_eq by lia|].
  split; [reflexivity|]. split; [exact Hnum|]. split; [exact Htitle|].
  split; [exact Hst'|].
  split; [by destruct Hset as (_ & _ & ?)|].
  intros feeds Hlen Hall.
  destruct (sessions_run feeds (i + 1) c' Hs' Hset ltac:(lia) Hall)
    as (_ & _ & _ & _ & I5 & I6).
  split.
  - cbn zeta. rewrite I6 by lia. exact Hst'.
  - intros j Hj. apply I5. lia.
Qed.

(** After a cancellation with a channel open, nothing can happen any more. *)
Lemma cancelled_is_final c later :
  no_open c -> timeouts c = [] -> isLoading c = false -> run props c later = c.
Proof.
  intros Hn Ht Hl. induction later as [|i later IH]; [done|].
  rewrite run_cons.
  replace (step props c i) with c; [exact IH|].
  destruct i as [index d|index| |]; cbn [step]; by rewrite ?Hn, ?Ht, ?Hl.
Qed.

(** A cancellation while a channel is open ends the request: that channel is
    closed (as is every other), [onStreamError] is called once with the
    cancellation message, and that call is all the caller ever gets:
    whatever happens afterwards changes nothing, so [onStreamComplete] is
    not called, before or after.  [handleCancelStream] gets this from closing
    the channels; between two sessions no channel is open and the request
    is held by the pending timeout, which it does not clear. *)
Theorem cancel_mid_stream_no_result (c0 : Component) (trace : list Input) (i : nat) :
  ready c0 ->
  no_cancel trace ->
  let c := run props (effect props c0) trace in
  is_open c i = true ->
  let c' := step props c CancelClick in
  eventSourceRefs c' !! i = Some es_closed
  /\ no_open c'
  /\ callbacks c' = [onStreamError (lit "ストリーミングがキャンセルされました")]
  /\ (forall later, run props c' later = c')
  /\ (forall later variations,
        ~ In (onStreamComplete variations) (callbacks (run props c' later)))
  /\ (forall later,
        length (List.filter (fun cb => negb (is_complete_call cb))
                  (callbacks (run props c' later))) = 1%nat).
Proof.
  intros Hr Hnc c Ho c'.
  assert (Hinv : run_invariant props c)
    by (apply run_run_invariant; [exact Hnc | by apply effect_run_invariant]).
  destruct Hinv as (Hs & [(i0 & Hst & Hl & Hc) | [(k & (_ & Hn & _) & _) | ((Hn & _) & _)]]);
    [|by destruct (no_open_not_open c i Hn Ho)..].
  assert (Hc' : c' = handleCancelStream c).
  { unfold c'. cbn [step]. by rewrite Hl. }
  assert (Hn' : no_open c').
  { intros j. rewrite Hc'. by apply (is_open_map_close c). }
  assert (Ht' : timeouts c' = []) by (rewrite Hc'; by destruct Hst as (_ & _ & ?)).
  assert (Hl' : isLoading c' = false) by (by rewrite Hc').
  assert (Hcb : callbacks c' = [onStreamError (lit "ストリーミングがキャンセルされました")]).
  { rewrite Hc'. cbn. by rewrite Hc. }
  assert (Hfinal : forall later, run props c' later = c')
    by (intros later; by apply cancelled_is_final).
  split.
  { rewrite Hc'. cbn.
    change (map close (eventSourceRefs c)) with (close <$> eventSourceRefs c).
    rewrite list_lookup_fmap. unfold is_open in Ho.
    destruct (eventSourceRefs c !! i) as [[]|]; done. }
  split; [exact Hn'|]. split; [exact Hcb|]. split; [exact Hfinal|].
  split.
  - intros later variations. rewrite Hfinal, Hcb. intros [Heq|[]]. discriminate Heq.
  - intros later. by rewrite Hfinal, Hcb.
Qed.

End ClientFacts.

(* ===================================================================== *)
(** * The client at concrete runs *)
(* ===================================================================== *)

Section ClientRuns.
Import Client ClientProps.

Lemma ready_mount : ready mount.
Proof.
  repeat split; try reflexivity.
  intros [|[|[|n]]]; reflexivity.
Qed.

Example first_request_three_sessions :
  let c := run example_props (effect example_props mount)
             (request_trace [ev_delta "Hello"; msg_DONE] [ev_error] [msg_DONE]) in
  map status (variationStates c) = [Complete; Error; Complete]
  /\ exists v1 v2 v3, callbacks c = [onStreamComplete [v1; v2; v3]].
Proof. split; [reflexivity|]. eexists _, _, _. reflexivity. Qed.


(** Counterexample to C3 as stated: after [generation_starting] has set the
    progress of session 0 to 35, the generator's [variation_info] sets it to
    30 and an [error] event sets it to 0. *)
Lemma progress_lowered_by_variation_info_and_error :
  let c := run example_props (effect example_props mount)
             [Message 0 ev_generation_starting] in
  progress_of c 0 = 35%Q
  /\ progress_of (step example_props c (Message 0 ev_variation_info)) 0 = 30%Q
  /\ progress_of (step example_props c (Message 0 ev_error)) 0 = 0%Q
  /\ ~ progress_never_lowered.
Proof.
  split; [reflexivity|]. split; [reflexivity|]. split; [reflexivity|].
  intros H.
  specialize (H example_props mount [Message 0 ev_generation_starting]
                (Message 0 ev_variation_info) 0%nat ready_mount).
  vm_compute in H. by apply H.
Qed.

(** C3 (amended) at the same run: [variation_info] after
    [generation_starting] leaves the progress at its own 30. *)
Lemma progress_assigned_by_event_witness :
  progress_of
    (step example_props
       (run example_props (effect example_props mount) [Message 0 ev_generation_starting])
       (Message 0 ev_variation_info)) 0
  = 30%Q.
Proof.
  refine (proj1 (proj2
            (progress_assigned_by_event example_props mount
               [Message 0 ev_generation_starting] 0 ev_variation_info
               ready_mount eq_refl)) 30%Q eq_refl).
Defined.

(** C4. The fallback text does not reach the aggregated result.  At a first
    request whose first channel delivers an [error] event,
    [handleVariationError] stores the fallback text for variation 1 and the
    sessions 2 and 3 are started and end [Complete]; but the text delta of
    session 2 rebuilds [streamedContents] from the array of the render that
    started the run, and [onStreamComplete] receives the entries of that
    array, three empty contents, not the fallback. *)
Theorem error_fallback_lost_in_aggregation :
  let start := effect example_props mount in
  let after_error := step example_props start (Message 0 ev_error) in
  let finished :=
    run example_props start
      (request_trace [ev_error] [ev_delta "Hello"; msg_DONE] [msg_DONE]) in
  streamedContents after_error !! 0%nat = Some (fallbackContent example_props 0)
  /\ map status (variationStates finished) = [Error; Complete; Complete]
  /\ streamedContents finished = [[]; lit "Hello"; []]
  /\ callbacks finished
     = [onStreamComplete (generatedContents example_props [[]; []; []])]
  /\ map Generator.content (generatedContents example_props [[]; []; []]) = [[]; []; []]
  /\ fallbackContent example_props 0 <> [].
Proof.
  cbn zeta.
  split; [vm_compute; reflexivity|]. split; [vm_compute; reflexivity|].
  split; [vm_compute; reflexivity|]. split; [vm_compute; reflexivity|].
  split; [reflexivity|]. vm_compute. discriminate.
Qed.

Example fallbackContent_example :
  fallbackContent example_props 0
  = lit "バリエーション 1 の生成に失敗しました。" ++ LF ++ LF
    ++ lit "Example Postについての情報は元の記事をご覧ください。".
Proof. vm_compute. reflexivity. Qed.

(** A cancellation during the first session, while its channel is open. *)
Lemma cancel_mid_stream_no_result_witness :
  callbacks
    (step example_props
       (run example_props (effect example_props mount) [Message 0 (ev_delta "Hello")])
       CancelClick)
  = [onStreamError (lit "ストリーミングがキャンセルされました")].
Proof.
  refine (proj1 (proj2 (proj2
            (cancel_mid_stream_no_result example_props mount
               [Message 0 (ev_delta "Hello")] 0 ready_mount eq_refl eq_refl)))).
Defined.

(** C6. A cancellation between two sessions does not end the request.  At a
    first request whose first session has ended with the sentinel, the
    500 ms timeout that starts the second session is pending, the component
    is loading and so renders the cancel button.  A click on it closes the
    channels and calls [onStreamError] with the cancellation message, but
    the timeout stays: when it fires, the second channel is opened and its
    session is [Loading]; and when the second and third session have ended,
    [finishAllVariations] calls [onStreamComplete] with three entries,
    after the cancellation. *)
Theorem cancel_in_settle_delay_still_completes :
  let start := effect example_props mount in
  let between := run example_props start [Message 0 msg_DONE] in
  let clicked := step example_props between CancelClick in
  let resumed := step example_props clicked TimeoutFires in
  let finished :=
    run example_props resumed
      [Message 1 msg_DONE; TimeoutFires; Message 2 msg_DONE; TimeoutFires] in
  (isLoading between = true
   /\ is_open between 0 = false
   /\ timeouts between = [1%nat])
  /\ (callbacks clicked = [onStreamError (lit "ストリーミングがキャンセルされました")]
      /\ isLoading clicked = false
      /\ timeouts clicked = [1%nat])
  /\ (is_open resumed 1 = true
      /\ status_of resumed 1 = Some Loading)
  /\ map status (variationStates finished) = [Complete; Complete; Complete]
  /\ callbacks finished
     = [onStreamError (lit "ストリーミングがキャンセルされました");
        onStreamComplete (generatedContents example_props [[]; []; []])]
  /\ length (generatedContents example_props [[]; []; []]) = 3%nat.
Proof.
  cbn zeta.
  split; [split_and!; vm_compute; reflexivity|].
  split; [split_and!; vm_compute; reflexivity|].
  split; [split_and!; vm_compute; reflexivity|].
  split_and!; vm_compute; reflexivity.
Qed.

End ClientRuns.

(* ===================================================================== *)
(** * More of the content generator *)
(* ===================================================================== *)

Section GeneratorMoreFacts.
Import Wire Markdown Generator GeneratorMore.

(** ** Blank text *)







(** ** The Chat Completions loop *)

(** X1. The Chat Completions revision of [generateLineContent] makes its
    three calls without retry: it returns exactly three variations, the
    [i]-th holding the text of call [i] as it came (the empty string for a
    missing text) with its markdown, unless a call throws; then it rejects
    with the wrapped message of the first call that threw, and makes no
    further call. *)
Theorem generateLineContent_chat_three_or_first_error (create : ChatBackend)
    (selected_images : list JSString) (blog_url : option JSString) :
  match generateLineContent_chat create selected_images blog_url with
  | Normal variations =>
    length variations = 3%nat
    /\ forall i, (i < 3)%nat ->
         exists answer,
           create i = Normal answer
           /\ variations !! i
              = Some {| content := or_default answer [];
                        markdown := _formatAsMarkdown (or_default answer [])
                                      (Some selected_images) blog_url |}
  | Thrown message =>
    exists i original,
      (i < 3)%nat
      /\ create i = Thrown original
      /\ message = lit "OpenAI APIでのコンテンツ生成に失敗しました: " ++ original
      /\ forall j, (j < i)%nat -> exists answer, create j = Normal answer
  end.
Proof.
  unfold generateLineContent_chat. cbn [chat_variations].
  destruct (create 0%nat) as [a0|m0] eqn:E0.
  - destruct (create 1%nat) as [a1|m1] eqn:E1.
    + destruct (create 2%nat) as [a2|m2] eqn:E2.
      * split; [reflexivity|].
        intros [|[|[|i]]] Hi; try lia; eexists; (split; [eassumption | reflexivity]).
      * exists 2%nat, m2. repeat split; try done; try lia.
        intros [|[|j]] Hj; try lia; by eexists.
    + exists 1%nat, m1. repeat split; try done; try lia.
      intros [|j] Hj; try lia; by eexists.
  - exists 0%nat, m0. repeat split; try done; try lia.
Qed.

(** ** The Responses API loop *)

Lemma variations_loop_invariant fuel create imgs url :
  forall calls i vs result,
    (i <= 3)%nat -> length vs = i ->
    Forall (fun v => nonblank (content v)
                     /\ markdown v = _formatAsMarkdown (content v) (Some imgs) url) vs ->
    variations_loop fuel create imgs url calls i vs = Returned result ->
    length result = 3%nat
    /\ Forall (fun v => nonblank (content v)
                        /\ markdown v = _formatAsMarkdown (content v) (Some imgs) url)
              result.
Proof.
  induction fuel as [|fuel IH]; intros calls i vs result Hi Hlen Hall Hres; [done|].
  cbn [variations_loop] in Hres.
  destruct (3 <=? i)%nat eqn:E.
  - apply Nat.leb_le in E. inversion Hres; subst. split; [lia | done].
  - apply Nat.leb_gt in E.
    destruct (create calls i) as [response|m]; [|done].
    destruct (length (trim (extract_content (output response) [])) =? 0)%nat eqn:Eb.
    + by apply (IH _ _ _ _ Hi Hlen Hall Hres).
    + assert (Hi' : (S i <= 3)%nat) by lia.
      apply (IH _ _ _ _ Hi') in Hres; [done| |].
      * rewrite length_app. cbn. lia.
      * apply Forall_app. split; [done|]. apply Forall_singleton. cbn. split; [|done].
        apply Nat.eqb_neq in Eb. unfold nonblank. intros Hnil. by rewrite Hnil in Eb.
Qed.

(** X2. Whenever the Responses API revision of [generateLineContent]
    returns, it returns exactly three variations, none of them blank, each
    with the markdown formatted from its own content. *)
Theorem generateLineContent_returns_three_nonblank (fuel : nat) (create : Backend)
    (selected_images : list JSString) (blog_url : option JSString)
    (variations : list GeneratedContent) :
  generateLineContent fuel create selected_images blog_url = Returned variations ->
  length variations = 3%nat
  /\ Forall (fun v => nonblank (content v)
                      /\ markdown v
                         = _formatAsMarkdown (content v) (Some selected_images) blog_url)
            variations.
Proof.
  intros H.
  apply (variations_loop_invariant fuel create selected_images blog_url 0 0 [] variations);
    [lia | reflexivity | apply Forall_nil_2 | exact H].
Qed.

Lemma variations_loop_done fuel create imgs url calls vs :
  variations_loop (S fuel) create imgs url calls 3 vs = Returned vs.
Proof. reflexivity. Qed.

(** A response whose text is not blank adds a variation and moves on to the
    next index. *)
Lemma variations_loop_push fuel create imgs url calls i vs response :
  (i < 3)%nat ->
  create calls i = Normal response ->
  nonblank (extract_content (output response) []) ->
  variations_loop (S fuel) create imgs url calls i vs
  = variations_loop fuel create imgs url (S calls) (S i)
      (vs ++ [{| content := extract_content (output response) [];
                 markdown := _formatAsMarkdown (extract_content (output response) [])
                               (Some imgs) url |}]).
Proof.
  intros Hi Hc Hne. cbn [variations_loop].
  destruct (3 <=? i)%nat eqn:E; [apply Nat.leb_le in E; lia|].
  rewrite Hc.
  destruct (trim (extract_content (output response) [])) eqn:Et; [by destruct Hne|].
  reflexivity.
Qed.

Lemma blank_then_text_blank e text calls i :
  (calls < e)%nat ->
  blank_then_text e text calls i = Normal {| output := [item_message assistant []] |}.
Proof.
  intros H. unfold blank_then_text.
  destruct (calls <? e)%nat eqn:Ec; [done | apply Nat.ltb_ge in Ec; lia].
Qed.

Lemma blank_then_text_text e text calls i :
  (e <= calls)%nat ->
  blank_then_text e text calls i
  = Normal {| output := [item_message assistant [output_text text]] |}.
Proof.
  intros H. unfold blank_then_text.
  destruct (calls <? e)%nat eqn:Ec; [apply Nat.ltb_lt in Ec; lia | done].
Qed.

Lemma variations_loop_blank_then_text e text imgs url :
  nonblank text ->
  forall todo calls i vs,
    (i + todo = 3)%nat -> (e <= calls)%nat ->
    variations_loop (S todo) (blank_then_text e text) imgs url calls i vs
    = Returned (vs ++ replicate todo
                        {| content := text;
                           markdown := _formatAsMarkdown text (Some imgs) url |}).
Proof.
  intros Hne. induction todo as [|todo IH]; intros calls i vs Hi Hcalls.
  - replace i with 3%nat by lia. rewrite variations_loop_done. cbn. by rewrite app_nil_r.
  - rewrite (variations_loop_push _ _ _ _ _ _ _
               {| output := [item_message assistant [output_text text]] |});
      [|lia|by apply blank_then_text_text|exact Hne].
    cbn [output extract_content first_output_text].
    rewrite IH by lia. cbn [replicate]. by rewrite <- app_assoc.
Qed.

Lemma variations_loop_blank_prefix e text imgs url :
  forall fuel calls vs,
    (calls + fuel <= e)%nat ->
    variations_loop fuel (blank_then_text e text) imgs url calls 0 vs = OutOfFuel.
Proof.
  induction fuel as [|fuel IH]; intros calls vs Hle; [done|].
  rewrite (variations_loop_retry fuel _ imgs url calls 0 vs
             {| output := [item_message assistant []] |});
    [apply IH; lia | lia | apply blank_then_text_blank; lia | reflexivity].
Qed.

Lemma variations_loop_skip_blank e text imgs url :
  forall k calls fuel vs,
    (calls + k <= e)%nat ->
    variations_loop (k + fuel) (blank_then_text e text) imgs url calls 0 vs
    = variations_loop fuel (blank_then_text e text) imgs url (calls + k) 0 vs.
Proof.
  induction k as [|k IH]; intros calls fuel vs Hle.
  - by rewrite Nat.add_0_r.
  - cbn [Nat.add].
    rewrite (variations_loop_retry (k + fuel) _ imgs url calls 0 vs
               {| output := [item_message assistant []] |});
      [|lia|apply blank_then_text_blank; lia|reflexivity].
    rewrite IH by lia. f_equal. lia.
Qed.

(** With text from call [e] on, fewer than four iterations do not get
    through the three variations. *)
Lemma variations_loop_text_short e text imgs url :
  nonblank text ->
  forall fuel calls i vs,
    (e <= calls)%nat -> (i + fuel <= 3)%nat ->
    variations_loop fuel (blank_then_text e text) imgs url calls i vs = OutOfFuel.
Proof.
  intros Hne. induction fuel as [|fuel IH]; intros calls i vs Hc Hi; [done|].
  rewrite (variations_loop_push _ _ _ _ _ _ _
             {| output := [item_message assistant [output_text text]] |});
    [|lia|by apply blank_then_text_text|exact Hne].
  apply IH; lia.
Qed.

(** X3. The empty-content retry ends as soon as the backend answers with
    text: against a backend that answers blank [e] times and then always with
    a non-blank text, the loop returns the three variations after exactly
    [e + 3] calls: [e + 3] iterations are not enough, [e + 4] are, the last
    one only leaving the loop. *)
Theorem generateLineContent_returns_after_blank_answers (e : nat) (text : JSString)
    (selected_images : list JSString) (blog_url : option JSString) :
  nonblank text ->
  let v := {| content := text;
              markdown := _formatAsMarkdown text (Some selected_images) blog_url |} in
  generateLineContent (e + 4) (blank_then_text e text) selected_images blog_url
  = Returned [v; v; v]
  /\ forall fuel, (fuel <= e + 3)%nat ->
       generateLineContent fuel (blank_then_text e text) selected_images blog_url
       = OutOfFuel.
Proof.
  intros Hne v. unfold generateLineContent. split.
  - rewrite (variations_loop_skip_blank e text selected_images blog_url e 0 4 []) by lia.
    cbn [Nat.add].
    by rewrite (variations_loop_blank_then_text e text selected_images blog_url Hne
                  3 e 0 [] ltac:(lia) ltac:(lia)).
  - intros fuel Hfuel.
    destruct (decide (fuel <= e)%nat) as [Hle|Hgt].
    + apply variations_loop_blank_prefix. lia.
    + replace fuel with (e + (fuel - e))%nat by lia.
      rewrite (variations_loop_skip_blank e text selected_images blog_url e 0 (fuel - e) [])
        by lia.
      apply variations_loop_text_short; [exact Hne | lia | lia].
Qed.

(** For three iterations. *)
Lemma generateLineContent_returns_three_nonblank_witness :
  length [ {| content := lit "hello"; markdown := lit "hello" |};
           {| content := lit "hello"; markdown := lit "hello" |};
           {| content := lit "hello"; markdown := lit "hello" |} ] = 3%nat.
Proof.
  refine (proj1 (generateLineContent_returns_three_nonblank 4 (always_text (lit "hello"))
                   [] None _ _)).
  vm_compute. reflexivity.
Defined.

(** For two blank answers before the text. *)
Lemma generateLineContent_returns_after_blank_answers_witness :
  generateLineContent 5 (blank_then_text 2 (lit "hello")) [] None = OutOfFuel.
Proof.
  refine (proj2 (generateLineContent_returns_after_blank_answers 2 (lit "hello") [] None _)
                5%nat _).
  - vm_compute. discriminate.
  - lia.
Defined.

(** ** All variations, streamed *)






End GeneratorMoreFacts.

(* ===================================================================== *)
(** * The web search never reaches the prompt *)
(* ===================================================================== *)

Section WebSearchFacts.
Import WebSearch.

Example web_search_section_of_summary :
  web_search_section
    (Some {| topic := lit "t"; info_search_results := failed (lit "e") (lit "s") [] |})
  = web_search_section_text (lit "s").
Proof. reflexivity. Qed.

(** X5. Whatever the search call does, the web search section that
    [_buildPrompt] derives from the result of [enhanceContentWithWebSearch]
    is empty: a successful search nests its summary one level deeper than
    [_buildPrompt] reads, and a failed one has the empty summary.  So the
    prompts of [generateLineContent] and [generateLineContentStream] never
    contain search results. *)
Theorem web_search_section_always_empty
    (use_web_search : bool) (create : JSString -> Completion (option JSString))
    (company_name scraped_title : JSString) :
  web_search_section
    (web_search_info_for_prompt use_web_search create company_name scraped_title)
  = []
  /\ forall summary_text,
       create (company_name ++ lit " " ++ scraped_title) = Normal (Some summary_text) ->
       use_web_search = true ->
       exists info,
         web_search_info_for_prompt use_web_search create company_name scraped_title
         = Some info
         /\ info_search_results info
            = found {| summary := or_else summary_text []; citations := [] |}
         /\ get_summary (info_search_results info) = None.
Proof.
  split.
  - unfold web_search_info_for_prompt, enhanceContentWithWebSearch, searchRelatedInfo.
    destruct use_web_search; [|reflexivity].
    cbn [web_search_section info_search_results].
    by destruct (create _).
  - intros summary_text Hc ->.
    unfold web_search_info_for_prompt, enhanceContentWithWebSearch, searchRelatedInfo.
    rewrite Hc. eexists. split; [reflexivity|]. split; reflexivity.
Qed.

End WebSearchFacts.


(* ===================================================================== *)
(** * The POST endpoint *)
(* ===================================================================== *)

Section PostHandlerFacts.
Import Scraper Generator PostHandler.

Lemma respond_scrape_calls w body imgs a calls :
  scrape_calls (respond w body imgs a calls) = calls.
Proof.
  unfold respond. destruct (default false (stream body)); [done|].
  by destruct (generateLineContent w _ _ _).
Qed.

(** What [respond] does, by the stream flag and the generator's outcome. *)
Lemma respond_cases w body imgs a calls :
  let out := respond w body imgs a calls in
  let search := default true (use_web_search body) in
  let call := {| g_scraped_content := article a; g_selected_images := imgs;
                 g_use_web_search := search |} in
  (default false (stream body) = true
   /\ out = {| reply := redirect {| rd_blog_url := blog_url body;
                                    rd_selected_images := imgs;
                                    rd_use_web_search := search;
                                    rd_scraped_content := a |};
               scrape_calls := calls; generate_calls := [] |})
  \/ (default false (stream body) = false
      /\ exists options,
           generateLineContent w (article a) imgs search = Normal options
           /\ out = {| reply := response a options;
                       scrape_calls := calls; generate_calls := [call] |})
  \/ (default false (stream body) = false
      /\ exists errorMessage,
           generateLineContent w (article a) imgs search = Thrown errorMessage
           /\ out = {| reply := generation_failed errorMessage;
                       scrape_calls := calls; generate_calls := [call] |}).
Proof.
  cbn zeta. unfold respond. destruct (default false (stream body)); [by left|].
  destruct (generateLineContent w (article a) imgs _) as [options|m] eqn:E.
  - right; left. split; [done|]. by exists options.
  - right; right. split; [done|]. by exists m.
Qed.

(** The paths of the handler: the request is not served; or it is and the
    handler gets no article; or it gets one and responds. *)
Lemma handler_cases w method body :
  (~ served w method body
   /\ scrape_calls (handler w method (body_object body)) = []
   /\ generate_calls (handler w method (body_object body)) = []
   /\ (reply (handler w method (body_object body)) = method_not_allowed /\ method <> Relay.POST
       \/ method = Relay.POST
          /\ exists message, reply (handler w method (body_object body)) = detail 500 message))
  \/ (served w method body
      /\ (forall a, ~ working_article w body a)
      /\ generate_calls (handler w method (body_object body)) = []
      /\ ((exists existing errorMessage,
             usable (scraped_content body) = Some existing
             /\ images_length existing = Thrown errorMessage
             /\ reply (handler w method (body_object body)) = generation_failed errorMessage
             /\ scrape_calls (handler w method (body_object body)) = [])
          \/ (exists errorMessage,
                usable (scraped_content body) = None
                /\ BlogScraper_scrape w (blog_url body) = Thrown errorMessage
                /\ reply (handler w method (body_object body))
                   = detail 500 (lit "記事のスクレイピングに失敗しました: " ++ errorMessage)
                /\ scrape_calls (handler w method (body_object body)) = [blog_url body])))
  \/ (served w method body
      /\ exists a,
           working_article w body a
           /\ handler w method (body_object body)
              = respond w body (selected_list body) a
                  (match usable (scraped_content body) with
                   | Some _ => []
                   | None => [blog_url body]
                   end)).
Proof.
  unfold served, selected_list, handler. cbn beta iota.
  destruct method; try (left; split_and!; try done; [by intros (? & _) | by left]).
  destruct (truthy (default [] (OPENAI_API_KEY w))) eqn:Ek;
    [|left; split_and!; try done; [by intros (_ & ? & _) | right; split; [done | by eexists]]].
  assert (Hsel : selected_images body = Some images_null
                 \/ exists sel, selected_images body <> Some images_null
                                /\ default (images_array []) (selected_images body)
                                   = images_array sel).
  { destruct (selected_images body) as [[|sel]|]; [by left | right..].
    - by exists sel.
    - by exists []. }
  destruct Hsel as [Hnull | (sel & Hnn & ->)].
  { rewrite Hnull. cbn [default from_option id]. left.
    split_and!; try done; [by intros (_ & _ & ?) | right; split; [done | by eexists]]. }
  right.
  destruct (usable (scraped_content body)) as [e|] eqn:Eu.
  - destruct (images_length e) as [images|m] eqn:Ei.
    + right. split; [done|]. eexists. split; [|reflexivity].
      left. exists e, images. split; [done|]. split; [|done].
      unfold images_length in Ei. destruct (given_images e) as [[|im]|]; by simplify_eq.
    + left. split_and!; try done.
      * intros a [(e' & im & He & Him & _) | (Hn & _)]; [|congruence].
        rewrite Eu in He. injection He as <-.
        unfold images_length in Ei. by rewrite Him in Ei.
      * left. by exists e, m.
  - destruct (BlogScraper_scrape w (blog_url body)) as [sc|m] eqn:Esc.
    + right. split; [done|]. eexists. split; [|reflexivity].
      right. split; [done|]. by exists sc.
    + left. split_and!; try done.
      * intros a [(e' & im & He & _) | (_ & sc & Hsc & _)]; congruence.
      * right. by exists m.
Qed.

Lemma working_article_unique w body a a' :
  working_article w body a -> working_article w body a' -> a = a'.
Proof.
  intros [(e & im & He & Hi & ->) | (Hn & sc & Hs & ->)]
         [(e' & im' & He' & Hi' & ->) | (Hn' & sc' & Hs' & ->)]; congruence.
Qed.

(** X6. The POST endpoint runs the scraper only when it has to.  For a
    request that is served (a POST with the API key set, whose body is an
    object with [selected_images] not [null]) and has no usable pre-scraped
    article (one with a non-empty title and content) it scrapes the
    request's URL, once; in every other case, a [null] body among them, it
    does not scrape.  When a usable article with an images array came with
    the request, the response or the redirect carries that article; a usable
    article without images array makes the handler answer 500 without
    generating, by the [TypeError] of the log line that reads
    [scraped_content.images.length]. *)
Theorem post_handler_scrapes_only_without_article (w : World) (method : Relay.Method)
    (body : Body) :
  let out := handler w method (body_object body) in
  (scrape_calls out = [blog_url body]
   <-> served w method body /\ usable (scraped_content body) = None)
  /\ (scrape_calls out = [] \/ scrape_calls out = [blog_url body])
  /\ (forall existing images,
        served w method body ->
        usable (scraped_content body) = Some existing ->
        given_images existing = Some (images_array images) ->
        let carried := {| article := {| title := given_title existing;
                                        Scraper.content := given_content existing;
                                        images := images |};
                          _originalUrl := Some <$> given_originalUrl existing |} in
        scrape_calls out = []
        /\ match reply out with
           | response a _ => a = carried
           | redirect rd => rd_scraped_content rd = carried
           | detail status _ => status = 500%nat /\ generate_calls out <> []
           | method_not_allowed => False
           end)
  /\ (forall existing,
        served w method body ->
        usable (scraped_content body) = Some existing ->
        given_images existing = None \/ given_images existing = Some images_null ->
        scrape_calls out = []
        /\ generate_calls out = []
        /\ exists errorMessage,
             reply out
             = detail 500 (lit "LINE配信コンテンツの生成に失敗しました: " ++ errorMessage))
  /\ scrape_calls (handler w method body_null) = [].
Proof.
  cbn zeta.
  assert (Hnull : scrape_calls (handler w method body_null) = []).
  { unfold handler. destruct method; try done.
    by destruct (truthy (default [] (OPENAI_API_KEY w))). }
  destruct (handler_cases w method body)
    as [(Hns & Hsc & Hgc & Hrep)
       | [(Hserved & Hnone & Hgc & [(e & m & Hu & Hi & Hrep & Hsc) | (m & Hu & Hs & Hrep & Hsc)])
         | (Hserved & a & Ha & Hh)]].
  - rewrite Hsc. split_and!; [split; [done | by intros [? _]] | by left | done..].
  - rewrite Hsc. split_and!; [| | | |exact Hnull].
    + split; [done|]. intros [_ Hn]. congruence.
    + by left.
    + intros existing images _ Hu' Him. exfalso.
      apply (Hnone (given existing images)).
      left. by exists existing, images.
    + intros existing _ Hu' _. split; [done|]. split; [done|]. by exists m.
  - rewrite Hsc. split_and!; [| | | |exact Hnull].
    + done.
    + by right.
    + intros existing images _ Hu' _. congruence.
    + intros existing _ Hu' _. congruence.
  - rewrite Hh, respond_scrape_calls. split_and!; [| | | |exact Hnull].
    + destruct (usable (scraped_content body)); [|done].
      split; [done | by intros [_ ?]].
    + destruct (usable (scraped_content body)); [by left | by right].
    + intros existing images _ Hu Him. rewrite Hu. split; [done|].
      assert (a = given existing images) as ->.
      { apply (working_article_unique w body); [done|]. left. by exists existing, images. }
      match goal with
      | |- context [respond w body ?l ?x ?calls] =>
        destruct (respond_cases w body l x calls)
          as [(_ & ->) | [(_ & options & _ & ->) | (_ & m & _ & ->)]]; done
      end.
    + intros existing _ Hu Him. exfalso.
      destruct Ha as [(e & im & He & Hi & _) | (Hn & _)]; [|congruence].
      rewrite Hu in He. injection He as <-. rewrite Hi in Him. by destruct Him.
Qed.

(** X7. The POST endpoint calls the generator at most once, and exactly when
    the request is served, is not in stream mode, and the handler has an
    article to work with: the usable article of the request, or what
    scraping returned.  So it does not generate for another method, without
    API key, for a [null] body, with [selected_images] [null], for a given
    article without images array, after a failed scrape, or in stream mode,
    where it answers with the redirect that carries the article and the
    defaulted options.
    The one call gets the article, the selected images and the search flag;
    a 200 response holds exactly what it returned, and when it throws the
    answer is 500 with the prefixed message.  Every answer with a detail is
    a 500. *)
Theorem post_handler_generates_at_most_once (w : World) (method : Relay.Method)
    (body : Body) :
  let out := handler w method (body_object body) in
  let images := selected_list body in
  let search := default true (use_web_search body) in
  let call a := {| g_scraped_content := article a; g_selected_images := images;
                   g_use_web_search := search |} in
  (length (generate_calls out) <= 1)%nat
  /\ (generate_calls out <> []
      <-> served w method body
          /\ default false (stream body) = false
          /\ exists a, working_article w body a)
  /\ (forall a,
        served w method body ->
        working_article w body a ->
        default false (stream body) = false ->
        generate_calls out = [call a]
        /\ match generateLineContent w (article a) images search with
           | Normal options => reply out = response a options
           | Thrown errorMessage =>
             reply out
             = detail 500 (lit "LINE配信コンテンツの生成に失敗しました: " ++ errorMessage)
           end)
  /\ (forall a,
        served w method body ->
        working_article w body a ->
        default false (stream body) = true ->
        generate_calls out = []
        /\ reply out = redirect {| rd_blog_url := blog_url body;
                                   rd_selected_images := images;
                                   rd_use_web_search := search;
                                   rd_scraped_content := a |})
  /\ (forall a options,
        reply out = response a options ->
        served w method body
        /\ working_article w body a
        /\ default false (stream body) = false
        /\ generateLineContent w (article a) images search = Normal options)
  /\ (forall rd,
        reply out = redirect rd ->
        served w method body
        /\ working_article w body (rd_scraped_content rd)
        /\ default false (stream body) = true)
  /\ (reply out = method_not_allowed <-> method <> Relay.POST)
  /\ (forall status message, reply out = detail status message -> status = 500%nat)
  /\ (generate_calls (handler w method body_null) = []
      /\ (method = Relay.POST ->
          truthy (default [] (OPENAI_API_KEY w)) = true ->
          reply (handler w method body_null)
          = detail 500 (lit "LINE配信コンテンツの生成に失敗しました: "
                        ++ destructuring_null w))).
Proof.
  cbn zeta.
  assert (Hnull : generate_calls (handler w method body_null) = []
                  /\ (method = Relay.POST ->
                      truthy (default [] (OPENAI_API_KEY w)) = true ->
                      reply (handler w method body_null)
                      = generation_failed (destructuring_null w))).
  { unfold handler. split.
    - destruct method; try done.
      by destruct (truthy (default [] (OPENAI_API_KEY w))).
    - by intros -> ->. }
  destruct (handler_cases w method body)
    as [(Hns & Hsc & Hgc & Hrep)
       | [(Hserved & Hnone & Hgc & Hrep)
         | (Hserved & a & Ha & Hh)]].
  - rewrite Hgc. split_and!; [| | | | | | | |exact (proj1 Hnull)|exact (proj2 Hnull)].
    + cbn. lia.
    + split; [done | by intros (? & _)].
    + intros a Hs. done.
    + intros a Hs. done.
    + intros a options Hr. destruct Hrep as [(Hr' & _) | (_ & m & Hr')]; congruence.
    + intros rd Hr. destruct Hrep as [(Hr' & _) | (_ & m & Hr')]; congruence.
    + destruct Hrep as [(Hr' & Hm) | (Hm & m & Hr')]; [done|].
      rewrite Hr'. split; [done | by intros ?].
    + intros status message Hr.
      destruct Hrep as [(Hr' & _) | (_ & m & Hr')]; congruence.
  - assert (Hd : exists m, reply (handler w method (body_object body)) = detail 500 m).
    { destruct Hrep as [(e & m & _ & _ & Hr & _) | (m & _ & _ & Hr & _)];
        rewrite Hr; by eexists. }
    destruct Hd as (m & Hd). rewrite Hgc, Hd. split_and!; [| | | | | | | |exact (proj1 Hnull)|exact (proj2 Hnull)].
    + cbn. lia.
    + split; [done|]. intros (_ & _ & a & Ha). by destruct (Hnone a).
    + intros a _ Ha. by destruct (Hnone a).
    + intros a _ Ha. by destruct (Hnone a).
    + done.
    + done.
    + split; [done|]. intros Hm. by destruct Hserved.
    + intros status message [= <- _]. done.
  - assert (Hpost : reply (handler w method (body_object body)) = method_not_allowed
                    <-> method <> Relay.POST).
    { rewrite Hh. destruct Hserved as (-> & _).
      destruct (respond_cases w body (selected_list body) a
                  (match usable (scraped_content body) with
                   | Some _ => []
                   | None => [blog_url body]
                   end))
        as [(_ & ->) | [(_ & options & _ & ->) | (_ & m & _ & ->)]]; by split. }
    split_and!; [| | | | | |exact Hpost| |exact (proj1 Hnull)|exact (proj2 Hnull)]; rewrite Hh;
      destruct (respond_cases w body (selected_list body) a
                  (match usable (scraped_content body) with
                   | Some _ => []
                   | None => [blog_url body]
                   end))
        as [(Hst & ->) | [(Hst & options & Hg & ->) | (Hst & m & Hg & ->)]];
      cbn [reply generate_calls length]; try lia.
    + split; [done|]. intros (_ & ? & _). congruence.
    + split; [intros _|done]. split; [done|]. split; [done | by exists a].
    + split; [intros _|done]. split; [done|]. split; [done | by exists a].
    + intros a' _ Ha' Hst'. congruence.
    + intros a' _ Ha' _. rewrite <- (working_article_unique w body a a' Ha Ha').
      by rewrite Hg.
    + intros a' _ Ha' _. rewrite <- (working_article_unique w body a a' Ha Ha').
      by rewrite Hg.
    + intros a' _ Ha' _. by rewrite <- (working_article_unique w body a a' Ha Ha').
    + intros a' _ Ha' Hst'. congruence.
    + intros a' _ Ha' Hst'. congruence.
    + done.
    + intros a' options' [= <- <-]. done.
    + done.
    + intros rd [= <-]. done.
    + done.
    + done.
    + done.
    + done.
    + intros status message [= <- _]. done.
Qed.

End PostHandlerFacts.



(* ===================================================================== *)
(** * The scrape endpoint *)
(* ===================================================================== *)

Section ScrapeApiFacts.
Import Scraper ScrapeApi.

Lemma handler_reply_cases (w : World) (method : Relay.Method) (body : RequestBody) :
  (method <> Relay.POST
   /\ handler w method body = {| reply := method_not_allowed; scrape_calls := [] |})
  \/ (method = Relay.POST /\ body = body_null
      /\ handler w method body
         = {| reply := detail 500
                         (lit "ブログ記事のスクレイピングに失敗しました: "
                          ++ destructuring_null w);
              scrape_calls := [] |})
  \/ (method = Relay.POST /\ (body = body_object None \/ body = body_object (Some []))
      /\ handler w method body
         = {| reply := detail 400 (lit "URLが指定されていません"); scrape_calls := [] |})
  \/ (exists u, method = Relay.POST /\ body = body_object (Some u) /\ u <> []
      /\ URL_valid w u = false
      /\ handler w method body
         = {| reply := detail 422 (lit "有効なURLを入力してください"); scrape_calls := [] |})
  \/ (exists u original,
        method = Relay.POST /\ body = body_object (Some u) /\ u <> []
        /\ URL_valid w u = true
        /\ BlogScraper_scrape w u = Thrown original
        /\ handler w method body
           = {| reply := detail 500
                           (lit "ブログ記事のスクレイピングに失敗しました: " ++ original);
                scrape_calls := [u] |})
  \/ (exists u content,
        method = Relay.POST /\ body = body_object (Some u) /\ u <> []
        /\ URL_valid w u = true
        /\ BlogScraper_scrape w u = Normal content
        /\ handler w method body = {| reply := scraped content; scrape_calls := [u] |}).
Proof.
  destruct method; [by left | | by left].
  right. destruct body as [|[[|c0 r]|]].
  - by left.
  - right; left. split_and!; [done | by right | done].
  - right; right. unfold handler.
    destruct (URL_valid w (c0 :: r)) eqn:Ev; [|left; by exists (c0 :: r)].
    right. destruct (BlogScraper_scrape w (c0 :: r)) as [content|m] eqn:Es.
    + right. by exists (c0 :: r), content.
    + left. by exists (c0 :: r), m.
  - right; left. split_and!; [done | by left | done].
Qed.

(** X8. The scrape endpoint runs the scraper exactly for a POST whose body
    names a non-empty URL that [new URL] accepts, and then once, with that
    URL.  Each answer has its own condition: 405 exactly for another method;
    400 with its message exactly for a POST whose body is not [null] and has
    no URL or an empty one; 422 with its message exactly for a POST with a
    non-empty URL that [new URL] rejects; 500 exactly when the scraper is
    run and throws, or the body is [null] and cannot be destructured, with
    the prefixed message of that error; 200 exactly when the scraper
    returns, with what it returned.  No other status is answered. *)
Theorem scrape_handler_scrapes_valid_urls_only (w : World) (method : Relay.Method)
    (body : RequestBody) :
  let out := handler w method body in
  (forall u, scrape_calls out = [u]
             <-> method = Relay.POST /\ body = body_object (Some u) /\ u <> []
                 /\ URL_valid w u = true)
  /\ (length (scrape_calls out) <= 1)%nat
  /\ (forall content,
        reply out = scraped content <->
        exists u, method = Relay.POST /\ body = body_object (Some u) /\ u <> []
                  /\ URL_valid w u = true /\ BlogScraper_scrape w u = Normal content)
  /\ (reply out = method_not_allowed <-> method <> Relay.POST)
  /\ (forall message,
        reply out = detail 400 message <->
        method = Relay.POST
        /\ (body = body_object None \/ body = body_object (Some []))
        /\ message = lit "URLが指定されていません")
  /\ (forall message,
        reply out = detail 422 message <->
        exists u, method = Relay.POST /\ body = body_object (Some u) /\ u <> []
                  /\ URL_valid w u = false
                  /\ message = lit "有効なURLを入力してください")
  /\ (forall message,
        reply out = detail 500 message <->
        method = Relay.POST
        /\ exists original,
             message = lit "ブログ記事のスクレイピングに失敗しました: " ++ original
             /\ (body = body_null /\ original = destructuring_null w
                 \/ exists u, body = body_object (Some u) /\ u <> []
                              /\ URL_valid w u = true
                              /\ BlogScraper_scrape w u = Thrown original))
  /\ (forall status message,
        reply out = detail status message ->
        status = 400%nat \/ status = 422%nat \/ status = 500%nat).
Proof.
  cbn zeta.
  destruct (handler_reply_cases w method body)
    as [(Hm & ->)
       | [(Hm & Hu & ->)
         | [(Hm & Hu & ->)
           | [(u & Hm & Hu & Hne & Hv & ->)
             | [(u & original & Hm & Hu & Hne & Hv & Hs & ->)
               | (u & content & Hm & Hu & Hne & Hv & Hs & ->)]]]]];
    cbn [reply scrape_calls length].
  - split_and!.
    + intros u. split; [done | by intros (? & _)].
    + lia.
    + intros content. split; [done | by intros (u & ? & _)].
    + done.
    + intros message. split; [done | by intros (? & _)].
    + intros message. split; [done | by intros (u & ? & _)].
    + intros message. split; [done | by intros (? & _)].
    + done.
  - split_and!.
    + intros u. split; [done|]. intros (_ & Hu' & _). congruence.
    + lia.
    + intros content. split; [done|]. intros (u & _ & Hu' & _). congruence.
    + by rewrite Hm.
    + intros message. split; [done|]. intros (_ & [Hu' | Hu'] & _); congruence.
    + intros message. split; [done|]. intros (u & _ & Hu' & _). congruence.
    + intros message. split.
      * intros [= <-]. split; [done|]. exists (destructuring_null w).
        split; [done|]. by left.
      * intros (_ & o & -> & [(_ & ->) | (u & Hu' & _)]); [done | congruence].
    + intros status message [= <- _]. right. by right.
  - split_and!.
    + intros u. split; [done|]. intros (_ & Hu' & Hne & _). destruct Hu; congruence.
    + lia.
    + intros content. split; [done|]. intros (u & _ & Hu' & Hne & _).
      destruct Hu; congruence.
    + by rewrite Hm.
    + intros message. split; [by intros [= <-] | by intros (_ & _ & ->)].
    + intros message. split; [done|]. intros (u & _ & Hu' & Hne & _).
      destruct Hu; congruence.
    + intros message. split; [done|].
      intros (_ & o & _ & [(Hu' & _) | (u & Hu' & Hne & _)]); destruct Hu; congruence.
    + intros status message [= <- _]. by left.
  - split_and!.
    + intros u'. split; [done|]. intros (_ & Hu' & _ & Hv'). congruence.
    + lia.
    + intros content. split; [done|]. intros (u' & _ & Hu' & _ & Hv' & _). congruence.
    + by rewrite Hm.
    + intros message. split; [done|]. intros (_ & [Hu' | Hu'] & _); congruence.
    + intros message. split; [intros [= <-]; by exists u|].
      by intros (u' & _ & _ & _ & _ & ->).
    + intros message. split; [done|].
      intros (_ & o & _ & [(Hu' & _) | (u' & Hu' & _ & Hv' & _)]); congruence.
    + intros status message [= <- _]. right. by left.
  - split_and!.
    + intros u'. split; [by intros [= <-]|]. intros (_ & Hu' & _). congruence.
    + lia.
    + intros content. split; [done|]. intros (u' & _ & Hu' & _ & _ & Hs'). congruence.
    + by rewrite Hm.
    + intros message. split; [done|]. intros (_ & [Hu' | Hu'] & _); congruence.
    + intros message. split; [done|]. intros (u' & _ & Hu' & _ & Hv' & _). congruence.
    + intros message. split.
      * intros [= <-]. split; [done|]. exists original. split; [done|].
        right. by exists u.
      * intros (_ & o & -> & [(Hu' & _) | (u' & Hu' & _ & _ & Hs')]); congruence.
    + intros status message [= <- _]. right. by right.
  - split_and!.
    + intros u'. split; [by intros [= <-]|]. intros (_ & Hu' & _). congruence.
    + lia.
    + intros content'. split; [intros [= <-]; by exists u|].
      intros (u' & _ & Hu' & _ & _ & Hs'). congruence.
    + by rewrite Hm.
    + intros message. split; [done|]. intros (_ & [Hu' | Hu'] & _); congruence.
    + intros message. split; [done|]. intros (u' & _ & Hu' & _ & Hv' & _). congruence.
    + intros message. split; [done|].
      intros (_ & o & _ & [(Hu' & _) | (u' & Hu' & _ & _ & Hs')]); congruence.
    + done.
Qed.

End ScrapeApiFacts.

(* ===================================================================== *)
(** * The API client's retries *)
(* ===================================================================== *)

Section ApiClientFacts.
Import ApiClient.

(** X9. Under the response interceptor a request settles after at most three
    sendings, whatever the transport does: every sending but the last failed
    with an error that has its config and is worth a retry, the waits in
    between are 1000 ms and then 2000 ms, and the promise settles with the
    last sending's outcome.  A rejection comes from an error without config,
    from one not worth a retry, or from the third sending. *)
Theorem request_settles_within_three_sendings (answer : nat -> Answer) (fuel : nat) :
  (3 <= fuel)%nat ->
  exists out,
    request fuel answer = Some out
    /\ (1 <= sendings out <= 3)%nat
    /\ delays out = take (sendings out - 1) [1000; 2000]%nat
    /\ (forall n, (S n < sendings out)%nat ->
          exists e, answer n = Failed e /\ has_config e = true /\ shouldRetry e = true)
    /\ match settled out with
       | Resolved status => answer (sendings out - 1)%nat = Fulfilled status
       | Rejected e =>
         answer (sendings out - 1)%nat = Failed e
         /\ (has_config e = false \/ shouldRetry e = false \/ sendings out = 3%nat)
       end.
Proof.
  intros Hfuel.
  destruct fuel as [|[|[|fuel]]]; [lia..|]. clear Hfuel.
  unfold request. cbn [send].
  assert (H0 : forall n, (S n < 1)%nat ->
            exists e, answer n = Failed e /\ has_config e = true /\ shouldRetry e = true)
    by (intros n Hn; lia).
  destruct (answer 0%nat) as [s0|e0] eqn:A0.
  { eexists. split; [reflexivity|]. cbn. split; [lia|]. split; [done|]. by split. }
  destruct (has_config e0) eqn:C0; cbn [negb].
  2:{ eexists. split; [reflexivity|]. cbn. split; [lia|]. split; [done|].
      split; [exact H0|]. split; [done | by left]. }
  destruct (shouldRetry e0) eqn:R0; cbn [andb].
  2:{ eexists. split; [reflexivity|]. cbn. split; [lia|]. split; [done|].
      split; [exact H0|]. split; [done | right; by left]. }
  change (0 <? MAX_RETRIES)%nat with true. cbn match.
  assert (H1 : forall n, (S n < 2)%nat ->
            exists e, answer n = Failed e /\ has_config e = true /\ shouldRetry e = true).
  { intros [|n] Hn; [by exists e0 | lia]. }
  destruct (answer 1%nat) as [s1|e1] eqn:A1.
  { eexists. split; [reflexivity|]. cbn. split; [lia|]. split; [done|]. by split. }
  destruct (has_config e1) eqn:C1; cbn [negb].
  2:{ eexists. split; [reflexivity|]. cbn. split; [lia|]. split; [done|].
      split; [exact H1|]. split; [done | by left]. }
  destruct (shouldRetry e1) eqn:R1; cbn [andb].
  2:{ eexists. split; [reflexivity|]. cbn. split; [lia|]. split; [done|].
      split; [exact H1|]. split; [done | right; by left]. }
  change (1 <? MAX_RETRIES)%nat with true. cbn match.
  assert (H2 : forall n, (S n < 3)%nat ->
            exists e, answer n = Failed e /\ has_config e = true /\ shouldRetry e = true).
  { intros [|[|n]] Hn; [by exists e0 | by exists e1 | lia]. }
  destruct (answer 2%nat) as [s2|e2] eqn:A2.
  { eexists. split; [reflexivity|]. cbn. split; [lia|]. split; [done|]. by split. }
  change (2 <? MAX_RETRIES)%nat with false. rewrite andb_false_r.
  destruct (has_config e2) eqn:C2; cbn [negb];
    eexists; (split; [reflexivity|]); cbn; (split; [lia|]); (split; [done|]);
    (split; [exact H2|]); (split; [done|]); by (right; right) || by left.
Qed.

Lemma request_settles_within_three_sendings_witness :
  exists out,
    request 3 (fun _ => Failed {| message := lit "Network Error"; code := None;
                                  response_status := None; has_config := true |})
      = Some out
    /\ sendings out = 3%nat
    /\ delays out = [1000; 2000]%nat.
Proof.
  destruct (request_settles_within_three_sendings
              (fun _ => Failed {| message := lit "Network Error"; code := None;
                                  response_status := None; has_config := true |})
              3 (le_n 3)) as (out & Hreq & _).
  exists out. split; [exact Hreq|].
  vm_compute in Hreq. injection Hreq as <-. split; reflexivity.
Defined.

End ApiClientFacts.

(* ===================================================================== *)
(** * The scraper's image extraction *)
(* ===================================================================== *)

Section ScraperImagesFacts.
Import ScraperImages.

Lemma indexOf_from_skip (pre suf : list JSString) (x : JSString) (i : nat) :
  x ∉ pre ->
  indexOf_from (pre ++ suf) x i = indexOf_from suf x (length pre + i).
Proof.
  revert i. induction pre as [|a pre IH]; intros i Hx; [done|].
  cbn [app indexOf_from length].
  apply not_elem_of_cons in Hx as [Hxa Hx].
  case_decide as E; [by subst|].
  rewrite IH by done. f_equal. lia.
Qed.

Lemma indexOf_from_found (pre suf : list JSString) (x : JSString) (i : nat) :
  x ∈ pre ->
  exists j, indexOf_from (pre ++ suf) x i = Some j /\ (j < i + length pre)%nat.
Proof.
  revert i. induction pre as [|a pre IH]; intros i Hx; [by apply elem_of_nil in Hx|].
  cbn [app indexOf_from length].
  case_decide as E.
  - exists i. split; [done | lia].
  - apply elem_of_cons in Hx as [->|Hx]; [done|].
    destruct (IH (S i) Hx) as (j & -> & Hj). exists j. split; [done | lia].
Qed.

(** Position [length pre] of [pre ++ x :: rest] is the first occurrence of
    [x] exactly when [x] is not in [pre]. *)
Lemma indexOf_first (pre rest : list JSString) (x : JSString) :
  indexOf (pre ++ x :: rest) x = Some (length pre) <-> x ∉ pre.
Proof.
  unfold indexOf. split.
  - intros H Hx. destruct (indexOf_from_found pre (x :: rest) x 0 Hx) as (j & Hj & Hlt).
    rewrite Hj in H. simplify_eq. lia.
  - intros Hx. rewrite indexOf_from_skip by done. cbn [indexOf_from].
    case_decide; [|done]. f_equal. lia.
Qed.

Lemma filter_index_first_occurrences (suf : list JSString) :
  forall pre,
    filter_index (fun url index => bool_decide (indexOf (pre ++ suf) url = Some index))
                 suf (length pre)
    = first_occurrences pre suf.
Proof.
  induction suf as [|x rest IH]; intros pre; [done|].
  cbn [filter_index first_occurrences].
  specialize (IH (pre ++ [x])).
  rewrite <- app_assoc in IH. cbn [app] in IH.
  rewrite length_app in IH. cbn [length] in IH.
  replace (length pre + 1)%nat with (S (length pre)) in IH by lia.
  rewrite IH.
  destruct (decide (x ∈ pre)) as [Hx|Hx].
  - rewrite bool_decide_eq_false_2; [done|]. by rewrite indexOf_first; intros ?.
  - rewrite bool_decide_eq_true_2; [done|]. by apply indexOf_first.
Qed.

Lemma unique_first_occurrences (images : list JSString) :
  unique images = first_occurrences [] images.
Proof. apply (filter_index_first_occurrences images []). Qed.

Lemma first_occurrences_elem (suf : list JSString) :
  forall pre x, x ∈ first_occurrences pre suf <-> x ∈ suf /\ x ∉ pre.
Proof.
  induction suf as [|y rest IH]; intros pre x; cbn [first_occurrences].
  - split; [by intros ?%elem_of_nil | by intros [?%elem_of_nil _]].
  - destruct (decide (y ∈ pre)) as [Hy|Hy].
    + rewrite IH, elem_of_cons, not_elem_of_app, list_elem_of_singleton.
      split; [intros (H1 & H2 & H3); by split; [right|] |].
      intros ([->|H1] & H2); [done|].
      split_and!; [done..|]. by intros ->.
    + rewrite elem_of_cons, IH, elem_of_cons, not_elem_of_app, list_elem_of_singleton.
      split.
      * intros [->|(H1 & H2 & H3)]; [by split; [left|] | by split; [right|]].
      * intros ([->|H1] & H2); [by left|].
        destruct (decide (x = y)) as [->|Hne]; [by left | by right].
Qed.

Lemma first_occurrences_NoDup (suf : list JSString) :
  forall pre, NoDup (first_occurrences pre suf).
Proof.
  induction suf as [|y rest IH]; intros pre; cbn [first_occurrences]; [constructor|].
  destruct (decide (y ∈ pre)); [apply IH|].
  constructor; [|apply IH].
  rewrite first_occurrences_elem, not_elem_of_app, list_elem_of_singleton.
  intros (_ & _ & H). done.
Qed.

Lemma first_occurrences_sublist (suf : list JSString) :
  forall pre, first_occurrences pre suf `sublist_of` suf.
Proof.
  induction suf as [|y rest IH]; intros pre; cbn [first_occurrences]; [done|].
  destruct (decide (y ∈ pre)); [by apply sublist_cons | by apply sublist_skip].
Qed.

Lemma first_occurrences_cons (suf : list JSString) :
  forall a pre,
    first_occurrences (a :: pre) suf
    = filter (fun url => url <> a) (first_occurrences pre suf).
Proof.
  induction suf as [|y rest IH]; intros a pre; cbn [first_occurrences]; [done|].
  change ((a :: pre) ++ [y]) with (a :: (pre ++ [y])). rewrite IH.
  destruct (decide (y ∈ a :: pre)) as [Hy|Hy]; destruct (decide (y ∈ pre)) as [Hp|Hp].
  - done.
  - apply elem_of_cons in Hy as [->|Hy]; [|done].
    by rewrite filter_cons_False by (by intros ?).
  - exfalso. apply Hy. by right.
  - rewrite filter_cons_True; [done|]. intros ->. apply Hy. by left.
Qed.

Lemma first_occurrences_NoDup_id (suf : list JSString) :
  forall pre, NoDup suf -> (forall x, x ∈ suf -> x ∉ pre) -> first_occurrences pre suf = suf.
Proof.
  induction suf as [|y rest IH]; intros pre Hnd Hdis; cbn [first_occurrences]; [done|].
  apply NoDup_cons in Hnd as [Hy Hnd].
  destruct (decide (y ∈ pre)) as [Hp|Hp]; [by destruct (Hdis y); [left|]|].
  f_equal. apply IH; [done|].
  intros x Hx. rewrite not_elem_of_app, list_elem_of_singleton.
  split; [apply Hdis; by right | by intros ->].
Qed.

(** X10. The duplicate filter at the end of [_extractImages] keeps of every
    URL its first occurrence and nothing else: the result has no duplicates
    and the same members, it is a sublist of the input, a list without
    duplicates is returned as it is, and the first URL of the input stays
    first while its later copies are removed. *)
Theorem unique_keeps_first_occurrences (x : JSString) (images : list JSString) :
  NoDup (unique images)
  /\ (forall url, url ∈ unique images <-> url ∈ images)
  /\ unique images `sublist_of` images
  /\ (NoDup images -> unique images = images)
  /\ unique (x :: images) = x :: filter (fun url => url <> x) (unique images).
Proof.
  rewrite !unique_first_occurrences. split_and!.
  - apply first_occurrences_NoDup.
  - intros url. rewrite first_occurrences_elem. split; [by intros [? _]|].
    intros H. split; [done|]. apply not_elem_of_nil.
  - apply first_occurrences_sublist.
  - intros Hnd. apply first_occurrences_NoDup_id; [done|].
    intros y _. apply not_elem_of_nil.
  - cbn [first_occurrences]. destruct (decide (x ∈ [])) as [H|_]; [by apply elem_of_nil in H|].
    cbn [app]. by rewrite first_occurrences_cons.
Qed.

Section WithResolver.
Variable resolve : JSString -> option JSString.

Lemma collect_spec (imgs : list Img) :
  forall images,
    collect resolve imgs images
    = images ++ List.filter accepted (sources_of resolve imgs).
Proof.
  unfold sources_of.
  induction imgs as [|img rest IH]; intros images; cbn [collect omap list_omap List.filter];
    [by rewrite app_nil_r|].
  destruct (attr_or (src img) (attr_or (data_src img) (data_lazy_src img))) as [s|];
    cbn [mbind option_bind]; [|apply IH].
  destruct (truthy s); [|apply IH].
  destruct (resolve s) as [fullUrl|]; [|apply IH].
  cbn [List.filter]. destruct (accepted fullUrl); [|apply IH].
  rewrite IH. by rewrite <- app_assoc.
Qed.

Lemma collect_v1_spec (imgs : list Img) :
  forall images,
    collect_v1 resolve imgs images = images ++ sources_of_v1 resolve imgs.
Proof.
  unfold sources_of_v1.
  induction imgs as [|img rest IH]; intros images; cbn [collect_v1 omap list_omap];
    [by rewrite app_nil_r|].
  destruct (attr_or (src img) (data_src img)) as [s|];
    cbn [mbind option_bind]; [|apply IH].
  destruct (truthy s); [|apply IH].
  destruct (resolve s) as [fullUrl|]; [|apply IH].
  rewrite IH. by rewrite <- app_assoc.
Qed.

Lemma unique_elem (images : list JSString) (url : JSString) :
  url ∈ unique images <-> url ∈ images.
Proof.
  rewrite unique_first_occurrences, first_occurrences_elem.
  split; [by intros [? _]|]. intros H. split; [done | apply not_elem_of_nil].
Qed.

(** X11. [_extractImages] of the second revision returns every URL once, and
    only URLs that pass the extension test and are no data URL.  They are
    the accepted sources of the content element; the images of the whole
    page are looked at only when the content element has no accepted one. *)
Theorem extractImages_accepted_sources_once (content_imgs page_imgs : list Img) :
  let images := _extractImages resolve content_imgs page_imgs in
  let from_content := List.filter accepted (sources_of resolve content_imgs) in
  let from_page := List.filter accepted (sources_of resolve page_imgs) in
  NoDup images
  /\ (forall url, url ∈ images ->
        matches_image_extension url = true /\ startsWith url (lit "data:") = false)
  /\ (from_content <> [] -> forall url, url ∈ images <-> url ∈ from_content)
  /\ (from_content = [] -> forall url, url ∈ images <-> url ∈ from_page).
Proof.
  cbn zeta. unfold _extractImages. rewrite !collect_spec. cbn [app].
  assert (Hacc : forall l url, url ∈ List.filter accepted l ->
            matches_image_extension url = true /\ startsWith url (lit "data:") = false).
  { intros l url H. apply list_elem_of_In, filter_In in H as [_ H].
    unfold accepted in H. apply andb_true_iff in H as [H1 H2].
    split; [done|]. by apply negb_true_iff. }
  pose proof (Hacc (sources_of resolve content_imgs)) as Hc.
  destruct (List.filter accepted (sources_of resolve content_imgs)) as [|u0 rest];
    cbn [length Nat.eqb app].
  - split; [rewrite unique_first_occurrences; apply first_occurrences_NoDup|].
    split; [intros url Hu; rewrite unique_elem in Hu; exact (Hacc _ url Hu)|].
    split; [done|]. intros _ url. apply unique_elem.
  - split; [rewrite unique_first_occurrences; apply first_occurrences_NoDup|].
    split; [intros url Hu; rewrite unique_elem in Hu; exact (Hc url Hu)|].
    split; [intros _ url; apply unique_elem | done].
Qed.

(** X12. [_extractImages] of the first revision returns every resolved
    source once: those of the content element, or those of the whole page
    when the content element gives none. *)
Theorem extractImages_v1_sources_once (content_imgs page_imgs : list Img) :
  let images := _extractImages_v1 resolve content_imgs page_imgs in
  NoDup images
  /\ (sources_of_v1 resolve content_imgs <> [] ->
        forall url, url ∈ images <-> url ∈ sources_of_v1 resolve content_imgs)
  /\ (sources_of_v1 resolve content_imgs = [] ->
        forall url, url ∈ images <-> url ∈ sources_of_v1 resolve page_imgs).
Proof.
  cbn zeta. unfold _extractImages_v1. rewrite !collect_v1_spec. cbn [app].
  destruct (sources_of_v1 resolve content_imgs) as [|u0 rest]; cbn [length Nat.eqb app].
  - split; [rewrite unique_first_occurrences; apply first_occurrences_NoDup|].
    split; [done|]. intros _ url. apply unique_elem.
  - split; [rewrite unique_first_occurrences; apply first_occurrences_NoDup|].
    split; [intros _ url; apply unique_elem | done].
Qed.

End WithResolver.

End ScraperImagesFacts.

(* ===================================================================== *)
(** * More on the client: order, text, and the relay's channel *)
(* ===================================================================== *)

Section ClientMoreFacts.
Import Client ClientProps ClientMore.
Variable props : Props.

(** ** The entries of [variationStates] *)

Lemma onmessage_quiet_states index d c :
  ends_session d = false ->
  variationStates (onmessage props index d c) = variationStates c
  \/ exists p,
       variationStates (onmessage props index d c)
       = alter (fun s => {| status := status s; progress := p |}) index (variationStates c).
Proof.
  destruct d as [|e|]; [done| |by left].
  destruct e as [| | | | | | |b| |]; try done; try (right; by eexists); try (by left).
  destruct b; try (right; by eexists); by left.
Qed.

Lemma onmessage_ending_states index d c :
  ends_session d = true ->
  exists s,
    settled_entry s
    /\ status s = match d with msg_DONE => Complete | _ => Error end
    /\ variationStates (onmessage props index d c) = <[index := s]> (variationStates c).
Proof.
  destruct d as [|e|]; [|destruct e; try done|done]; intros _.
  - eexists. split; [by left|]. by split.
  - eexists. split; [by right|]. by split.
Qed.

Lemma ordered_same k loading c v :
  variationStates v = variationStates c -> ordered k loading c -> ordered k loading v.
Proof. intros Hv H j s. rewrite Hv. apply H. Qed.

Lemma ordered_progress index c v p :
  variationStates v
  = alter (fun s => {| status := status s; progress := p |}) index (variationStates c) ->
  ordered index true c -> ordered index true v.
Proof.
  intros Hv H j s. rewrite Hv.
  destruct (decide (j = index)) as [->|Hj].
  - rewrite list_lookup_alter_eq.
    destruct (variationStates c !! index) as [s0|] eqn:E; [|done].
    cbn. intros [= <-]. destruct (H index s0 E) as (_ & Hl & _).
    split; [lia|]. split; [intros _; by apply Hl | lia].
  - rewrite list_lookup_alter_ne by done. apply H.
Qed.

Lemma ordered_settle index c v s :
  (index < length (variationStates c))%nat ->
  settled_entry s ->
  variationStates v = <[index := s]> (variationStates c) ->
  ordered index true c -> ordered (index + 1) false v.
Proof.
  intros Hi Hs Hv H j s'. rewrite Hv.
  destruct (decide (j = index)) as [->|Hj].
  - rewrite list_lookup_insert_eq by done. intros [= <-].
    split; [done|]. split; lia.
  - rewrite list_lookup_insert_ne by done. intros E.
    destruct (H j s' E) as (H1 & _ & H3).
    split; [intros ?; apply H1; lia|].
    split; [intros ->; apply H3; lia | intros ?; apply H3; lia].
Qed.

Lemma ordered_start k c v p :
  (k < length (variationStates c))%nat ->
  variationStates v = <[k := {| status := Loading; progress := p |}]> (variationStates c) ->
  ordered k false c -> ordered k true v.
Proof.
  intros Hk Hv H j s. rewrite Hv.
  destruct (decide (j = k)) as [->|Hj].
  - rewrite list_lookup_insert_eq by done. intros [= <-].
    split; [lia|]. split; [done | lia].
  - rewrite list_lookup_insert_ne by done. intros E.
    destruct (H j s E) as (H1 & _ & H3). split; [done|]. split; [done | done].
Qed.

Lemma effect_in_order c : ready c -> in_order (effect props c).
Proof.
  intros Hr. pose proof (effect_run_invariant props c Hr) as (Hs & Hphase).
  left. exists 0%nat.
  assert (Ho : is_open (effect props c) 0 = true).
  { destruct Hr as (_ & _ & _ & H4 & _).
    unfold effect, generateVariation, is_open. cbn.
    by rewrite list_lookup_insert_eq by lia. }
  split.
  - destruct Hphase as [(i0 & Hst & _) | [(k & (_ & Hn & _) & _) | ((Hn & _) & _)]].
    + pose proof (streaming_open_unique i0 _ 0%nat Hst Ho) as <-. exact Hst.
    + by destruct (no_open_not_open _ 0%nat Hn Ho).
    + by destruct (no_open_not_open _ 0%nat Hn Ho).
  - intros j s. unfold effect, generateVariation. cbn.
    destruct j as [|[|[|j]]]; cbn; intros [= <-]; (split; [lia|]); split; try lia; done.
Qed.

Lemma step_in_order c i :
  is_cancel i = false -> shape c -> in_order c -> in_order (step props c i).
Proof.
  intros Hi Hs Hphase.
  assert (Hlen : length (variationStates c) = 3%nat) by (by destruct Hs as (_ & _ & ? & _)).
  destruct i as [index d|index| |]; cbn [step]; [| | |done].
  - destruct (is_open c index) eqn:Ho; [|exact Hphase].
    destruct Hphase as [(i0 & Hst & Hord) | [(k & (_ & Hn & _) & _) | ((Hn & _) & _)]];
      [|by destruct (no_open_not_open c index Hn Ho)..].
    assert (index = i0) as -> by (by apply (streaming_open_unique i0 c)).
    destruct (ends_session d) eqn:Hd.
    + destruct (onmessage_ends props i0 d c Hd) as (Hr & Ht & _).
      destruct (onmessage_ending_states i0 d c Hd) as (s & Hset & _ & Hv).
      right; left. exists (i0 + 1)%nat.
      split; [by apply (streaming_closed_settling i0 c)|].
      apply (ordered_settle i0 c _ s); try done. destruct Hst. lia.
    + destruct (onmessage_frame props i0 d c Hd) as (Hr & _ & _ & Ht & _).
      left. exists i0.
      split; [by apply (streaming_same i0 c)|].
      destruct (onmessage_quiet_states i0 d c Hd) as [Hv|(p & Hv)].
      * by apply (ordered_same i0 true c).
      * by apply (ordered_progress i0 c _ p).
  - destruct (is_open c index) eqn:Ho; [|exact Hphase].
    destruct Hphase as [(i0 & Hst & Hord) | [(k & (_ & Hn & _) & _) | ((Hn & _) & _)]];
      [|by destruct (no_open_not_open c index Hn Ho)..].
    assert (index = i0) as -> by (by apply (streaming_open_unique i0 c)).
    destruct (onerror_ends props i0 c) as (Hr & Ht & _).
    right; left. exists (i0 + 1)%nat.
    split; [by apply (streaming_closed_settling i0 c)|].
    apply (ordered_settle i0 c _ {| status := Error; progress := 0 |}); try done.
    + destruct Hst. lia.
    + by right.
  - destruct Hphase as [(i0 & Hst & Hord) | [(k & (Hk & Hn & Ht) & Hord) | (Hq & Hord)]].
    + pose proof Hst as (_ & _ & Ht). rewrite Ht. left. by exists i0.
    + rewrite Ht.
      destruct (decide (k = 3)) as [->|Hk3].
      * right; right. split; [by split|]. exact Hord.
      * destruct (generateVariation_starts props k (with_timeouts [] c))
          as (Hopen & Htv & _); [lia|done|done|].
        left. exists k. split.
        -- split; [lia|]. split; [exact Hopen | by rewrite Htv].
        -- apply (ordered_start k c _ 5); [lia| |done].
           unfold generateVariation. destruct (3 <=? k)%nat eqn:E; [|done].
           apply Nat.leb_le in E. lia.
    + pose proof Hq as (_ & Ht). rewrite Ht. right; right. done.
Qed.

Lemma run_in_order trace :
  forall c, no_cancel trace -> shape c -> in_order c -> in_order (run props c trace).
Proof.
  induction trace as [|i trace IH]; intros c Hnc Hs Hinv; [done|].
  unfold no_cancel in Hnc. cbn [forallb] in Hnc.
  apply andb_true_iff in Hnc as [Hi Hrest].
  cbn [run fold_left]. apply IH; [exact Hrest | by apply step_shape |].
  apply step_in_order; [by destruct (is_cancel i) | done | done].
Qed.

(** X13. In a run that is not cancelled the variations are worked through in
    order: while the channel of [index] is open its entry is [Loading], the
    entries before it are settled ([Complete] with progress 100 or [Error]
    with progress 0) and those after it are still [Pending] with progress 0;
    between two sessions the next entry is [Pending] as well; and when
    nothing is in flight any more all three are settled. *)
Theorem variations_settle_in_order (c0 : Component) (trace : list Input) :
  ready c0 ->
  no_cancel trace ->
  let c := run props (effect props c0) trace in
  (exists index, streaming index c /\ ordered index true c)
  \/ (exists k, settling k c /\ ordered k false c)
  \/ (quiescent c /\ ordered 3 false c).
Proof.
  intros Hr Hnc. apply run_in_order; [done | by apply effect_shape | by apply effect_in_order].
Qed.

(** ** The text of a session *)






(** ** The success banner *)

Lemma step_closure_completed c i :
  closure_completedVariations (step props c i) = closure_completedVariations c.
Proof.
  destruct i as [index d|index| |]; cbn [step].
  - destruct (is_open c index); [|done].
    destruct d as [|e|]; [done| |done].
    destruct e as [| | | | | | |b| |]; try done. by destruct b.
  - by destruct (is_open c index).
  - destruct (timeouts c) as [|k rest]; [done|].
    unfold generateVariation. by destruct (3 <=? k)%nat.
  - by destruct (isLoading c).
Qed.

(** Every write to [completedVariations] is the array of the closure with
    one entry set. *)
Lemma step_completed c i :
  completedVariations (step props c i) = completedVariations c
  \/ exists j,
       completedVariations (step props c i) = <[j := true]> (closure_completedVariations c).
Proof.
  destruct i as [index d|index| |]; cbn [step].
  - destruct (is_open c index); [|by left].
    destruct d as [|e|]; [right; by exists index| |by left].
    destruct e as [| | | | | | |b| |]; try (by left); [by destruct b; left|].
    right. by exists index.
  - destruct (is_open c index); [|by left]. right. by exists index.
  - destruct (timeouts c) as [|k rest]; [by left|].
    unfold generateVariation. destruct (3 <=? k)%nat; by left.
  - destruct (isLoading c); by left.
Qed.

Lemma run_completed trace :
  forall c,
    completedVariations (run props c trace) = completedVariations c
    \/ exists j,
         completedVariations (run props c trace)
         = <[j := true]> (closure_completedVariations c).
Proof.
  induction trace as [|i trace IH]; intros c; [by left|].
  rewrite run_cons.
  destruct (IH (step props c i)) as [H|(j & H)]; rewrite H.
  - apply step_completed.
  - right. exists j. by rewrite step_closure_completed.
Qed.

Lemma one_more_is_not_all (completed : list bool) (j : nat) :
  length completed = 3%nat -> at_most_one_completed completed ->
  forallb id (<[j := true]> completed) = false.
Proof.
  unfold at_most_one_completed.
  destruct completed as [|a [|b [|c [|? ?]]]]; try done. intros _.
  destruct j as [|[|[|j]]]; destruct a, b, c; cbn; try done; lia.
Qed.

(** X15. When the effect runs in a state in which at most one entry of
    [completedVariations] is set, as it is after mounting, no state of the
    run has all three entries set, whatever the channels deliver: each
    handler writes the array of its render with one entry set.  So the
    success banner, which is rendered when [allCompleted] holds, is not
    rendered during or after such a run. *)
Theorem allCompleted_false_throughout (c0 : Component) (trace : list Input) :
  length (completedVariations c0) = 3%nat ->
  at_most_one_completed (completedVariations c0) ->
  allCompleted (run props (effect props c0) trace) = false.
Proof.
  intros Hlen Hone. unfold allCompleted.
  destruct (run_completed trace (effect props c0)) as [H|(j & H)]; rewrite H.
  - unfold effect, generateVariation. cbn. done.
  - apply one_more_is_not_all; done.
Qed.

(** ** The relay's channel *)

(** Behind the guards the handler either gets to the generation step or
    leaves the scrape [catch] block by a throw. *)
Lemma behind_guards_cases (w : Relay.World) (pd : Relay.ParsedData) :
  ((exists scraped, Relay.BlogScraper_scrape w (Relay.blog_url pd) = Normal scraped)
   \/ ((exists url, Relay.blog_url pd = Some url)
       /\ Relay.selected_images pd <> Some Generator.images_null))
  \/ (exists errorMessage,
        Relay.BlogScraper_scrape w (Relay.blog_url pd) = Thrown errorMessage
        /\ (Relay.blog_url pd = None
            \/ Relay.selected_images pd = Some Generator.images_null)).
Proof.
  destruct (Relay.BlogScraper_scrape w (Relay.blog_url pd)) as [scraped|msg].
  - left. left. by exists scraped.
  - destruct (Relay.blog_url pd) as [url|].
    + destruct (Relay.selected_images pd) as [[|images]|].
      * right. exists msg. split; [done | by right].
      * left. right. split; [by eexists | done].
      * left. right. split; [by eexists | done].
    + right. exists msg. split; [done | by left].
Qed.

(** What a GET invocation writes ends with the sentinel or with an [error]
    event, and the sentinel occurs nowhere before the end. *)
Lemma relay_frames_last w req :
  Relay.method req = Relay.GET ->
  exists pre f,
    Relay.frames (Relay.handler w req) = pre ++ [f]
    /\ Wire.count_DONE pre = 0%nat
    /\ ends_session (message_of_frame f) = true.
Proof.
  intros Hm.
  destruct (turned_away_or_passes w req) as [Ha | [pd Hp]].
  - destruct (handler_turned_away w req Hm Ha) as [message ->].
    by exists [], (Wire.data (Wire.error message)).
  - rewrite (handler_passes_guards w req pd Hm Hp).
    destruct (scrape_and_generate_sentinel w pd (Relay.query_variationIndex req))
      as (_ & _ & Hgen & Hthrow).
    destruct (behind_guards_cases w pd) as [Hg | (msg & Hs & Hbad)].
    + destruct (Hgen Hg) as (Hcount & Hlast).
      apply last_Some in Hlast as [pre Hpre]. exists pre, Wire.DONE.
      split; [exact Hpre|]. split; [|done].
      rewrite Hpre, count_DONE_app in Hcount. cbn in Hcount. lia.
    + destruct (Hthrow msg Hs Hbad) as (_ & message & ->).
      by eexists [_], (Wire.data (Wire.error message)).
Qed.

(** A channel's messages up to and including the first that ends the
    session. *)
Lemma session_ends_with index quiet d rest :
  forall c,
    shape c -> streaming index c ->
    existsb ends_session quiet = false -> ends_session d = true ->
    let v := run props c (map (Message index) (quiet ++ d :: rest)) in
    status_of v index = Some (match d with msg_DONE => Complete | _ => Error end).
Proof.
  induction quiet as [|q quiet IH]; intros c Hs Hst Hq Hd.
  - cbn [app map]. rewrite run_cons. cbn [step].
    assert (Ho : is_open c index = true) by (by apply Hst). rewrite Ho.
    destruct (onmessage_ends props index d c Hd) as (Hr & Htm & _).
    pose proof (streaming_closed_settling index c _ Hst Hr Htm) as (_ & Hn & _).
    rewrite messages_closed by apply Hn.
    destruct (onmessage_ending_states index d c Hd) as (s & _ & Hstatus & Hv).
    unfold status_of. rewrite Hv, list_lookup_insert_eq; [by rewrite <- Hstatus|].
    destruct Hs as (_ & _ & -> & _). by destruct Hst.
  - cbn [existsb] in Hq. apply orb_false_iff in Hq as [Hq0 Hq].
    cbn [app map]. rewrite run_cons. cbn [step].
    assert (Ho : is_open c index = true) by (by apply Hst). rewrite Ho.
    destruct (onmessage_frame props index q c Hq0) as (Hr & _ & _ & Htm & _).
    apply IH; try done.
    + by apply onmessage_shape.
    + by apply (streaming_same index c).
Qed.

(** Frames of which the last ends the session and none before it is the
    sentinel: the first [error] event among them ends the session, as
    [Error]; without one the sentinel does, as [Complete]. *)
Lemma frames_status index (pre : list Wire.Frame) (f : Wire.Frame) :
  forall c,
    shape c -> streaming index c ->
    Wire.count_DONE pre = 0%nat -> ends_session (message_of_frame f) = true ->
    status_of (run props c (map (Message index) (map message_of_frame (pre ++ [f])))) index
    = Some (if existsb is_error_frame (pre ++ [f]) then Error else Complete).
Proof.
  induction pre as [|q pre IH]; intros c Hs Hst Hcount Hf.
  - pose proof (session_ends_with index [] (message_of_frame f) [] c Hs Hst eq_refl Hf)
      as H.
    cbn zeta in H. cbn [app map] in H |- *. rewrite H.
    destruct f as [e|]; [|done]. by destruct e.
  - destruct q as [e|]; [|done].
    change (Wire.count_DONE pre = 0%nat) in Hcount.
    destruct (ends_session (msg_event e)) eqn:He.
    + pose proof (session_ends_with index [] (msg_event e)
                    (map message_of_frame (pre ++ [f])) c Hs Hst eq_refl He) as H.
      cbn zeta in H. cbn [app map message_of_frame] in H |- *. rewrite H.
      by destruct e.
    + cbn [app map message_of_frame]. rewrite run_cons. cbn [step].
      assert (Ho : is_open c index = true) by (by apply Hst). rewrite Ho.
      destruct (onmessage_frame props index (msg_event e) c He) as (Hr & _ & _ & Htm & _).
      rewrite (IH (onmessage props index (msg_event e) c)); try done.
      * cbn [existsb]. by destruct e.
      * by apply onmessage_shape.
      * by apply (streaming_same index c).
Qed.

Lemma existsb_message_of_frame (l : list Wire.Frame) :
  existsb ends_session (map message_of_frame l)
  = existsb (fun f => ends_session (message_of_frame f)) l.
Proof. induction l as [|f l IH]; [done|]. cbn [map existsb]. by rewrite IH. Qed.

Lemma relay_feed_terminating w req :
  Relay.method req = Relay.GET -> terminating (relay_feed w req).
Proof.
  intros Hm. destruct (relay_frames_last w req Hm) as (pre & f & Heq & _ & Hf).
  unfold terminating, relay_feed. rewrite Heq, existsb_message_of_frame, existsb_app.
  cbn [existsb]. rewrite Hf. by rewrite orb_true_r.
Qed.

Lemma relay_feed_status w req index c :
  Relay.method req = Relay.GET -> shape c -> streaming index c ->
  status_of (run props c (map (Message index) (relay_feed w req))) index
  = Some (if existsb is_error_frame (Relay.frames (Relay.handler w req))
          then Error else Complete).
Proof.
  intros Hm Hs Hst.
  destruct (relay_frames_last w req Hm) as (pre & f & Heq & Hcount & Hf).
  unfold relay_feed. rewrite Heq. by apply frames_status.
Qed.

(** X16. Whatever a GET invocation of the relay writes ends the client's
    session on that channel: fed to the open channel of [index], the frames
    leave the channel closed and the settle timeout for the next index
    pending, and the entry of [index] is [Error] when an event of type
    [error] is among the frames, be it the relay's own or one the backend's
    stream delivered and the relay passed on, and [Complete] otherwise. *)
Theorem relay_response_settles_client_session (w : Relay.World) (req : Relay.Request)
    (index : nat) (c : Component) :
  Relay.method req = Relay.GET ->
  shape c ->
  streaming index c ->
  let v := run props c (map (Message index) (relay_feed w req)) in
  settling (index + 1) v
  /\ status_of v index
     = Some (if existsb is_error_frame (Relay.frames (Relay.handler w req))
             then Error else Complete).
Proof.
  intros Hm Hs Hst. cbn zeta. split.
  - by apply session_run; [| |apply relay_feed_terminating].
  - by apply relay_feed_status.
Qed.

(** ** A whole request over the relay *)

Lemma effect_streaming c : ready c -> streaming 0 (effect props c).
Proof.
  intros Hr. destruct (effect_in_order c Hr) as [(i0 & Hst & _) | [(k & (_ & Hn & _) & _) | ((Hn & _) & _)]].
  - assert (Ho : is_open (effect props c) 0 = true).
    { destruct Hr as (_ & _ & _ & H4 & _).
      unfold effect, generateVariation, is_open. cbn.
      by rewrite list_lookup_insert_eq by lia. }
    pose proof (streaming_open_unique i0 _ 0%nat Hst Ho) as <-. exact Hst.
  - exfalso. apply (no_open_not_open _ 0%nat Hn).
    destruct Hr as (_ & _ & _ & H4 & _).
    unfold effect, generateVariation, is_open. cbn.
    by rewrite list_lookup_insert_eq by lia.
  - exfalso. apply (no_open_not_open _ 0%nat Hn).
    destruct Hr as (_ & _ & _ & H4 & _).
    unfold effect, generateVariation, is_open. cbn.
    by rewrite list_lookup_insert_eq by lia.
Qed.

(** One session over the relay, from the open channel on. *)
Lemma relay_session k w req c :
  Relay.method req = Relay.GET -> shape c -> streaming k c ->
  let v := run props c (map (Message k) (relay_feed w req)) in
  shape v
  /\ settling (k + 1) v
  /\ status_of v k
     = Some (if existsb is_error_frame (Relay.frames (Relay.handler w req))
             then Error else Complete)
  /\ (forall j, j <> k -> status_of v j = status_of c j).
Proof.
  intros Hm Hs Hst.
  destruct (session_run props k (relay_feed w req) c Hs Hst (relay_feed_terminating w req Hm))
    as (G1 & G2 & _ & _ & _ & G6).
  split; [exact G2|]. split; [exact G1|]. split; [by apply relay_feed_status | exact G6].
Qed.

(** The settle timeout of [k] fires and the session of [k] runs over the
    relay. *)
Lemma relay_session_after_timeout k w req c :
  Relay.method req = Relay.GET -> shape c -> settling k c -> (k < 3)%nat ->
  let v := run props c (TimeoutFires :: map (Message k) (relay_feed w req)) in
  shape v
  /\ settling (k + 1) v
  /\ status_of v k
     = Some (if existsb is_error_frame (Relay.frames (Relay.handler w req))
             then Error else Complete)
  /\ (forall j, j <> k -> status_of v j = status_of c j).
Proof.
  intros Hm Hs (Hk & Hn & Ht) Hk3. rewrite run_cons. cbn [step]. rewrite Ht.
  destruct (generateVariation_starts props k (with_timeouts [] c))
    as (Hopen & Htv & _); [lia|done|done|].
  set (c1 := generateVariation props k (with_timeouts [] c)) in *.
  assert (Hs1 : shape c1) by (by apply generateVariation_shape).
  assert (Hst1 : streaming k c1) by (split; [lia|]; split; [exact Hopen | exact Htv]).
  destruct (relay_session k w req c1 Hm Hs1 Hst1) as (G1 & G2 & G3 & G4).
  split; [exact G1|]. split; [exact G2|]. split; [exact G3|].
  intros j Hj. rewrite G4 by done. unfold status_of, c1.
  by rewrite generateVariation_other.
Qed.

Lemma no_cancel_messages index feed : no_cancel (map (Message index) feed).
Proof. unfold no_cancel. by induction feed. Qed.

Lemma no_cancel_app t1 t2 : no_cancel t1 -> no_cancel t2 -> no_cancel (t1 ++ t2).
Proof. unfold no_cancel. intros H1 H2. by rewrite forallb_app, H1, H2. Qed.

Lemma no_cancel_request_trace feed0 feed1 feed2 :
  no_cancel (request_trace feed0 feed1 feed2).
Proof.
  unfold request_trace. cbn [sessions].
  apply no_cancel_app; [apply no_cancel_messages|].
  apply no_cancel_app; [|done].
  change (no_cancel ([TimeoutFires] ++ map (Message 1) feed1
                     ++ [TimeoutFires] ++ map (Message 2) feed2 ++ [])).
  repeat (apply no_cancel_app; try apply no_cancel_messages; try done).
Qed.

(** X17. A request whose three channels are each served by a GET invocation
    of the relay runs to its end, whatever scraping, the web search and the
    backend do in the three invocations: afterwards nothing is in flight,
    the loading flag is off, [onStreamComplete] has been called exactly once
    and nothing else was called back, and each variation is [Error] if its
    invocation wrote an [error] event and [Complete] otherwise. *)
Theorem relay_responses_complete_client_request (c0 : Component)
    (w0 w1 w2 : Relay.World) (req0 req1 req2 : Relay.Request) :
  ready c0 ->
  Relay.method req0 = Relay.GET ->
  Relay.method req1 = Relay.GET ->
  Relay.method req2 = Relay.GET ->
  let outcome w req :=
    if existsb is_error_frame (Relay.frames (Relay.handler w req)) then Error else Complete in
  let c := run props (effect props c0)
             (request_trace (relay_feed w0 req0) (relay_feed w1 req1) (relay_feed w2 req2)) in
  delivered props c
  /\ status_of c 0 = Some (outcome w0 req0)
  /\ status_of c 1 = Some (outcome w1 req1)
  /\ status_of c 2 = Some (outcome w2 req2).
Proof.
  intros Hr Hm0 Hm1 Hm2. cbn zeta. split.
  - apply run_invariant_quiescent.
    + apply run_run_invariant; [apply no_cancel_request_trace | by apply effect_run_invariant].
    + by apply request_trace_quiescent; [|apply relay_feed_terminating..].
  - unfold request_trace. cbn [sessions]. rewrite app_nil_r.
    rewrite !run_app.
    destruct (relay_session 0 w0 req0 (effect props c0) Hm0
                (effect_shape props c0 Hr) (effect_streaming c0 Hr)) as (A1 & A2 & A3 & A4).
    set (ca := run props (effect props c0) (map (Message 0) (relay_feed w0 req0))) in *.
    change (TimeoutFires :: map (Message 1) (relay_feed w1 req1)
            ++ TimeoutFires :: map (Message 2) (relay_feed w2 req2))
      with ((TimeoutFires :: map (Message 1) (relay_feed w1 req1))
            ++ TimeoutFires :: map (Message 2) (relay_feed w2 req2)).
    rewrite run_app.
    destruct (relay_session_after_timeout 1 w1 req1 ca Hm1 A1 A2 ltac:(lia))
      as (B1 & B2 & B3 & B4).
    set (cb := run props ca (TimeoutFires :: map (Message 1) (relay_feed w1 req1))) in *.
    destruct (relay_session_after_timeout 2 w2 req2 cb Hm2 B1 B2 ltac:(lia))
      as (C1 & C2 & C3 & C4).
    set (cc := run props cb (TimeoutFires :: map (Message 2) (relay_feed w2 req2))) in *.
    destruct C2 as (_ & _ & Ht).
    assert (Hlast : forall j, status_of (run props cc [TimeoutFires]) j = status_of cc j).
    { intros j. cbn [run fold_left step]. by rewrite Ht. }
    rewrite !Hlast.
    split; [by rewrite C4, B4 by done|]. split; [by rewrite C4 by done | done].
Qed.

(** ** Cancelling between two sessions *)

(** X21. A cancellation during the settle delay does not stop the run.  It
    turns the loading flag off and reports the cancellation, but the pending
    timeout stays: when it fires, the session of the next index is opened
    and set to [Loading], or, after the third session, [onStreamComplete] is
    still called, after [onStreamError]. *)
Theorem cancel_during_settle_delay_run_goes_on (c0 : Component) (trace : list Input)
    (k : nat) :
  ready c0 ->
  no_cancel trace ->
  let c := run props (effect props c0) trace in
  settling k c ->
  let c' := step props c CancelClick in
  let c'' := step props c' TimeoutFires in
  isLoading c' = false
  /\ callbacks c' = [onStreamError cancelled]
  /\ timeouts c' = [k]
  /\ ((k < 3)%nat ->
        is_open c'' k = true /\ status_of c'' k = Some Loading
        /\ callbacks c'' = [onStreamError cancelled])
  /\ (k = 3%nat ->
        callbacks c''
        = [onStreamError cancelled;
           onStreamComplete (generatedContents props (closure_streamedContents c))]).
Proof.
  intros Hr Hnc c (Hk & Hn & Ht).
  assert (Hinv : run_invariant props c)
    by (apply run_run_invariant; [exact Hnc | by apply effect_run_invariant]).
  destruct Hinv as (Hs & Hphase).
  assert (Hl : isLoading c = true /\ callbacks c = []).
  { destruct Hphase as [(i0 & (_ & _ & Ht0) & _) | [(k' & _ & Hl & Hc) | ((_ & Ht0) & _)]];
      [by rewrite Ht0 in Ht | done | by rewrite Ht0 in Ht]. }
  destruct Hl as (Hl & Hc).
  cbn zeta. cbn [step]. rewrite Hl.
  assert (Hs' : shape (handleCancelStream c)).
  { pose proof (step_shape props c CancelClick Hs) as H. cbn [step] in H. by rewrite Hl in H. }
  assert (Hn' : no_open (handleCancelStream c)).
  { intros j. by apply (is_open_map_close c). }
  change (timeouts (handleCancelStream c)) with (timeouts c). rewrite Ht.
  split; [done|]. split; [cbn; by rewrite Hc|]. split; [done|]. split.
  - intros Hk3.
    destruct (generateVariation_starts props k (with_timeouts [] (handleCancelStream c)))
      as (Hopen & _ & Hcb & _ & Hload); [lia|done|done|].
    split; [by apply Hopen|]. split; [exact Hload|].
    rewrite Hcb. cbn. by rewrite Hc.
  - intros ->. cbn. by rewrite Hc.
Qed.

End ClientMoreFacts.

(* ===================================================================== *)
(** * The client and the relay at concrete runs *)
(* ===================================================================== *)

Section ClientMoreRuns.
Import Client ClientProps ClientMore.

(** X13 after the first session of a first request. *)
Lemma variations_settle_in_order_witness :
  in_order (run example_props (effect example_props mount)
              [Message 0 (ev_delta "Hello"); Message 0 msg_DONE; TimeoutFires]).
Proof.
  exact (variations_settle_in_order example_props mount
           [Message 0 (ev_delta "Hello"); Message 0 msg_DONE; TimeoutFires]
           ready_mount eq_refl).
Defined.


(** X15 at a first request whose three sessions all end with the sentinel. *)
Lemma allCompleted_false_throughout_witness :
  allCompleted (run example_props (effect example_props mount)
                  (request_trace [msg_DONE] [msg_DONE] [msg_DONE])) = false.
Proof.
  refine (allCompleted_false_throughout example_props mount
            (request_trace [msg_DONE] [msg_DONE] [msg_DONE]) eq_refl _).
  unfold at_most_one_completed. cbn. lia.
Defined.

(** X16 at an invocation whose backend connection fails: the relay writes
    the [error] event and then the sentinel, and the entry ends [Error]. *)
Lemma relay_response_settles_client_session_witness :
  status_of
    (run example_props (effect example_props mount)
       (map (Message 0) (relay_feed backend_down (RelayProps.get_request 0))))
    0
  = Some Error.
Proof.
  refine (eq_trans
            (proj2 (relay_response_settles_client_session example_props backend_down
                      (RelayProps.get_request 0) 0 (effect example_props mount)
                      eq_refl _ _)) _).
  - apply effect_shape, ready_mount.
  - apply effect_streaming, ready_mount.
  - vm_compute. reflexivity.
Defined.

(** X17 at three invocations, the second of which cannot parse its request
    data. *)
Lemma relay_responses_complete_client_request_witness :
  delivered example_props
    (run example_props (effect example_props mount)
       (request_trace (relay_feed backend_up (RelayProps.get_request 0))
                      (relay_feed RelayProps.broken_world (RelayProps.get_request 1))
                      (relay_feed backend_down (RelayProps.get_request 2)))).
Proof.
  exact (proj1 (relay_responses_complete_client_request example_props mount
                  backend_up RelayProps.broken_world backend_down
                  (RelayProps.get_request 0) (RelayProps.get_request 1)
                  (RelayProps.get_request 2)
                  ready_mount eq_refl eq_refl eq_refl)).
Defined.

(** X21 at a cancellation after the first session has ended. *)
Lemma cancel_during_settle_delay_run_goes_on_witness :
  is_open
    (step example_props
       (step example_props
          (run example_props (effect example_props mount) [Message 0 msg_DONE])
          CancelClick)
       TimeoutFires)
    1
  = true.
Proof.
  refine (proj1 (proj1 (proj2 (proj2 (proj2
            (cancel_during_settle_delay_run_goes_on example_props mount
               [Message 0 msg_DONE] 1 ready_mount eq_refl _)))) _)).
  - split; [lia|]. split; [|reflexivity]. intros [|[|[|n]]]; reflexivity.
  - lia.
Defined.

(** An [error] event of the backend's stream reaches the client on the
    relay's channel, before the generator's [variation_complete] and the
    sentinel; the client ends the session in [Error] at that event and
    closes the channel, so the frames behind it change nothing. *)
Example backend_error_event_ends_session :
  let sent := Relay.frames (Relay.handler backend_reports_error (RelayProps.get_request 0)) in
  let c := run example_props (effect example_props mount)
             (map (Message 0) (relay_feed backend_reports_error (RelayProps.get_request 0))) in
  In (Wire.data (Wire.error (lit "rate limit exceeded"))) sent
  /\ existsb is_variation_complete sent = true
  /\ last sent = Some Wire.DONE
  /\ status_of c 0 = Some Error
  /\ is_open c 0 = false
  /\ timeouts c = [1%nat]
  /\ streamedContents c !! 0%nat = Some (fallbackContent example_props 0).
Proof.
  cbn zeta. split_and!; try (vm_compute; reflexivity).
  vm_compute. tauto.
Qed.

End ClientMoreRuns.

(* ===================================================================== *)
(** * More on the relay and the generator's responses *)
(* ===================================================================== *)

Section RelayMoreFacts.
Import Wire Scraper Generator GeneratorMore Relay ClientMore.

(** ** The text taken from a response *)

Lemma first_output_text_first_text parts content :
  first_output_text parts content = default content (first_text parts).
Proof. induction parts as [|[text|] parts IH]; [done|done|exact IH]. Qed.

Lemma last_cons_default (x : JSString) (l : list JSString) (d : JSString) :
  default d (last (x :: l)) = default x (last l).
Proof. rewrite last_cons. by destruct (last l). Qed.

(** X18. The text [generateLineContent] takes from a response is that of the
    last assistant message with an [output_text] part, and of that message
    the first such part: the [break] leaves the loop over the parts only, so
    a later message overwrites the text of an earlier one.  Without such a
    message the text stays empty. *)
Theorem extract_content_last_assistant_text (items : list OutputItem) (content : JSString) :
  extract_content items content = default content (last (assistant_texts items)).
Proof.
  revert content. unfold assistant_texts.
  induction items as [|item items IH]; intros content; [done|].
  cbn [extract_content omap list_omap].
  destruct item as [[|] parts|]; try apply IH.
  rewrite IH, first_output_text_first_text.
  destruct (first_text parts) as [text|]; [|done].
  cbn [from_option id]. by rewrite last_cons_default.
Qed.

(** ** The placeholder article *)

Lemma split_slash_pop_no_slash (seg : JSString) :
  forall acc,
    forallb (fun c => negb (c =? 47)%N) seg = true ->
    split_slash_pop seg acc = acc ++ seg.
Proof.
  induction seg as [|c seg IH]; intros acc H; [by rewrite app_nil_r|].
  cbn [forallb] in H. apply andb_true_iff in H as [Hc H].
  cbn [split_slash_pop]. apply negb_true_iff in Hc. rewrite Hc.
  rewrite IH by done. by rewrite <- app_assoc.
Qed.

Lemma split_slash_pop_after_slash (dir seg : JSString) :
  forall acc,
    forallb (fun c => negb (c =? 47)%N) seg = true ->
    split_slash_pop (dir ++ 47%N :: seg) acc = seg.
Proof.
  induction dir as [|c dir IH]; intros acc H.
  - cbn [app split_slash_pop]. change (47 =? 47)%N with true. cbn match.
    by rewrite split_slash_pop_no_slash.
  - cbn [app split_slash_pop]. destruct (c =? 47)%N; by apply IH.
Qed.

(** X19. The placeholder article that stands in for a failed scrape takes
    its title from the URL: the text behind the last slash, or the whole URL
    when it has no slash; when that text is empty, as for a URL that ends in
    a slash, the title is the default one.  Its images are the selected
    images as they are. *)
Theorem placeholder_title_is_last_segment (dir seg : JSString)
    (selected_images : list JSString) :
  forallb (fun c => negb (c =? 47)%N) seg = true ->
  title (placeholder_content (dir ++ 47%N :: seg) selected_images)
  = (if truthy seg then seg else lit "記事タイトル")
  /\ title (placeholder_content seg selected_images)
     = (if truthy seg then seg else lit "記事タイトル")
  /\ images (placeholder_content (dir ++ 47%N :: seg) selected_images) = selected_images.
Proof.
  intros H. unfold placeholder_content. cbn [title images].
  rewrite split_slash_pop_after_slash, split_slash_pop_no_slash by done.
  cbn [app]. split; [done|]. split; [done|].
  by destruct selected_images.
Qed.

Lemma placeholder_title_is_last_segment_witness :
  title (placeholder_content (lit "https://example.com/blog/example-post") [])
  = lit "example-post".
Proof.
  refine (eq_trans _
            (eq_trans
               (proj1 (placeholder_title_is_last_segment
                         (lit "https://example.com/blog") (lit "example-post") [] _)) _));
    vm_compute; reflexivity.
Defined.

(** ** Completion and error on the channel *)

(** A generator that does not throw yields [variation_complete] last. *)
Lemma generateLineContentStream_completes search create t imgs ws k :
  thrown (generateLineContentStream search create t imgs ws k) = None ->
  exists pre,
    yielded (generateLineContentStream search create t imgs ws k)
    = pre ++ [variation_complete k
                (lit "バリエーション " ++ Number_toString (k + 1)
                 ++ lit " の生成が完了しました")].
Proof.
  unfold generateLineContentStream.
  match goal with |- context [if ws then ?a else ?b] => set (web_search := if ws then a else b) end.
  destruct imgs as [|images]; cbn [yielded thrown]; [done|].
  destruct (create k) as [response|msg];
    [destruct (failure response) as [msg|]|]; cbn [yielded thrown]; try done.
  intros _.
  match goal with
  | |- exists pre, ?W ++ [?I] ++ ?Ev ++ [?V] = _ => exists (W ++ [I] ++ Ev)
  end.
  by rewrite <- !app_assoc.
Qed.

(** X20. How the frames of a GET invocation of the relay end is fixed by how
    far the handler gets.  When it gets to the generation step and the
    generator does not throw, the frames end with the generator's
    [variation_complete] event and the sentinel; when the generator throws,
    with the relay's [error] event for that error and the sentinel.  When
    the handler does not get to the generation step (it is turned away by a
    guard or the parser, or the scraping fails and the placeholder cannot be
    built), the frames end with an [error] event and hold no sentinel.  One
    of the three is always the case, so the sentinel is always preceded by
    the completion event or by the generation error. *)
Theorem relay_completes_or_reports_error (w : World) (req : Request) :
  method req = GET ->
  let index := default 0%nat (query_variationIndex req) in
  let out := frames (handler w req) in
  let completion :=
    data (variation_complete index
            (lit "バリエーション " ++ Number_toString (index + 1)
             ++ lit " の生成が完了しました")) in
  let generation_error m :=
    data (error (lit "コンテンツ生成中にエラーが発生しました: " ++ m)) in
  (exists pre,
     out = pre ++ [completion; DONE]
     \/ (exists m, out = pre ++ [generation_error m; DONE])
     \/ (exists m, out = pre ++ [data (error m)] /\ count_DONE pre = 0%nat))
  /\ (forall parsedData sc,
        RelayProps.passes_guards w req parsedData ->
        RelayProps.generates_from w parsedData sc ->
        match thrown (generateLineContentStream
                        (enhanceContentWithWebSearch w) (responses_create w) (title sc)
                        (default (images_array []) (selected_images parsedData))
                        (default true (use_web_search parsedData)) index) with
        | None => exists pre, out = pre ++ [completion; DONE]
        | Some m => exists pre, out = pre ++ [generation_error m; DONE]
        end)
  /\ (RelayProps.turned_away w req \/ RelayProps.scrape_catch_throws w req ->
        count_DONE out = 0%nat
        /\ exists pre m, out = pre ++ [data (error m)]).
Proof.
  intros Hm. cbn zeta.
  assert (Hgen : forall sc imgs ws ch0,
            match thrown (generateLineContentStream
                            (enhanceContentWithWebSearch w) (responses_create w) (title sc)
                            imgs ws (default 0%nat (query_variationIndex req))) with
            | None =>
              exists pre,
                frames (generate_and_finish w sc imgs ws
                          (default 0%nat (query_variationIndex req)) ch0)
                = pre ++ [data (variation_complete (default 0%nat (query_variationIndex req))
                                  (lit "バリエーション "
                                   ++ Number_toString
                                        (default 0%nat (query_variationIndex req) + 1)
                                   ++ lit " の生成が完了しました"));
                          DONE]
            | Some m =>
              exists pre,
                frames (generate_and_finish w sc imgs ws
                          (default 0%nat (query_variationIndex req)) ch0)
                = pre ++ [data (error (lit "コンテンツ生成中にエラーが発生しました: " ++ m));
                          DONE]
            end).
  { intros sc imgs ws ch0. rewrite generate_and_finish_frames.
    unfold RelayProps.generation_frames, RelayProps.generation_error_frames.
    destruct (thrown _) as [m|] eqn:Ht.
    - eexists (frames ch0 ++ _ :: _ :: map data _).
      rewrite <- !app_assoc. cbn [app]. reflexivity.
    - destruct (generateLineContentStream_completes _ _ _ _ _ _ Ht) as (pre & ->).
      exists (frames ch0 ++ [data (variation_info (default 0%nat (query_variationIndex req)) 3
                                    (lit "バリエーション "
                                     ++ Number_toString
                                          (default 0%nat (query_variationIndex req) + 1)
                                     ++ lit "/3 の生成を開始します"));
                             data (generation_starting
                                     (lit "OpenAIを使用してコンテンツの生成を開始します"))]
                ++ map data pre).
      rewrite map_app, <- !app_assoc. cbn [app map]. reflexivity. }
  assert (Hgen3 : forall sc imgs ws ch0,
            exists pre,
              frames (generate_and_finish w sc imgs ws
                        (default 0%nat (query_variationIndex req)) ch0)
              = pre ++ [data (variation_complete (default 0%nat (query_variationIndex req))
                                (lit "バリエーション "
                                 ++ Number_toString (default 0%nat (query_variationIndex req) + 1)
                                 ++ lit " の生成が完了しました"));
                        DONE]
              \/ (exists m,
                    frames (generate_and_finish w sc imgs ws
                              (default 0%nat (query_variationIndex req)) ch0)
                    = pre ++ [data (error (lit "コンテンツ生成中にエラーが発生しました: " ++ m));
                              DONE])
              \/ (exists m,
                    frames (generate_and_finish w sc imgs ws
                              (default 0%nat (query_variationIndex req)) ch0)
                    = pre ++ [data (error m)] /\ count_DONE pre = 0%nat)).
  { intros sc imgs ws ch0. pose proof (Hgen sc imgs ws ch0) as H.
    destruct (thrown _) as [m|]; destruct H as (pre & H); exists pre.
    - right; left. by exists m.
    - by left. }
  split; [|split].
  - destruct (turned_away_or_passes w req) as [Ha | [pd Hp]].
    + destruct (handler_turned_away w req Hm Ha) as [message ->].
      exists []. right; right. by exists message.
    + rewrite (handler_passes_guards w req pd Hm Hp).
      unfold scrape_and_generate. cbn zeta.
      destruct (BlogScraper_scrape w (blog_url pd)) as [scraped|msg]; [apply Hgen3|].
      destruct (blog_url pd) as [url|].
      * destruct (default (images_array []) (selected_images pd)) as [|images] eqn:Hi.
        -- eexists [_]. right; right. by eexists.
        -- apply Hgen3.
      * eexists [_]. right; right. by eexists.
  - intros pd sc Hp Hfrom.
    rewrite (handler_passes_guards w req pd Hm Hp).
    unfold scrape_and_generate. cbn zeta.
    destruct Hfrom as [(scraped & Hs & ->) | (msg & url & images & Hs & Hu & Hi & ->)].
    + rewrite Hs. apply Hgen.
    + rewrite Hs, Hu, Hi. rewrite <- Hi. apply Hgen.
  - intros [Ha | (pd & msg & Hp & Hs & Hbad)].
    + destruct (handler_turned_away w req Hm Ha) as [message ->].
      split; [done|]. by exists [], message.
    + rewrite (handler_passes_guards w req pd Hm Hp).
      unfold scrape_and_generate. cbn zeta. rewrite Hs.
      destruct (blog_url pd) as [url|].
      * destruct Hbad as [|Hnull]; [done|]. rewrite Hnull. cbn [from_option id].
        split; [done|]. by eexists [_], _.
      * split; [done|]. by eexists [_], _.
Qed.

(** X20 at an invocation whose backend streams a text. *)
Lemma relay_completes_or_reports_error_witness :
  let out := frames (handler backend_up (RelayProps.get_request 0)) in
  exists pre,
    out = pre ++ [data (variation_complete 0
                          (lit "バリエーション " ++ Number_toString (0 + 1)
                           ++ lit " の生成が完了しました"));
                  DONE]
    \/ (exists m,
          out = pre ++ [data (error (lit "コンテンツ生成中にエラーが発生しました: " ++ m)); DONE])
    \/ (exists m, out = pre ++ [data (error m)] /\ count_DONE pre = 0%nat).
Proof.
  exact (proj1 (relay_completes_or_reports_error backend_up (RelayProps.get_request 0)
                  eq_refl)).
Defined.

Example relay_completes_at_working_backend :
  last (frames (handler backend_up (RelayProps.get_request 0))) = Some DONE
  /\ existsb is_variation_complete (frames (handler backend_up (RelayProps.get_request 0)))
     = true
  /\ existsb is_error_frame (frames (handler backend_up (RelayProps.get_request 0))) = false.
Proof. split; [|split]; vm_compute; reflexivity. Qed.

End RelayMoreFacts.
